(** * A shallow embedding of the repository assistant

    The Python sources under [app/] are embedded as Rocq functions:
    [indexer.py] (chunking, content addressing, the index store with its
    reset heuristic), [review.py] (diff collection, the lint / bug-check /
    autofix runners and the review event stream), [agent.py] (the review
    summarizer), [qna.py] and [main.py] (the question-answering flow).

    Conventions of the embedding.
    - A Python [str] is a Rocq [string]; every character stands for one code
      point in the range 0..255, so [String.length] is Python's [len].
    - Python integers are [Z]. A Python float is the rational that it is:
      the two floats of the code, the reset threshold and the broken ratio,
      are rounded to the nearest double ([Float64.of_Q]) and then compared
      as rationals.
    - The embeddings that the vector store returns are a NumPy array
      ([Numpy.ndarray]), whose truth value is an error unless it has one
      element. A collection of the store has one dimension, and a handle on
      a collection does not outlive the collection.
    - A Python [dict] with string keys is an insertion-ordered association
      list; review events and JSON documents are values of [pyval].
    - External collaborators (git and the tools started through the shell,
      the file system, the embedding model, the chat completion service, the
      [json] module) are the fields of the class [Env]; effects are threaded
      through an explicit state, exceptions are the [Raise] outcome. *)

From Stdlib Require Import ZArith QArith Lia Ascii.
From stdpp Require Import base tactics option list strings gmap pretty.

Local Open Scope Z_scope.

(* ===================================================================== *)
(** * Python strings *)
(* ===================================================================== *)

Module PyStr.

Definition LF : ascii := "010"%char.
Definition CR : ascii := "013"%char.
Definition NL : string := String LF "".

Definition len (s : string) : Z := Z.of_nat (String.length s).

(** Truth value of a string: non-empty. *)
Definition truthy (s : string) : bool :=
  match s with "" => false | _ => true end.

Definition code (c : ascii) : N := Ascii.N_of_ascii c.

(** [str.isspace] on one character, for the code points below 256. *)
Definition is_space (c : ascii) : bool :=
  let n := code c in
  ((9 <=? n) && (n <=? 13) || (28 <=? n) && (n <=? 32)
   || (n =? 133) || (n =? 160))%N.

Fixpoint lstrip (s : string) : string :=
  match s with
  | String c s' => if is_space c then lstrip s' else s
  | "" => ""
  end.

Definition rstrip (s : string) : string := String.rev (lstrip (String.rev s)).

Definition strip (s : string) : string := rstrip (lstrip s).

(** [s.rstrip(chars)] for a one-character [chars]. *)
Fixpoint lstrip_char (a : ascii) (s : string) : string :=
  match s with
  | String c s' => if Ascii.eqb c a then lstrip_char a s' else s
  | "" => ""
  end.

Definition rstrip_char (a : ascii) (s : string) : string :=
  String.rev (lstrip_char a (String.rev s)).

(** [s.startswith(p)] and the rest of [s] after the prefix. *)
Fixpoint strip_prefix (p s : string) : option string :=
  match p, s with
  | "", _ => Some s
  | String a p', String b s' => if Ascii.eqb a b then strip_prefix p' s' else None
  | String _ _, "" => None
  end.

Definition startswith (s p : string) : bool := bool_decide (is_Some (strip_prefix p s)).

Definition endswith (s p : string) : bool :=
  startswith (String.rev s) (String.rev p).

(** [text.split(sep)] for a non-empty separator: the pieces between the
    non-overlapping occurrences of [sep], scanned from the left; the result
    is never empty. *)
Fixpoint split (sep s : string) : list string :=
  match s with
  | "" => [""]
  | String c s' =>
      match strip_prefix sep s with
      | Some _ =>
          (* an occurrence starts here: close the piece, skip [sep] *)
          (fix skip (k : nat) (t : string) {struct t} : list string :=
             match k, t with
             | O, _ => "" :: split sep t
             | S k', String _ t' => skip k' t'
             | S _, "" => [""; ""]
             end) (Nat.pred (String.length sep)) s'
      | None =>
          match split sep s' with
          | p :: ps => String c p :: ps
          | [] => [String c ""]
          end
      end
  end.

(** [s.replace(old, new)] for a non-empty [old]: every non-overlapping
    occurrence, scanned from the left. *)
Definition replace (old new s : string) : string :=
  String.concat new (split old s).

(** [str.lower] on the code points below 256. *)
Definition lower_char (c : ascii) : ascii :=
  let n := code c in
  if ((65 <=? n) && (n <=? 90)
      || (192 <=? n) && (n <=? 222) && negb (n =? 215))%N
  then Ascii.ascii_of_N (n + 32) else c.

Fixpoint lower (s : string) : string :=
  match s with
  | "" => ""
  | String c s' => String (lower_char c) (lower s')
  end.

(** Line boundaries of [str.splitlines], for the code points below 256. *)
Definition is_linebreak (c : ascii) : bool :=
  let n := code c in
  ((10 <=? n) && (n <=? 13) || (28 <=? n) && (n <=? 30) || (n =? 133))%N.

(** [s.splitlines()]: a carriage return followed by a line feed is one
    boundary, and a final boundary opens no further line. *)
Fixpoint splitlines (s : string) : list string :=
  match s with
  | "" => []
  | String c s' =>
      if is_linebreak c then
        match s' with
        | String c2 s'' =>
            if Ascii.eqb c CR && Ascii.eqb c2 LF
            then "" :: splitlines s''
            else "" :: splitlines s'
        | "" => [""]
        end
      else
        match splitlines s' with
        | l :: ls => String c l :: ls
        | [] => [String c ""]
        end
  end.

(** [s[:n]] and [s[n:]] for a non-negative [n]. *)
Fixpoint take (n : nat) (s : string) : string :=
  match n, s with
  | S n', String c s' => String c (take n' s')
  | _, _ => ""
  end.

Fixpoint drop (n : nat) (s : string) : string :=
  match n, s with
  | S n', String _ s' => drop n' s'
  | _, _ => s
  end.

(** [s.find(c)]: the index of the first occurrence of a character. *)
Fixpoint find_char (a : ascii) (s : string) : option nat :=
  match s with
  | "" => None
  | String c s' =>
      if Ascii.eqb c a then Some O else S <$> find_char a s'
  end.

(** [s.rfind(c)]: the index of the last occurrence of a character. *)
Fixpoint rfind_char (a : ascii) (s : string) : option nat :=
  match s with
  | "" => None
  | String c s' =>
      match rfind_char a s' with
      | Some i => Some (S i)
      | None => if Ascii.eqb c a then Some O else None
      end
  end.

(** [os.path.join(a, b)] for a relative [b]. *)
Definition path_join (a b : string) : string :=
  if endswith a "/" || negb (truthy a) then a +:+ b else a +:+ "/" +:+ b.

(** The double quote character, which string literals here do not hold. *)
Definition DQ : string := String "034"%char "".

End PyStr.

(* ===================================================================== *)
(** * Python values: review events, summaries and JSON documents *)
(* ===================================================================== *)

#[local] Set Warnings "-register-all".

Inductive pyval : Type :=
| PNone
| PBool (b : bool)
| PInt (z : Z)
| PFloat (lexeme : string)      (* a float, kept as the text it was read from *)
| PStr (s : string)
| PList (l : list pyval)
| PDict (d : list (string * pyval)).

(** A dict with string keys, in insertion order. *)
Abbreviation dict := (list (string * pyval)).

Module Dict.

Fixpoint get (k : string) (d : dict) : option pyval :=
  match d with
  | [] => None
  | (k', v) :: d' => if String.eqb k k' then Some v else get k d'
  end.

(** [d[k] = v]: an existing key keeps its position. *)
Fixpoint set (k : string) (v : pyval) (d : dict) : dict :=
  match d with
  | [] => [(k, v)]
  | (k', v') :: d' =>
      if String.eqb k k' then (k, v) :: d' else (k', v') :: set k v d'
  end.

(** [{**a, **b}] *)
Definition merge (a b : dict) : dict :=
  fold_left (fun acc kv => set kv.1 kv.2 acc) b a.

(** [{k: v, **b}] *)
Definition cons_merge (k : string) (v : pyval) (b : dict) : dict :=
  merge [(k, v)] b.

End Dict.

(** The [type] of a review event. *)
Definition event_type (e : dict) : option pyval := Dict.get "type" e.

Definition has_type (t : string) (e : dict) : bool :=
  match event_type e with
  | Some (PStr s) => String.eqb s t
  | _ => false
  end.


Definition has_file (f : string) (e : dict) : bool :=
  match Dict.get "file" e with
  | Some (PStr s) => String.eqb s f
  | _ => false
  end.

(* ===================================================================== *)
(** * Python lists *)
(* ===================================================================== *)

Module PyList.

Fixpoint batched_go {A} (fuel n : nat) (l : list A) : list (list A) :=
  match fuel, l with
  | O, _ | _, [] => []
  | S fuel', _ => firstn n l :: batched_go fuel' n (skipn n l)
  end.

(** [[seq[i : i + n] for i in range(0, len(seq), n)]] for a positive [n]. *)
Definition batched {A} (l : list A) (n : nat) : list (list A) :=
  batched_go (length l) n l.

Definition len {A} (l : list A) : Z := Z.of_nat (length l).

End PyList.

(* ===================================================================== *)
(** * [hashlib.sha1] and [str.encode("utf-8")] *)
(* ===================================================================== *)

Module Sha1.

Definition mask32 : Z := 2 ^ 32 - 1.
Definition add32 (a b : Z) : Z := Z.land (a + b) mask32.
Definition rotl (n x : Z) : Z :=
  Z.lor (Z.land (Z.shiftl x n) mask32) (Z.shiftr x (32 - n)).
Definition not32 (x : Z) : Z := Z.lxor x mask32.

(** The bytes of a word or of a length, most significant first. *)
Fixpoint be_bytes (n : nat) (x : Z) : list Z :=
  match n with
  | O => []
  | S n' => be_bytes n' (Z.shiftr x 8) ++ [Z.land x 255]
  end.

Definition be_word (bs : list Z) : Z :=
  fold_left (fun acc b => Z.lor (Z.shiftl acc 8) b) bs 0.

(** Message padding: a one bit, zeros up to 56 modulo 64, the bit length. *)
Definition pad (msg : list Z) : list Z :=
  let l := Z.of_nat (length msg) in
  let zeros := Z.to_nat ((55 - l) mod 64) in
  msg ++ [128] ++ repeat 0 zeros ++ be_bytes 8 (8 * l).

(** The message schedule, kept most recent word first. *)
Fixpoint expand (n : nat) (rev_w : list Z) : list Z :=
  match n with
  | O => rev_w
  | S n' =>
      let w i := nth i rev_w 0 in
      expand n'
        (rotl 1 (Z.lxor (Z.lxor (w 2%nat) (w 7%nat))
                        (Z.lxor (w 13%nat) (w 15%nat))) :: rev_w)
  end.

Definition schedule (block : list Z) : list Z :=
  rev (expand 64 (rev (map be_word (PyList.batched block 4)))).

Definition round_fk (i b c d : Z) : Z * Z :=
  if i <? 20 then (Z.lor (Z.land b c) (Z.land (not32 b) d), 1518500249)
  else if i <? 40 then (Z.lxor (Z.lxor b c) d, 1859775393)
  else if i <? 60 then
    (Z.lor (Z.lor (Z.land b c) (Z.land b d)) (Z.land c d), 2400959708)
  else (Z.lxor (Z.lxor b c) d, 3395469782).

Definition regs : Type := Z * Z * Z * Z * Z.

Definition round (st : Z * regs) (w : Z) : Z * regs :=
  let '(i, (a, b, c, d, e)) := st in
  let '(f, k) := round_fk i b c d in
  let t := add32 (add32 (add32 (add32 (rotl 5 a) f) e) k) w in
  (i + 1, (t, a, rotl 30 b, c, d)).

Definition compress (h : regs) (block : list Z) : regs :=
  let '(a0, b0, c0, d0, e0) := h in
  let '(_, (a, b, c, d, e)) := fold_left round (schedule block) (0, h) in
  (add32 a0 a, add32 b0 b, add32 c0 c, add32 d0 d, add32 e0 e).

Definition init : regs :=
  (1732584193, 4023233417, 2562383102, 271733878, 3285377520).

Definition digest (msg : list Z) : list Z :=
  let p := pad msg in
  let '(a, b, c, d, e) :=
    fold_left compress (PyList.batched p 64) init in
  flat_map (be_bytes 4) [a; b; c; d; e].

Definition hex_digit (n : Z) : ascii :=
  Ascii.ascii_of_N (Z.to_N (if n <? 10 then 48 + n else 87 + n)).

Definition hex (bs : list Z) : string :=
  fold_right (fun b s => String (hex_digit (b / 16)) (String (hex_digit (b mod 16)) s))
             "" bs.

(** [s.encode("utf-8")] for code points below 256. *)
Fixpoint utf8 (s : string) : list Z :=
  match s with
  | "" => []
  | String c s' =>
      let n := Z.of_N (PyStr.code c) in
      if n <? 128 then n :: utf8 s'
      else (192 + n / 64) :: (128 + n mod 64) :: utf8 s'
  end.

(** [hashlib.sha1(raw).hexdigest()] *)
Definition hexdigest (raw : list Z) : string := hex (digest raw).

End Sha1.

(* ===================================================================== *)
(** * Python floats: rounding to binary64 *)
(* ===================================================================== *)

Module Float64.

(** The integer nearest to [num / den], ties to the even one, for a positive
    [den] and a [num] that is not negative. *)
Definition round_half_even (num den : Z) : Z :=
  let q := num / den in
  match 2 * (num mod den) ?= den with
  | Lt => q
  | Gt => q + 1
  | Eq => if Z.even q then q else q + 1
  end.

(** [floor (log2 (n / d))] for positive [n] and [d]. *)
Definition exponent (n d : Z) : Z :=
  let e0 := Z.log2 n - Z.log2 d in
  if n * 2 ^ Z.max 0 (- e0) <? d * 2 ^ Z.max 0 e0 then e0 - 1 else e0.

(** The double nearest to [n / d], for positive [n] and [d]: 53 bits for a
    normal number, a multiple of [2 ^ -1074] below [2 ^ -1022]. A quotient
    that rounds beyond the largest double is left as it is and stands for
    the infinity. *)
Definition of_pos (n d : Z) : Q :=
  let p := Z.max (exponent n d) (-1022) - 52 in
  let m := round_half_even (n * 2 ^ Z.max 0 (- p)) (d * 2 ^ Z.max 0 p) in
  if 2 ^ 1024 <=? m * 2 ^ Z.max 0 p then Qmake n (Z.to_pos d)
  else Qmake (m * 2 ^ Z.max 0 p) (Z.to_pos (2 ^ Z.max 0 (- p))).

(** The double nearest to a rational, as the rational it is: what
    [float(s)] gives for a decimal numeral [s], and what [a / b] gives for
    two integers (both are correctly rounded, ties to even). *)
Definition of_Q (x : Q) : Q :=
  match Qnum x with
  | 0 => 0%Q
  | Zpos n => of_pos (Zpos n) (Zpos (Qden x))
  | Zneg n => Qopp (of_pos (Zpos n) (Zpos (Qden x)))
  end.

End Float64.

(* ===================================================================== *)
(** * External collaborators, state and effects *)
(* ===================================================================== *)

(** The result of a call: a value, or a raised exception with its text. *)
Inductive outcome (A : Type) : Type :=
| Ok (a : A)
| Raise (msg : string).
Arguments Ok {A} a.
Arguments Raise {A} msg.

(** The embeddings that the vector store returns are a NumPy array of two
    dimensions, one row for each entry found. *)
Module Numpy.

Record ndarray : Type := Array { rows : list (list Q) }.

(** [len(a)]: the number of rows. *)
Definition len (a : ndarray) : Z := Z.of_nat (length (rows a)).

(** [a.size]: the number of elements. *)
Definition size (a : ndarray) : nat := length (concat (rows a)).

(** [bool(a)], which [a or b] and [if a] evaluate: the truth value of the
    one element of an array of size 1, and an error for any other array
    (for an empty array since NumPy 2.2; before, false with a warning). *)
Definition truth (a : ndarray) : outcome bool :=
  match concat (rows a) with
  | [] =>
      Raise "The truth value of an empty array is ambiguous. Use `array.size > 0` to check that an array is not empty."
  | [x] => Ok (negb (Qeq_bool x 0))
  | _ :: _ :: _ =>
      Raise "The truth value of an array with more than one element is ambiguous. Use a.any() or a.all()"
  end.

End Numpy.

(** The message a chat completion returns; [content] is the attribute read by
    [getattr(msg, "content", default)]. *)
Record message : Type := { content : option string; shown : string }.

(** What the program reaches outside of itself. *)
Class Env : Type := {
  (** the file system, the git remotes and the processes *)
  World : Type;
  (** [subprocess.run(cmd, shell=True, cwd=cwd, capture_output=True, text=True)]:
      exit code, standard output, standard error *)
  shell : string -> string -> World -> (Z * string * string) * World;
  (** [subprocess.run(argv)]: the exit code *)
  exec : list string -> World -> Z * World;
  (** [os.path.exists] *)
  path_exists : string -> World -> bool;
  (** [os.walk] with a read of every file met: name and content, the
      content missing when the read fails *)
  walk_files : string -> World -> list (string * option string);
  (** [Repo.clone_from] and [Repo(path).remotes.origin.pull] of GitPython *)
  git_clone_from : string -> string -> World -> outcome unit * World;
  git_pull : string -> World -> outcome unit * World;
  (** the directory above [app/] *)
  BASE_DIR : string;
  (** the sentence embedding model: a text to a vector *)
  model_encode : string -> list Q;
  (** the nearest-neighbour query of the vector store over the entries of a
      collection: the documents found with their metadata, or a failure *)
  store_query : list (string * (list Q * string * dict)) -> list Q -> Z ->
                outcome (list (string * dict));
  (** whether the vector store accepts a name for a collection (its rule on
      length and characters differs between its versions) *)
  collection_name_ok : string -> bool;
  (** the environment variables read at start-up; the threshold is the
      number that the variable spells, in decimal *)
  GROQ_API_KEY : option string;
  CHROMA_RESET_THRESHOLD : option Q;
  (** the chat completion service *)
  llm_invoke : list (string * string) -> World -> outcome message * World;
  (** [json.dumps(v, indent=2)] and [json.loads] *)
  json_dumps : pyval -> string;
  json_loads : string -> option pyval
}.

(** An entry of a collection of the vector store. *)
Record entry : Type := {
  e_embedding : list Q;
  e_document : string;
  e_metadata : dict
}.

(** The calls made on the vector store, as they reach it. *)
Inductive store_op : Type :=
| OpGetCollection (name : string)
| OpCreateCollection (name : string)
| OpDeleteCollection (name : string)
| OpGet (name : string) (ids : list string)
| OpUpsert (name : string) (id : string)
| OpQuery (name : string).

#[global] Instance store_op_eq_dec : EqDecision store_op.
Proof. solve_decision. Defined.

Section Effects.
Context `{E : Env}.

(** The state a request runs in. [generations] counts, for each name, the
    collections created under it: a collection that is dropped and created
    again is another collection. [read_faults] lists, for the reads of the
    store still to come, whether each one raises; past its end no read
    raises. The two logs record the calls on the store and on the chat
    completion service. *)
Record State : Type := {
  world : World;
  chroma : gmap string (gmap string entry);
  generations : gmap string nat;
  read_faults : list bool;
  store_log : list store_op;
  llm_log : list (list (string * string))
}.

Definition with_world (w : World) (st : State) : State :=
  {| world := w; chroma := chroma st; generations := generations st;
     read_faults := read_faults st;
     store_log := store_log st; llm_log := llm_log st |}.

Definition with_chroma (c : gmap string (gmap string entry)) (st : State) : State :=
  {| world := world st; chroma := c; generations := generations st;
     read_faults := read_faults st;
     store_log := store_log st; llm_log := llm_log st |}.

Definition with_generations (g : gmap string nat) (st : State) : State :=
  {| world := world st; chroma := chroma st; generations := g;
     read_faults := read_faults st;
     store_log := store_log st; llm_log := llm_log st |}.

Definition with_faults (f : list bool) (st : State) : State :=
  {| world := world st; chroma := chroma st; generations := generations st;
     read_faults := f;
     store_log := store_log st; llm_log := llm_log st |}.

Definition log_store (op : store_op) (st : State) : State :=
  {| world := world st; chroma := chroma st; generations := generations st;
     read_faults := read_faults st;
     store_log := store_log st ++ [op]; llm_log := llm_log st |}.

Definition log_llm (msgs : list (string * string)) (st : State) : State :=
  {| world := world st; chroma := chroma st; generations := generations st;
     read_faults := read_faults st;
     store_log := store_log st; llm_log := llm_log st ++ [msgs] |}.

(** ** Computations that may raise *)

Definition M (A : Type) : Type := State -> outcome A * State.

Definition ret {A} (a : A) : M A := fun st => (Ok a, st).
Definition raise {A} (msg : string) : M A := fun st => (Raise msg, st).
Definition bind {A B} (m : M A) (k : A -> M B) : M B :=
  fun st =>
    match m st with
    | (Ok a, st') => k a st'
    | (Raise e, st') => (Raise e, st')
    end.

(** [try: m  except Exception as e: h(e)] *)
Definition try_except {A} (m : M A) (h : string -> M A) : M A :=
  fun st =>
    match m st with
    | (Ok a, st') => (Ok a, st')
    | (Raise e, st') => h e st'
    end.

(** ** Generators: the events yielded so far, then a result or an exception *)

Definition G (A : Type) : Type := State -> (list dict * outcome A) * State.

Definition gret {A} (a : A) : G A := fun st => (([], Ok a), st).
Definition yield (e : dict) : G unit := fun st => (([e], Ok tt), st).
Definition gbind {A B} (m : G A) (k : A -> G B) : G B :=
  fun st =>
    match m st with
    | ((es, Ok a), st') =>
        match k a st' with
        | ((es', r), st'') => ((es ++ es', r), st'')
        end
    | ((es, Raise e), st') => ((es, Raise e), st')
    end.

(** A computation run inside a generator. *)
Definition lift {A} (m : M A) : G A :=
  fun st => match m st with (r, st') => (([], r), st') end.

(** [try: g  except Exception as e: h(e)] inside a generator. *)
Definition gtry_except {A} (g : G A) (h : string -> G A) : G A :=
  fun st =>
    match g st with
    | ((es, Ok a), st') => ((es, Ok a), st')
    | ((es, Raise e), st') =>
        match h e st' with
        | ((es', r), st'') => ((es ++ es', r), st'')
        end
    end.

(** [list(g)]: the events, unless the generator raised. *)
Definition collect {A} (g : G A) : M (list dict) :=
  fun st =>
    match g st with
    | ((es, Ok _), st') => (Ok es, st')
    | ((_, Raise e), st') => (Raise e, st')
    end.

(** ** The primitive calls *)

Definition run_shell (cmd cwd : string) : M (Z * string * string) :=
  fun st =>
    match shell cmd cwd (world st) with
    | (r, w') => (Ok r, with_world w' st)
    end.

Definition run_exec (argv : list string) : M Z :=
  fun st =>
    match exec argv (world st) with
    | (r, w') => (Ok r, with_world w' st)
    end.

Definition os_path_exists (p : string) : M bool :=
  fun st => (Ok (path_exists p (world st)), st).

Definition os_walk (p : string) : M (list (string * option string)) :=
  fun st => (Ok (walk_files p (world st)), st).

Definition repo_clone_from (url path : string) : M unit :=
  fun st =>
    match git_clone_from url path (world st) with
    | (r, w') => (r, with_world w' st)
    end.

Definition repo_pull (path : string) : M unit :=
  fun st =>
    match git_pull path (world st) with
    | (r, w') => (r, with_world w' st)
    end.

Definition chat_invoke (msgs : list (string * string)) : M message :=
  fun st =>
    match llm_invoke msgs (world st) with
    | (r, w') => (r, with_world w' (log_llm msgs st))
    end.

End Effects.

Declare Scope eff_scope.
Delimit Scope eff_scope with eff.
Notation "x <- m ;; k" := (bind m (fun x => k))
  (at level 100, m at next level, right associativity) : eff_scope.
Notation "m ;;; k" := (bind m (fun _ => k))
  (at level 100, right associativity) : eff_scope.
Notation "x <~ m ;; k" := (gbind m (fun x => k))
  (at level 100, m at next level, right associativity) : eff_scope.
Notation "m ~~> k" := (gbind m (fun _ => k))
  (at level 100, right associativity) : eff_scope.

Section EffectCombinators.
Context `{E : Env}.
Local Open Scope eff_scope.

(** The outcome of a computation as a value: [attempt m] never raises. *)
Definition attempt {A} (m : M A) : M (outcome A) :=
  fun st => match m st with (r, st') => (Ok r, st') end.

(** A [for] loop threading an accumulator. *)
Fixpoint mfold {A B} (f : B -> A -> M B) (l : list A) (acc : B) : M B :=
  match l with
  | [] => ret acc
  | x :: l' => acc' <- f acc x ;; mfold f l' acc'
  end.

(** A [for] loop inside a generator. *)
Fixpoint gfor {A} (l : list A) (body : A -> G unit) : G unit :=
  match l with
  | [] => gret tt
  | x :: l' => body x ~~> gfor l' body
  end.

End EffectCombinators.

(* ===================================================================== *)
(** * [app/ingest.py] and [app/indexer.py] *)
(* ===================================================================== *)

Module Indexer.
Section Indexer.
Context `{E : Env}.
Import PyStr.
Local Open Scope eff_scope.

Definition CHROMA_DIR : string := path_join BASE_DIR "chroma_db".
Definition REPOS_DIR : string := path_join BASE_DIR "repos".

Definition EMB_DIM : Z := PyList.len (model_encode "test").

(** [float(os.getenv("CHROMA_RESET_THRESHOLD", "0.6"))] *)
Definition RESET_THRESHOLD : Q :=
  Float64.of_Q (default (6 # 10)%Q CHROMA_RESET_THRESHOLD).

(** ** Repo management *)

Definition repo_name (repo_url : string) : string :=
  replace ".git" "" (List.last (split "/" (rstrip_char "/" repo_url)) "").

(** Clone the repository, or pull when the clone is there; the creation of
    the base directory is left out. *)
Definition get_repo_path (repo_url : string) : M string :=
  let repo_path := path_join REPOS_DIR (repo_name repo_url) in
  present <- os_path_exists repo_path ;;
  if negb present then
    code <- run_exec ["git"; "clone"; repo_url; repo_path] ;;
    if code =? 0 then ret repo_path
    else raise "CalledProcessError: git clone"
  else
    (* a failed pull only warns *)
    _ <- run_exec ["git"; "-C"; repo_path; "pull"] ;;
    ret repo_path.

(** ** [ingest.find_docs] *)

Definition candidates : list string :=
  ["contributing.md"; "contributing.rst"; "readme.md"; "readme"].

Fixpoint docs_set (k v : string) (d : list (string * string)) : list (string * string) :=
  match d with
  | [] => [(k, v)]
  | (k', v') :: d' =>
      if String.eqb k k' then (k, v) :: d' else (k', v') :: docs_set k v d'
  end.

Definition find_docs (repo_path : string) : M (list (string * string)) :=
  files <- os_walk repo_path ;;
  ret (fold_left
         (fun found '(f, read) =>
            if bool_decide (lower f ∈ candidates) then
              match read with
              | Some text => docs_set (lower f) text found
              | None => found
              end
            else found)
         files []).

(** ** Helpers *)

Definition chunk_step (max_chars : Z) (st : list string * string) (p : string)
  : list string * string :=
  let '(chunks, cur) := st in
  if len cur + len p >? max_chars then
    ((if truthy (strip cur) then chunks ++ [strip cur] else chunks), p)
  else
    (chunks, cur +:+ (if truthy cur then NL +:+ NL else "") +:+ p).

Definition chunk_text (text : string) (max_chars : Z) : list string :=
  let paragraphs := split (NL +:+ NL) text in
  let '(chunks, cur) := fold_left (chunk_step max_chars) paragraphs ([], "") in
  if truthy (strip cur) then chunks ++ [strip cur] else chunks.

Definition chunk_raw (repo_url file_path chunk_text_ : string) : string :=
  repo_url +:+ "|" +:+ file_path +:+ "|" +:+ chunk_text_.

Definition make_chunk_id (repo_url file_path chunk_text_ : string) : string :=
  Sha1.hexdigest (Sha1.utf8 (chunk_raw repo_url file_path chunk_text_)).

Definition _collection_name (repo_url : string) : string :=
  replace "/" "_" (replace "http://" "" (replace "https://" "" repo_url)).

(** ** The vector store client *)

(** [index_repo] uses a collection right after it has opened it, so that
    its calls are given the name. [retrieve_docs] keeps a collection across
    a call of [index_repo], which may drop it and create it again: there a
    handle is the name with the generation that was current when the
    collection was opened. *)

Definition generation_of (name : string) (st : State) : nat :=
  default 0%nat (generations st !! name).

Definition client_get_collection (name : string) : M string :=
  fun st =>
    let st := log_store (OpGetCollection name) st in
    match chroma st !! name with
    | Some _ => (Ok name, st)
    | None => (Raise "collection does not exist", st)
    end.

Definition client_create_collection (name : string) : M string :=
  fun st =>
    let st := log_store (OpCreateCollection name) st in
    if negb (collection_name_ok name) then
      (Raise "the store refuses the collection name", st)
    else
      match chroma st !! name with
      | Some _ => (Raise "collection already exists", st)
      | None =>
          (Ok name,
           with_generations (<[name := S (generation_of name st)]> (generations st))
             (with_chroma (<[name := ∅]> (chroma st)) st))
      end.

Definition client_delete_collection (name : string) : M unit :=
  fun st =>
    let st := log_store (OpDeleteCollection name) st in
    match chroma st !! name with
    | Some _ => (Ok tt, with_chroma (delete name (chroma st)) st)
    | None => (Raise "collection does not exist", st)
    end.

(** Whether the read that starts now raises, and the faults left. *)
Definition next_fault (faults : list bool) : bool * list bool :=
  match faults with
  | [] => (false, [])
  | b :: faults' => (b, faults')
  end.

(** [col.get(ids=ids, include=["embeddings"])]: the identifiers found and
    the array of their embeddings. *)
Definition col_get (col : string) (ids : list string)
  : M (list string * Numpy.ndarray) :=
  fun st =>
    let st := log_store (OpGet col ids) st in
    let '(fault, faults') := next_fault (read_faults st) in
    let st := with_faults faults' st in
    if fault then (Raise "the store could not be read", st)
    else
      match chroma st !! col with
      | None => (Raise "collection does not exist", st)
      | Some c =>
          let found := omap (fun i => (fun e => (i, e_embedding e)) <$> c !! i) ids in
          (Ok (found.*1, Numpy.Array found.*2), st)
      end.

(** Whether every embedding of a collection has the dimension [d]. A
    collection has one dimension, that of the first embedding written to
    it. *)
Definition has_dimension (d : Z) (c : gmap string entry) : bool :=
  forallb (fun ie => PyList.len (e_embedding ie.2) =? d) (map_to_list c).

(** [col.upsert(...)] of one entry: refused when the collection holds
    embeddings of another dimension. *)
Definition col_upsert (col id document : string) (metadata : dict) (embedding : list Q)
  : M unit :=
  fun st =>
    let st := log_store (OpUpsert col id) st in
    match chroma st !! col with
    | None => (Raise "collection does not exist", st)
    | Some c =>
        if has_dimension (PyList.len embedding) c then
          let e := {| e_embedding := embedding; e_document := document;
                      e_metadata := metadata |} in
          (Ok tt, with_chroma (<[col := <[id := e]> c]> (chroma st)) st)
        else
          (Raise "Embedding dimension does not match collection dimensionality", st)
    end.

Definition col_count (col : string) : M Z :=
  fun st =>
    match chroma st !! col with
    | None => (Raise "collection does not exist", st)
    | Some c => (Ok (Z.of_nat (size c)), st)
    end.

(** The handle of the collection that was just opened under [name]. *)
Definition handle_of (name : string) : M (string * nat) :=
  fun st => (Ok (name, generation_of name st), st).

(** [col.query(...)] on a handle: the collection it was opened on must
    still be there. *)
Definition col_query (col : string * nat) (query_emb : list Q) (n_results : Z)
  : M (list (string * dict)) :=
  fun st =>
    let st := log_store (OpQuery col.1) st in
    match chroma st !! col.1 with
    | None => (Raise "collection does not exist", st)
    | Some c =>
        if (generation_of col.1 st =? col.2)%nat then
          (store_query
             ((fun '(i, e) => (i, (e_embedding e, e_document e, e_metadata e)))
                <$> map_to_list c)
             query_emb n_results, st)
        else (Raise "collection does not exist", st)
    end.

Definition _get_or_create_collection (name : string) : M string :=
  try_except (client_get_collection name)
             (fun _ => client_create_collection name).

Definition _reset_collection (collection_name : string) : M unit :=
  try_except (client_delete_collection collection_name)
             (fun _ => ret tt).

(** [_batched(seq, n)]: the slices of [n] elements, in order. *)
Definition _batched {A} (seq : list A) (n : nat) : list (list A) :=
  PyList.batched seq n.

(** ** Indexing with auto-reset *)

(** The worklist: file name, chunk, chunk identifier. *)
Definition build_worklist (repo_url : string) (docs : list (string * string))
  : list (string * string * string) :=
  flat_map (fun '(fname, text) =>
              (fun chunk => (fname, chunk, make_chunk_id repo_url fname chunk))
                <$> chunk_text text 1000)
           docs.

(** [{i: e for i, e in zip(ids, embs)} if ids and len(embs) > 0 else {}] *)
Definition by_id_of (existing : list string * Numpy.ndarray) : gmap string (list Q) :=
  let '(ids, embs) := existing in
  match ids with
  | [] => ∅
  | _ :: _ =>
      if 0 <? Numpy.len embs
      then fold_left (fun m '(i, e) => <[i := e]> m) (zip ids (Numpy.rows embs)) ∅
      else ∅
  end.

(** [emb is None or len(emb) != EMB_DIM] *)
Definition is_broken (emb : option (list Q)) : bool :=
  match emb with
  | None => true
  | Some e => negb (PyList.len e =? EMB_DIM)
  end.

Definition assess_batch (by_id : gmap string (list Q)) (batch : list string)
           (counts : Z * Z) : Z * Z :=
  fold_left (fun '(broken, ok) cid =>
               if is_broken (by_id !! cid) then (broken + 1, ok)
               else (broken, ok + 1))
            batch counts.

(** Pass 1: assess the existing embeddings batch by batch. A read that
    raises resets the collection, counts every identifier as broken and
    leaves the loop. *)
Fixpoint assess (collection_name : string) (existing_ids : list string)
         (batches : list (list string)) (col : string) (counts : Z * Z)
  : M (string * (Z * Z)) :=
  match batches with
  | [] => ret (col, counts)
  | batch :: batches' =>
      r <- attempt (col_get col batch) ;;
      match r with
      | Raise _ =>
          _reset_collection collection_name ;;;
          col' <- _get_or_create_collection collection_name ;;
          ret (col', (PyList.len existing_ids, 0))
      | Ok existing =>
          assess collection_name existing_ids batches' col
                 (assess_batch (by_id_of existing) batch counts)
      end
  end.

(** [broken / total_seen if total_seen else 0.0]: the quotient of two
    integers, rounded to a double. *)
Definition broken_ratio (broken ok : Z) : Q :=
  let total_seen := broken + ok in
  if total_seen =? 0 then 0%Q
  else Float64.of_Q (inject_Z broken / inject_Z total_seen)%Q.

(** [total_seen > 0 and broken_ratio >= RESET_THRESHOLD] *)
Definition must_reset (broken ok : Z) : bool :=
  (0 <? broken + ok) && Qle_bool RESET_THRESHOLD (broken_ratio broken ok).

(** If most are broken, drop and recreate the collection. *)
Definition reset_if_broken (collection_name col : string) (broken ok : Z) : M string :=
  if must_reset broken ok then
    _reset_collection collection_name ;;;
    _get_or_create_collection collection_name
  else ret col.

(** [(existing.get("embeddings") or [None])[0]] with what follows it in the
    [try]: the truth value of the array is asked for first, and an array of
    more than one element has none. The outcome is whether the entry is
    left as it is, and the two counters. *)
Definition check_existing (embs : Numpy.ndarray) (skipped repaired : Z)
  : outcome (bool * Z * Z) :=
  match Numpy.truth embs with
  | Raise e => Raise e
  | Ok false =>
      (* [[None][0]] *)
      Ok (true, skipped, repaired + 1)
  | Ok true =>
      match head (Numpy.rows embs) with
      | Some emb0 =>
          if PyList.len emb0 =? EMB_DIM
          then Ok (false, skipped + 1, repaired)
          else Ok (true, skipped, repaired + 1)
      | None => Raise "IndexError: index 0 is out of bounds"
      end
  end.

(** Pass 2, one entry of the worklist; the counters are
    [(added, skipped, repaired)]. Whatever is raised inside the [try] is
    swallowed and leaves [needs_update] as it started, true. *)
Definition upsert_if_needed (repo_url col : string) (counters : Z * Z * Z)
           (item : string * string * string) : M (Z * Z * Z) :=
  let '(added, skipped, repaired) := counters in
  let '(fname, chunk, cid) := item in
  r <- attempt (col_get col [cid]) ;;
  let '(needs_update, skipped, repaired) :=
    match r with
    | Ok (_ :: _, embs) =>
        match check_existing embs skipped repaired with
        | Ok checked => checked
        | Raise _ => (true, skipped, repaired)
        end
    | Ok ([], _) => (true, skipped, repaired)
    | Raise _ => (true, skipped, repaired)
    end in
  if needs_update then
    let emb := model_encode chunk in
    let metadata := [("repo", PStr repo_url); ("path", PStr (lower fname))] in
    col_upsert col cid chunk metadata emb ;;;
    ret (added + 1, skipped, repaired)
  else ret (added, skipped, repaired).

Definition upsert_pass (repo_url col : string)
           (worklist : list (string * string * string)) : M (Z * Z * Z) :=
  mfold (upsert_if_needed repo_url col) worklist (0, 0, 0).

(** [index_repo] from the documents on: both passes and the reset between. *)
Definition index_docs (repo_url : string) (docs : list (string * string)) : M bool :=
  let collection_name := _collection_name repo_url in
  let worklist := build_worklist repo_url docs in
  col <- _get_or_create_collection collection_name ;;
  let existing_ids := (fun item => item.2) <$> worklist in
  assessed <-
     assess collection_name existing_ids (_batched existing_ids 256) col (0, 0) ;;
  let '(col, (broken, ok)) := assessed in
  col <- reset_if_broken collection_name col broken ok ;;
  _ <- upsert_pass repo_url col worklist ;;
  _ <- attempt (col_count col) ;;
  ret true.

Definition index_repo (repo_url : string) : M bool :=
  repo_path <- get_repo_path repo_url ;;
  docs <- find_docs repo_path ;;
  match docs with
  | [] => ret false
  | _ :: _ => index_docs repo_url docs
  end.

(** ** Retrieval *)

Definition retrieve_docs (repo_url query : string) (top_k : Z) : M (list dict) :=
  let collection_name := _collection_name repo_url in
  let result_of (found : list (string * dict)) : list dict :=
    (fun '(doc, meta) => [("text", PStr doc); ("metadata", PDict meta)]) <$> found in
  opened <- attempt (col <- client_get_collection collection_name ;; handle_of col) ;;
  ready <-
    match opened with
    | Ok col => ret (Some col)
    | Raise _ =>
        col <- (col <- client_create_collection collection_name ;; handle_of col) ;;
        indexed <- index_repo repo_url ;;
        ret (if indexed then Some col else None)
    end ;;
  match ready with
  | None => ret []
  | Some col =>
      let query_emb := model_encode query in
      first <- attempt (col_query col query_emb top_k) ;;
      match first with
      | Ok found => ret (result_of found)
      | Raise _ =>
          (* one-time recovery: reset and reindex, then retry once *)
          _reset_collection collection_name ;;;
          col <- (col <- client_create_collection collection_name ;; handle_of col) ;;
          indexed <- index_repo repo_url ;;
          if indexed then
            second <- attempt (col_query col query_emb top_k) ;;
            match second with
            | Ok found => ret (result_of found)
            | Raise _ => ret []
            end
          else ret []
      end
  end.

End Indexer.
End Indexer.

(* ===================================================================== *)
(** * [app/review.py] *)
(* ===================================================================== *)

Module Review.
Section Review.
Context `{E : Env}.
Import PyStr.
Local Open Scope eff_scope.

(** Run a shell command and return (code, stdout, stderr). *)
Definition run_command (cmd cwd : string) : M (Z * string * string) :=
  run_shell cmd cwd.

(** Ensure the repo is cloned locally; pull when it already is. *)
Definition get_repo_path (repo_url : string) : M string :=
  let base_dir := path_join BASE_DIR "repos" in
  let repo_name :=
    replace ".git" "" (List.last (split "/" (rstrip_char "/" repo_url)) "") in
  let repo_path := path_join base_dir repo_name in
  present <- os_path_exists repo_path ;;
  if negb present then
    repo_clone_from repo_url repo_path ;;;
    ret repo_path
  else
    _ <- attempt (repo_pull repo_path) ;;
    ret repo_path.

Definition diff_command (staged : bool) : string :=
  if staged then "git diff --cached" else "git diff HEAD".

(** The diff text: working directory against HEAD, or the staged changes. *)
Definition get_git_diff (repo_path : string) (staged : bool) : M string :=
  r <- run_command (diff_command staged) repo_path ;;
  let '(code, out, err) := r in
  if negb (code =? 0) then raise ("Failed to get git diff: " +:+ err)
  else ret (strip out).

(** Run flake8 on only the changed Python files. *)
Definition run_flake8_on_files (repo_dir : string) (files : list string) : G unit :=
  gfor files (fun f =>
    if endswith f ".py" then
      r <~ lift (run_command ("flake8 " +:+ f) repo_dir) ;;
      let '(code, out, _) := r in
      yield [("type", PStr "lint"); ("file", PStr f);
             ("output", PStr (strip out)); ("returncode", PInt code)]
    else gret tt).

(** Run pylint (basic bug detection and style). *)
Definition run_bug_checks (repo_dir : string) (files : list string) : G unit :=
  gfor files (fun f =>
    if endswith f ".py" then
      r <~ lift (run_command ("pylint --disable=R,C " +:+ f) repo_dir) ;;
      let '(code, out, _) := r in
      yield [("type", PStr "bugcheck"); ("file", PStr f);
             ("output", PStr (strip out)); ("returncode", PInt code)]
    else gret tt).

(** Run autopep8 to fix style issues in place. *)
Definition auto_fix_files (repo_dir : string) (files : list string) : G unit :=
  gfor files (fun f =>
    if endswith f ".py" then
      r <~ lift (run_command ("autopep8 --in-place --aggressive --aggressive " +:+ f)
                             repo_dir) ;;
      let '(code, out, err) := r in
      if code =? 0 then
        yield [("type", PStr "autofix"); ("file", PStr f);
               ("fixed", PBool true); ("output", PStr (strip out))]
      else
        yield [("type", PStr "autofix"); ("file", PStr f);
               ("fixed", PBool false); ("output", PStr (strip err));
               ("returncode", PInt code)]
    else gret tt).

(** [for x in g: yield {"stage": stage, **x}] *)
Definition staged_as (stage : string) (g : G unit) : G unit :=
  fun st =>
    match g st with
    | ((es, r), st') => ((Dict.cons_merge "stage" (PStr stage) <$> es, r), st')
    end.

(** [[line.strip() for line in out.splitlines() if line.strip()]] *)
Definition changed_files_of (out : string) : list string :=
  strip <$> filter (fun line => truthy (strip line)) (splitlines out).

Definition info_event (message : string) : dict :=
  [("type", PStr "info"); ("message", PStr message)].

(** The checks of [stream_review] once the changed files are known: lint
    and bug checks, and with [auto_fix] the fixes, the checks again and the
    diff after the fixes. *)
Definition review_checks (repo_dir : string) (staged auto_fix : bool)
           (changed_files : list string) : G unit :=
  staged_as "before_fix" (run_flake8_on_files repo_dir changed_files) ~~>
  staged_as "before_fix" (run_bug_checks repo_dir changed_files) ~~>
  (if auto_fix then
     yield (info_event "Applying automatic fixes...") ~~>
     auto_fix_files repo_dir changed_files ~~>
     yield (info_event "Re-running checks after fixes...") ~~>
     staged_as "after_fix" (run_flake8_on_files repo_dir changed_files) ~~>
     staged_as "after_fix" (run_bug_checks repo_dir changed_files) ~~>
     gtry_except
       (post_diff <~ lift (get_git_diff repo_dir staged) ;;
        if truthy post_diff then
          yield [("type", PStr "post_fix_diff"); ("diff", PStr post_diff)]
        else gret tt)
       (fun e =>
          yield [("type", PStr "warning");
                 ("message", PStr ("Could not get post-fix diff: " +:+ e))])
   else gret tt).

Definition original_diff_event (diff_text : string) : dict :=
  [("type", PStr "original_diff"); ("diff", PStr diff_text)].

Definition changed_files_event (changed_files : list string) : dict :=
  [("type", PStr "changed_files"); ("files", PList (PStr <$> changed_files))].

(** The review stream: the diff, the changed files, then the checks. *)
Definition stream_review (repo_url : string) (staged auto_fix : bool) : G unit :=
  repo_dir <~ lift (get_repo_path repo_url) ;;
  diff_text <~ lift (get_git_diff repo_dir staged) ;;
  if negb (truthy diff_text) then
    yield (info_event "No changes found to review.")
  else
    yield (original_diff_event diff_text) ~~>
    r <~ lift (run_command "git diff --name-only HEAD" repo_dir) ;;
    let '(_, out, _) := r in
    let changed_files := changed_files_of out in
    yield (changed_files_event changed_files) ~~>
    review_checks repo_dir staged auto_fix changed_files.

End Review.
End Review.

(* ===================================================================== *)
(** * [app/agent.py]: the chat completion calls and the review summarizer *)
(* ===================================================================== *)

Module Agent.
Section Agent.
Context `{E : Env}.
Import PyStr.
Local Open Scope eff_scope.

(** [get_llm]: the client, which needs the credential. *)
Definition get_llm : M unit :=
  match GROQ_API_KEY with
  | Some key => if truthy key then ret tt else raise "Missing GROQ_API_KEY in .env"
  | None => raise "Missing GROQ_API_KEY in .env"
  end.

Definition call_llm (prompt : string) : M string :=
  get_llm ;;;
  try_except
    (msg <- chat_invoke
              [("system", "You are an expert software assistant. Answer only from the given context.");
               ("user", prompt)] ;;
     ret (default (shown msg) (content msg)))
    (fun e => ret ("ERROR: " +:+ e)).

Definition REVIEW_SUMMARY_SYSTEM : string :=
  "You are a senior code reviewer. You will receive raw tool output: "
  +:+ "git diff chunks, list of changed files, flake8 and pylint results, and (optionally) autofix outcomes. "
  +:+ "Produce a STRICT JSON object with keys:" +:+ NL
  +:+ " - summary: short natural-language summary" +:+ NL
  +:+ " - issues: array of objects {type: 'lint'|'bug'|'style'|'security'|'other', file, details, line_hint?}" +:+ NL
  +:+ " - suggested_fixes: array of strings with concrete actions" +:+ NL
  +:+ " - green_signal: boolean (true if safe to merge with no major issues)" +:+ NL
  +:+ " - confidence: one of 'low'|'medium'|'high'" +:+ NL
  +:+ "If no issues are found, issues should be an empty array and green_signal true." +:+ NL
  +:+ "Do NOT include any backticks or commentary outside the JSON.".

Definition REVIEW_SUMMARY_USER_TEMPLATE (events_json : string) : string :=
  "Raw review events (JSON list): " +:+ events_json.

(** [re.search(r'\{.*\}', content, re.S)] and its [group(0)]: with the dot
    matching every character and the star greedy, the match runs from the
    first opening brace to the last closing brace after it. *)
Definition re_search_braces (s : string) : option string :=
  match find_char "{"%char s with
  | None => None
  | Some i =>
      let rest := drop i s in
      match rfind_char "}"%char rest with
      | None => None
      | Some j => Some (take (S j) rest)
      end
  end.

(** The summary returned when the response does not parse. *)
Definition parse_failure_summary (content : string) : pyval :=
  PDict [("summary", PStr "LLM summarization failed to parse. Returning raw content.");
         ("issues", PList []);
         ("suggested_fixes", PList []);
         ("green_signal", PBool false);
         ("confidence", PStr "low");
         ("raw", PStr content)].

(** The body of the [try] of the summarizer with its [except]. *)
Definition extract_summary (content : string) : pyval :=
  match re_search_braces content with
  | Some group0 =>
      match json_loads group0 with
      | Some v => v
      | None => parse_failure_summary content
      end
  | None =>
      match json_loads content with
      | Some v => v
      | None => parse_failure_summary content
      end
  end.

(** The two messages sent for a summary. *)
Definition summary_messages (events : list dict) : list (string * string) :=
  let events_json := json_dumps (PList (PDict <$> events)) in
  [("system", REVIEW_SUMMARY_SYSTEM);
   ("user", REVIEW_SUMMARY_USER_TEMPLATE events_json)].

(** Ask the LLM for a single structured summary of the review events. *)
Definition summarize_review_events_with_llm (events : list dict) : M pyval :=
  get_llm ;;;
  msg <- chat_invoke (summary_messages events) ;;
  let content := default "{}" (content msg) in
  ret (extract_summary content).

End Agent.
End Agent.

(* ===================================================================== *)
(** * [app/qna.py] and the QnA endpoint of [app/main.py] *)
(* ===================================================================== *)

Module Qna.
Section Qna.
Context `{E : Env}.
Import PyStr.
Local Open Scope eff_scope.

(** Fetch relevant context for answering queries. *)
Definition prepare_qna_inputs (repo_url query : string) : M dict :=
  _ <- Indexer.get_repo_path repo_url ;;
  ok <- Indexer.index_repo repo_url ;;
  if negb ok then
    ret [("query", PStr query); ("context", PList [])]
  else
    chunks <- Indexer.retrieve_docs repo_url query 5 ;;
    ret [("query", PStr query); ("context", PList (PDict <$> chunks))].

End Qna.
End Qna.

Module Main.
Section Main.
Context `{E : Env}.
Import PyStr.
Local Open Scope eff_scope.

Record QnaRequest : Type := { repo_url : string; query : string; top_k : Z }.

(** What the endpoint answers: the response model, or an HTTP error. *)
Inductive qna_result : Type :=
| QnaResponse (answer : string) (top_chunks : list pyval)
| HTTPException (status_code : Z) (detail : string).

(** [f"CHUNK {i+1}:\n{c['text']}"] for each chunk. *)
Fixpoint chunk_texts (i : Z) (top_chunks : list pyval) : M (list string) :=
  match top_chunks with
  | [] => ret []
  | c :: cs =>
      match c with
      | PDict d =>
          match Dict.get "text" d with
          | Some (PStr t) =>
              rest <- chunk_texts (i + 1) cs ;;
              ret (("CHUNK " +:+ pretty (i + 1) +:+ ":" +:+ NL +:+ t) :: rest)
          | _ => raise "KeyError: 'text'"
          end
      | _ => raise "TypeError"
      end
  end.

Definition qna_prompt (query context_text : string) : string :=
  let ind := "        " in
  NL +:+ ind +:+ "You are an expert software assistant. I will provide you with README-like content," +:+ NL
  +:+ ind +:+ "and you need to answer a question about it." +:+ NL +:+ NL
  +:+ ind +:+ "Question: " +:+ query +:+ NL +:+ NL
  +:+ ind +:+ "Here is the content:" +:+ NL
  +:+ ind +:+ context_text +:+ NL +:+ NL
  +:+ ind +:+ "Based strictly on the content above, answer clearly." +:+ NL
  +:+ ind +:+ "If you cannot find the answer, say:" +:+ NL
  +:+ ind +:+ DQ +:+ "I cannot find the relevant information in the README content." +:+ DQ +:+ NL +:+ NL
  +:+ ind +:+ "Answer:" +:+ NL
  +:+ ind.

(** [POST /qna] *)
Definition qna (req : QnaRequest) : M qna_result :=
  try_except
    (_ <- Indexer.get_repo_path (repo_url req) ;;
     prepared <- Qna.prepare_qna_inputs (repo_url req) (query req) ;;
     let context :=
       match Dict.get "context" prepared with
       | Some (PList l) => l
       | _ => []
       end in
     let top_chunks := firstn (Z.to_nat (top_k req)) context in
     texts <- chunk_texts 0 top_chunks ;;
     let context_text :=
       String.concat (NL +:+ NL +:+ "---" +:+ NL +:+ NL) texts in
     answer <- Agent.call_llm (qna_prompt (query req) context_text) ;;
     ret (QnaResponse answer top_chunks))
    (fun e => ret (HTTPException 500 e)).

(** What [POST /reset] answers. *)
Inductive reset_result : Type :=
| ResetStatus (status : string)
| ResetError (status_code : Z) (detail : string).

(** [POST /reset]: drop the collection of a repository. *)
Definition reset_chromadb (repo_url : string) : M reset_result :=
  try_except
    (let collection_name := Indexer._collection_name repo_url in
     Indexer._reset_collection collection_name ;;;
     ret (ResetStatus ("reset collection '" +:+ collection_name +:+ "' done")))
    (fun e => ret (ResetError 500 e)).

End Main.
End Main.

(* ===================================================================== *)
(** * [app/agent.py]: the generic agent runner *)
(* ===================================================================== *)

Module AgentRunner.
Section AgentRunner.
Context `{E : Env}.
Import PyStr.
Local Open Scope eff_scope.

Definition AGENT_PROMPT (request tool_inputs : string) : string :=
  NL +:+ "You are an AI assistant managing two tools:" +:+ NL +:+ NL
  +:+ "1) QNA Tool: For documentation/setup/how-to queries." +:+ NL
  +:+ "   Input: query + relevant context chunks." +:+ NL
  +:+ "   Output: a clear natural language answer." +:+ NL +:+ NL
  +:+ "2) Review Tool: For code patch reviews." +:+ NL
  +:+ "   Input: linter results + diff snippet." +:+ NL
  +:+ "   Output: JSON with keys: summary, issues, suggested_fixes, confidence, green_signal."
  +:+ NL +:+ NL
  +:+ "Decide based on the user request which tool to call." +:+ NL
  +:+ "Always output the final answer (natural language or JSON as required)." +:+ NL
  +:+ "If the answer is not in the context, reply with:" +:+ NL
  +:+ "I cannot find relevant information in the repo context." +:+ NL +:+ NL
  +:+ "User request: " +:+ request +:+ NL
  +:+ "Tool inputs: " +:+ tool_inputs +:+ NL.

(** [LLMChain(llm, prompt).run(...)]: the formatted prompt goes out as one
    human message and the text of the answer comes back. *)
Definition chain_run (prompt : string) : M string :=
  msg <- chat_invoke [("human", prompt)] ;;
  ret (default "" (content msg)).

(** The tool inputs of a task, or the error of an unknown task type. *)
Definition tool_inputs_of (task_type repo_url query : string) (auto_fix : bool) : M pyval :=
  if String.eqb task_type "review" then
    events <- collect (Review.stream_review repo_url false auto_fix) ;;
    ret (PList (PDict <$> events))
  else if String.eqb task_type "qna" then
    prepared <- Qna.prepare_qna_inputs repo_url query ;;
    ret (PDict prepared)
  else raise "Invalid task_type: must be 'qna' or 'review'".

Definition run_agent (task_type repo_url query : string) (auto_fix : bool) : M pyval :=
  tool_inputs <- tool_inputs_of task_type repo_url query auto_fix ;;
  Agent.get_llm ;;;
  response <- chain_run
                (AGENT_PROMPT
                   (if String.eqb task_type "qna" then query else "Review this patch")
                   (json_dumps tool_inputs)) ;;
  if String.eqb task_type "review" then
    match Agent.re_search_braces response with
    | Some group1 =>
        match json_loads group1 with
        | Some v => ret v
        | None => ret (PDict [("raw", PStr response)])
        end
    | None => ret (PStr response)
    end
  else ret (PStr response).

End AgentRunner.
End AgentRunner.

(* ===================================================================== *)
(** * A reference [json] module

    [Json.loads] follows the decoder of Python's [json] module on documents
    whose characters and escapes stay below code point 256: white space is
    space, tab, line feed and carriage return; a number is an optional minus
    sign, an integer part without a leading zero (or a lone zero), an optional
    fraction and an optional exponent; the constants [NaN],
    [Infinity] and [-Infinity] are accepted; control characters inside a
    string are refused; anything after the document but white space is an
    error. [None] stands for the raised [JSONDecodeError]. The theorems below
    hold for every [json_loads]; this one instantiates them. *)
(* ===================================================================== *)

Module Json.
Import PyStr.

Definition is_ws (c : ascii) : bool :=
  let n := code c in ((n =? 32) || (n =? 9) || (n =? 10) || (n =? 13))%N.

Fixpoint skip_ws (s : string) : string :=
  match s with
  | String c s' => if is_ws c then skip_ws s' else s
  | "" => ""
  end.

Definition is_digit (c : ascii) : bool :=
  let n := code c in ((48 <=? n) && (n <=? 57))%N.

Definition digit_val (c : ascii) : Z := Z.of_N (code c) - 48.

Definition hex_val (c : ascii) : option Z :=
  let n := Z.of_N (code c) in
  if (48 <=? n) && (n <=? 57) then Some (n - 48)
  else if (97 <=? n) && (n <=? 102) then Some (n - 87)
  else if (65 <=? n) && (n <=? 70) then Some (n - 55)
  else None.

(** The longest run of digits at the head of [s]: its text, the rest. *)
Fixpoint digits (s : string) : string * string :=
  match s with
  | String c s' =>
      if is_digit c then let '(d, r) := digits s' in (String c d, r) else ("", s)
  | "" => ("", "")
  end.

Definition int_of_digits (d : string) : Z :=
  fold_left (fun acc c => 10 * acc + digit_val c) (String.list_ascii_of_string d) 0.

(** The integer part: a lone zero, or digits not starting with zero. *)
Definition int_part (s : string) : option (string * string) :=
  match s with
  | String "0" r => Some ("0", r)
  | String c _ => if is_digit c then Some (digits s) else None
  | "" => None
  end.

Definition frac_part (s : string) : string * string :=
  match s with
  | String "." r =>
      match digits r with
      | ("", _) => ("", s)
      | (d, r') => ("." +:+ d, r')
      end
  | _ => ("", s)
  end.

Definition exp_part (s : string) : string * string :=
  match s with
  | String e r =>
      if Ascii.eqb e "e" || Ascii.eqb e "E" then
        let '(sign, r1) :=
          match r with
          | String sg r1 =>
              if Ascii.eqb sg "+" || Ascii.eqb sg "-"
              then (String sg "", r1) else ("", r)
          | "" => ("", r)
          end in
        match digits r1 with
        | ("", _) => ("", s)
        | (d, r') => (String e sign +:+ d, r')
        end
      else ("", s)
  | "" => ("", s)
  end.

Definition number (s : string) : option (pyval * string) :=
  let '(neg, s1) :=
    match s with
    | String "-" r => (true, r)
    | _ => (false, s)
    end in
  match int_part s1 with
  | None => None
  | Some (i, r) =>
      let '(f, r1) := frac_part r in
      let '(e, r2) := exp_part r1 in
      match f, e with
      | "", "" =>
          Some (PInt (if neg then - int_of_digits i else int_of_digits i), r2)
      | _, _ => Some (PFloat ((if neg then "-" else "") +:+ i +:+ f +:+ e), r2)
      end
  end.

(** The text of a string after its opening quote: decoded, and the rest
    after the closing quote. *)
Fixpoint string_body (s : string) : option (string * string) :=
  match s with
  | "" => None
  | String c r =>
      if Ascii.eqb c "034" then Some ("", r)
      else if Ascii.eqb c "\" then
        match r with
        | String "u" (String h1 (String h2 (String h3 (String h4 r')))) =>
            match hex_val h1, hex_val h2, hex_val h3, hex_val h4 with
            | Some a, Some b, Some c', Some d =>
                let n := ((a * 16 + b) * 16 + c') * 16 + d in
                if n <? 256 then
                  match string_body r' with
                  | Some (t, r'') => Some (String (Ascii.ascii_of_N (Z.to_N n)) t, r'')
                  | None => None
                  end
                else None
            | _, _, _, _ => None
            end
        | String e r' =>
            let decoded :=
              if Ascii.eqb e "034" then Some "034"%char
              else if Ascii.eqb e "\" then Some "\"%char
              else if Ascii.eqb e "/" then Some "/"%char
              else if Ascii.eqb e "b" then Some "008"%char
              else if Ascii.eqb e "f" then Some "012"%char
              else if Ascii.eqb e "n" then Some "010"%char
              else if Ascii.eqb e "r" then Some "013"%char
              else if Ascii.eqb e "t" then Some "009"%char
              else None in
            match decoded, string_body r' with
            | Some d, Some (t, r'') => Some (String d t, r'')
            | _, _ => None
            end
        | "" => None
        end
      else if (code c <? 32)%N then None
      else
        match string_body r with
        | Some (t, r') => Some (String c t, r')
        | None => None
        end
  end.

Definition constant (s : string) : option (pyval * string) :=
  match strip_prefix "null" s with
  | Some r => Some (PNone, r)
  | None =>
  match strip_prefix "true" s with
  | Some r => Some (PBool true, r)
  | None =>
  match strip_prefix "false" s with
  | Some r => Some (PBool false, r)
  | None =>
  match strip_prefix "NaN" s with
  | Some r => Some (PFloat "NaN", r)
  | None =>
  match strip_prefix "Infinity" s with
  | Some r => Some (PFloat "Infinity", r)
  | None =>
  match strip_prefix "-Infinity" s with
  | Some r => Some (PFloat "-Infinity", r)
  | None => None
  end end end end end end.

(** One value at the head of [s] (no leading white space), the elements of
    an array after its bracket, the members of an object after its brace. *)
Fixpoint value (fuel : nat) (s : string) {struct fuel} : option (pyval * string) :=
  match fuel with
  | O => None
  | S fuel' =>
      match s with
      | String "034" r =>
          match string_body r with
          | Some (t, r') => Some (PStr t, r')
          | None => None
          end
      | String "[" r =>
          match skip_ws r with
          | String "]" r' => Some (PList [], r')
          | r' =>
              match elements fuel' r' with
              | Some (l, r'') => Some (PList l, r'')
              | None => None
              end
          end
      | String "{" r =>
          match skip_ws r with
          | String "}" r' => Some (PDict [], r')
          | r' =>
              match members fuel' r' [] with
              | Some (d, r'') => Some (PDict d, r'')
              | None => None
              end
          end
      | _ =>
          match constant s with
          | Some v => Some v
          | None => number s
          end
      end
  end
with elements (fuel : nat) (s : string) {struct fuel} : option (list pyval * string) :=
  match fuel with
  | O => None
  | S fuel' =>
      match value fuel' s with
      | None => None
      | Some (v, r) =>
          match skip_ws r with
          | String "]" r' => Some ([v], r')
          | String "," r' =>
              match elements fuel' (skip_ws r') with
              | Some (l, r'') => Some (v :: l, r'')
              | None => None
              end
          | _ => None
          end
      end
  end
with members (fuel : nat) (s : string) (acc : dict) {struct fuel} : option (dict * string) :=
  match fuel with
  | O => None
  | S fuel' =>
      match s with
      | String "034" r =>
          match string_body r with
          | None => None
          | Some (k, r1) =>
              match skip_ws r1 with
              | String ":" r2 =>
                  match value fuel' (skip_ws r2) with
                  | None => None
                  | Some (v, r3) =>
                      let acc' := Dict.set k v acc in
                      match skip_ws r3 with
                      | String "}" r4 => Some (acc', r4)
                      | String "," r4 => members fuel' (skip_ws r4) acc'
                      | _ => None
                      end
                  end
              | _ => None
              end
          end
      | _ => None
      end
  end.

(** [json.loads(s)] *)
Definition loads (s : string) : option pyval :=
  match value (2 * String.length s + 2) (skip_ws s) with
  | Some (v, r) => match skip_ws r with "" => Some v | _ => None end
  | None => None
  end.

(** ** [json.dumps(v, indent=2)] *)

Definition hex4 (n : Z) : string :=
  "00" +:+ String (Sha1.hex_digit (n / 16)) (String (Sha1.hex_digit (n mod 16)) "").

Definition escape_char (c : ascii) : string :=
  let n := Z.of_N (code c) in
  if n =? 34 then "\" +:+ DQ
  else if n =? 92 then "\\"
  else if n =? 10 then "\n"
  else if n =? 13 then "\r"
  else if n =? 9 then "\t"
  else if n =? 8 then "\b"
  else if n =? 12 then "\f"
  else if (n <? 32) || (126 <? n) then "\u" +:+ hex4 n
  else String c "".

Fixpoint escape (s : string) : string :=
  match s with
  | "" => ""
  | String c s' => escape_char c +:+ escape s'
  end.

Definition quoted (s : string) : string := DQ +:+ escape s +:+ DQ.

Fixpoint spaces (n : nat) : string :=
  match n with O => "" | S n' => String " " (spaces n') end.

Fixpoint dumps_at (level : nat) (v : pyval) {struct v} : string :=
  let inner := NL +:+ spaces (2 * S level) in
  let close := NL +:+ spaces (2 * level) in
  match v with
  | PNone => "null"
  | PBool true => "true"
  | PBool false => "false"
  | PInt z => pretty z
  | PFloat lexeme => lexeme
  | PStr s => quoted s
  | PList [] => "[]"
  | PList (x :: l) =>
      "[" +:+ inner +:+ dumps_at (S level) x
      +:+ (fix items (l : list pyval) : string :=
             match l with
             | [] => ""
             | y :: l' => "," +:+ inner +:+ dumps_at (S level) y +:+ items l'
             end) l
      +:+ close +:+ "]"
  | PDict [] => "{}"
  | PDict ((k, x) :: d) =>
      "{" +:+ inner +:+ quoted k +:+ ": " +:+ dumps_at (S level) x
      +:+ (fix items (d : list (string * pyval)) : string :=
             match d with
             | [] => ""
             | (k', y) :: d' =>
                 "," +:+ inner +:+ quoted k' +:+ ": " +:+ dumps_at (S level) y
                 +:+ items d'
             end) d
      +:+ close +:+ "}"
  end.

Definition dumps (v : pyval) : string := dumps_at 0 v.

End Json.

(* ===================================================================== *)
(** * Predicates of the specification *)
(* ===================================================================== *)

(** The events of a run, its result, its final state. *)
Definition events_of {S A : Type} (r : (list dict * outcome A) * S) : list dict := r.1.1.
Definition result_of {S A : Type} (r : (list dict * outcome A) * S) : outcome A := r.1.2.




(** The [file] entries of the events. *)
Definition files_of (es : list dict) : list (option pyval) := Dict.get "file" <$> es.

(** [s in t] for strings. *)
Fixpoint contains (t s : string) : bool :=
  match PyStr.strip_prefix s t with
  | Some _ => true
  | None =>
      match t with
      | "" => false
      | String _ t' => contains t' s
      end
  end.

(** [g] is a brace-delimited substring of [s]. *)
Definition brace_delimited (g s : string) : Prop :=
  exists pre body post, g = "{" +:+ body +:+ "}" /\ s = pre +:+ g +:+ post.

(** [g] is the span of [s] from its first opening brace to its last closing
    brace. *)
Definition greedy_brace_span (g s : string) : Prop :=
  exists pre body post,
    s = pre +:+ "{" +:+ body +:+ "}" +:+ post
    /\ g = "{" +:+ body +:+ "}"
    /\ PyStr.find_char "{"%char pre = None
    /\ PyStr.find_char "}"%char post = None.

Definition is_upsert (op : store_op) : bool :=
  match op with OpUpsert _ _ => true | _ => false end.

Definition is_drop_or_create (op : store_op) : bool :=
  match op with
  | OpDeleteCollection _ | OpCreateCollection _ => true
  | _ => false
  end.

(** Two triples that differ in exactly one component. *)
Definition one_differs (a b : string * string * string) : Prop :=
  let '(r, p, t) := a in
  let '(r', p', t') := b in
  (r <> r' /\ p = p' /\ t = t') \/
  (r = r' /\ p <> p' /\ t = t') \/
  (r = r' /\ p = p' /\ t <> t').

(** Two distinct byte strings with the same SHA-1 digest. *)
Definition sha1_collision (x y : list Z) : Prop :=
  x <> y /\ Sha1.hexdigest x = Sha1.hexdigest y.

(** ** Predicates over the state and the store *)

Section SpecPredicates.
Context `{E : Env}.
Import PyStr.

(** A loop body that emits exactly one record of type [t] for a Python
    file and nothing for any other file, and never raises. *)
Definition one_record_per_py (t : string) (body : string -> G unit) : Prop :=
  forall f st,
    if endswith f ".py" then
      exists e st', body f st = (([e], Ok tt), st')
                    /\ Dict.get "file" e = Some (PStr f)
                    /\ has_type t e = true
    else body f st = (([], Ok tt), st).



(** What is kept while the paragraphs are packed: every closed chunk and the
    open one is within the budget plus one separator, or is one paragraph. *)
Definition within (max_chars : Z) (paragraphs : list string) (c : string) : Prop :=
  len c <= max_chars + 2 \/ exists p, p ∈ paragraphs /\ c = strip p.

Definition open_ok (max_chars : Z) (paragraphs : list string) (cur : string) : Prop :=
  cur = "" \/ len cur <= max_chars + 2 \/ cur ∈ paragraphs.

Fixpoint repeat_char (c : ascii) (n : nat) : string :=
  match n with O => "" | S n' => String c (repeat_char c n') end.

(** The messages of [call_llm]. *)
Definition qna_messages (prompt : string) : list (string * string) :=
  [("system", "You are an expert software assistant. Answer only from the given context.");
   ("user", prompt)].

(** [st'] comes from [st] by calls [ops] on the store which leave the world
    and the chat log alone. *)
Definition store_steps (st st' : State) (ops : list store_op) : Prop :=
  store_log st' = store_log st ++ ops
  /\ world st' = world st
  /\ llm_log st' = llm_log st.

Definition no_faults (st : State) : Prop := Forall (fun b => b = false) (read_faults st).

(** What [col.get] finds of [ids] in the collection [c]. *)
Definition found_in (c : gmap string entry) (ids : list string) : list (string * list Q) :=
  omap (fun i => (fun e => (i, e_embedding e)) <$> c !! i) ids.

(** Whether the entry of [cid] in [c] is missing or malformed. *)
Definition broken_in (c : gmap string entry) (cid : string) : bool :=
  Indexer.is_broken (e_embedding <$> c !! cid).

Definition classify (c : gmap string entry) (counts : Z * Z) (cid : string) : Z * Z :=
  let '(broken, ok) := counts in
  if broken_in c cid then (broken + 1, ok) else (broken, ok + 1).

(** The entry written for a chunk. *)
Definition fresh_entry (repo_url fname chunk : string) : entry :=
  {| e_embedding := model_encode chunk;
     e_document := chunk;
     e_metadata := [("repo", PStr repo_url); ("path", PStr (lower fname))] |}.

End SpecPredicates.

(** ** Further predicates *)

(** Every character of [s] satisfies [p]. *)
Fixpoint all_chars (p : ascii -> bool) (s : string) : bool :=
  match s with
  | "" => true
  | String c s' => p c && all_chars p s'
  end.

(** A lowercase hexadecimal digit. *)
Definition is_hex_digit (c : ascii) : bool :=
  let n := PyStr.code c in
  ((48 <=? n) && (n <=? 57) || (97 <=? n) && (n <=? 102))%N.

(** The paragraphs joined as [chunk_text] joins them while the budget is not
    reached: no separator is put after an empty start. *)
Definition join_open (cur : string) (paragraphs : list string) : string :=
  fold_left (fun cur p => cur +:+ (if PyStr.truthy cur then PyStr.NL +:+ PyStr.NL else "") +:+ p)
            paragraphs cur.

(** The characters of the paragraphs, two more for each. *)
Definition packed_len (paragraphs : list string) : Z :=
  fold_right (fun p n => PyStr.len p + 2 + n) 0 paragraphs.

(** The keys of a mapping of documents. *)
Definition doc_keys (docs : list (string * string)) : list string := docs.*1.

(** The first character of [s] is not white space, and neither is the last. *)
Definition no_outer_space (s : string) : Prop :=
  PyStr.lstrip s = s /\ PyStr.lstrip (String.rev s) = String.rev s.

(** A chunk with something in it and no white space around it. *)
Definition clean_chunk (c : string) : Prop := c <> "" /\ no_outer_space c.

(** [s] without its white space. *)
Fixpoint squeeze (s : string) : string :=
  match s with
  | "" => ""
  | String c s' => if PyStr.is_space c then squeeze s' else String c (squeeze s')
  end.

(** The strings of a list, one after the other, without their white space. *)
Definition squeeze_all (l : list string) : string :=
  fold_right (fun s acc => squeeze s +:+ acc) "" l.

(** One file met by the walk of [find_docs]. *)
Definition walk_step (found : list (string * string)) (file : string * option string)
  : list (string * string) :=
  let '(f, read) := file in
  if bool_decide (PyStr.lower f ∈ Indexer.candidates) then
    match read with
    | Some text => Indexer.docs_set (PyStr.lower f) text found
    | None => found
    end
  else found.

(** What the walk keeps: one entry for each name, each name a candidate, each
    content read from a file of that name. *)
Definition docs_ok (files : list (string * option string)) (found : list (string * string))
  : Prop :=
  NoDup (doc_keys found)
  /\ Forall (fun k => k ∈ Indexer.candidates) (doc_keys found)
  /\ forall k v, (k, v) ∈ found -> exists f, (f, Some v) ∈ files /\ PyStr.lower f = k.

(** The record of a check of the file [f]: its stage, its type, the file,
    the output of the tool and its exit code. *)
Definition check_record (t stage f : string) (e : dict) : Prop :=
  exists out code,
    e = [("stage", PStr stage); ("type", PStr t); ("file", PStr f);
         ("output", PStr out); ("returncode", PInt code)].

(** The Python files of a list of names. *)
Definition python_files (files : list string) : list string :=
  filter (fun f => PyStr.endswith f ".py") files.

(** The record of a fix of the file [f]: the tool succeeded, or it failed
    with its error output and its exit code. *)
Definition autofix_record (f : string) (e : dict) : Prop :=
  (exists out,
      e = [("type", PStr "autofix"); ("file", PStr f);
           ("fixed", PBool true); ("output", PStr out)])
  \/ (exists err code,
         code <> 0
         /\ e = [("type", PStr "autofix"); ("file", PStr f);
                 ("fixed", PBool false); ("output", PStr err);
                 ("returncode", PInt code)]).

(** What ends a review with fixes: the diff after the fixes when there is
    one, a warning when it cannot be taken. *)
Definition post_fix_events (post : list dict) : Prop :=
  post = []
  \/ (exists diff, diff <> "" /\ post = [[("type", PStr "post_fix_diff"); ("diff", PStr diff)]])
  \/ (exists message, post = [[("type", PStr "warning"); ("message", PStr message)]]).


Section StorePredicates.
Context `{E : Env}.

(** [st'] differs from [st] at most in the collection [name], in the reads
    still to fail and in the log of the calls on the store. *)
Definition same_elsewhere (name : string) (st st' : State) : Prop :=
  world st' = world st
  /\ llm_log st' = llm_log st
  /\ forall n, n <> name -> chroma st' !! n = chroma st !! n.

(** The collection [name] holds a well-formed entry for [cid]. *)
Definition healthy_in (st : State) (name cid : string) : bool :=
  match chroma st !! name with
  | Some c => negb (broken_in c cid)
  | None => false
  end.

End StorePredicates.

Section RetrievalPredicates.
Context `{E : Env}.

(** The entries of a collection as the nearest-neighbour query sees them. *)
Definition entries_of (c : gmap string entry) : list (string * (list Q * string * dict)) :=
  (fun '(i, e) => (i, (e_embedding e, e_document e, e_metadata e))) <$> map_to_list c.

(** The chunks made of what the query found. *)
Definition chunks_of (found : list (string * dict)) : list dict :=
  (fun '(doc, meta) => [("text", PStr doc); ("metadata", PDict meta)]) <$> found.

End RetrievalPredicates.

(* ===================================================================== *)
(** * A small concrete environment

    One repository whose collaborators answer from a table: the answers of
    the shell by command, before and after the autofix tool has run; the
    files met by the walk; the answer of the chat completion service. The
    world records whether the clone is present and whether the autofix tool
    has run. The embedding model has two dimensions. *)
(* ===================================================================== *)

Module Demo.
Import PyStr.

Record repo : Type := {
  r_shell : bool -> string -> Z * string * string;
  r_files : list (string * option string);
  r_llm : outcome message
}.

Record repo_world : Type := { w_fixed : bool; w_cloned : bool }.

Definition env (r : repo) : Env := {|
  World := repo_world;
  shell cmd cwd w :=
    (r_shell r (w_fixed w) cmd,
     if startswith cmd "autopep8" then {| w_fixed := true; w_cloned := w_cloned w |}
     else w);
  exec argv w := (0, {| w_fixed := w_fixed w; w_cloned := true |});
  path_exists p w := w_cloned w;
  walk_files p w := r_files r;
  git_clone_from url path w := (Ok tt, {| w_fixed := w_fixed w; w_cloned := true |});
  git_pull path w := (Ok tt, w);
  BASE_DIR := "/srv";
  model_encode text := [1; 0]%Q;
  store_query entries q k :=
    Ok ((fun '(_, (_, doc, meta)) => (doc, meta)) <$> firstn (Z.to_nat k) entries);
  collection_name_ok name := true;
  GROQ_API_KEY := Some "key";
  CHROMA_RESET_THRESHOLD := None;
  llm_invoke msgs w := (r_llm r, w);
  json_dumps := Json.dumps;
  json_loads := Json.loads
|}.

(** The state of a first request: the clone is there, the store is empty. *)
Definition initial (r : repo) : @State (env r) :=
  @Build_State (env r) {| w_fixed := false; w_cloned := true |} ∅ ∅ [] [] [].

Definition reply (text : string) : outcome message :=
  Ok {| content := Some text; shown := text |}.

(** The answers of the tools; the lint findings go away with the fix. *)
Definition tool_shell (fixed : bool) (cmd : string) : Z * string * string :=
  if startswith cmd "flake8 " then
    (if fixed then 0 else 1,
     if fixed then "" else "E225 missing whitespace around operator" +:+ NL, "")
  else if startswith cmd "pylint " then (0, "", "")
  else if startswith cmd "autopep8 " then (0, "", "")
  else (127, "", "command not found").

Definition diff_of (file line : string) : string :=
  "diff --git a/" +:+ file +:+ " b/" +:+ file +:+ NL +:+ "+" +:+ line +:+ NL.

(** A working tree where [a.py] has staged and [b.py] only unstaged
    changes; the autofix tool succeeds and leaves a difference. *)
Definition tree_shell (fixed : bool) (cmd : string) : Z * string * string :=
  if String.eqb cmd "git diff --cached" then (0, diff_of "a.py" "x=1", "")
  else if String.eqb cmd "git diff HEAD" then
    (0, diff_of "a.py" (if fixed then "x = 1" else "x=1")
        +:+ diff_of "b.py" (if fixed then "y = 2" else "y=2"), "")
  else if String.eqb cmd "git diff --name-only HEAD" then
    (0, "a.py" +:+ NL +:+ "b.py" +:+ NL, "")
  else tool_shell fixed cmd.

Definition tree : repo :=
  {| r_shell := tree_shell;
     r_files := [("README.md", Some "hello")];
     r_llm := reply "not json at all" |}.



(** A clean working tree. *)
Definition clean : repo :=
  {| r_shell := fun _ _ => (0, "", "");
     r_files := [("README.md", Some "hello")];
     r_llm := reply "{}" |}.

(** A repository without documentation files. *)
Definition undocumented : repo :=
  {| r_shell := fun _ _ => (0, "", "");
     r_files := [("main.py", Some "print(1)")];
     r_llm := reply "I cannot find the relevant information in the README content." |}.

(** A clean working tree whose summary comes back as a JSON array. *)
Definition bracketed : repo :=
  {| r_shell := fun _ _ => (0, "", "");
     r_files := [("README.md", Some "hello")];
     r_llm := reply "[{}]" |}.

Definition url : string := "https://github.com/acme/widgets".

End Demo.

(* ===================================================================== *)
(** * An environment where things fail

    A second concrete environment, for the error paths: every shell command
    and every git process exits with the code of the plan, a pull always
    fails, and the chat completion service and the nearest-neighbour query
    answer as the plan says. The world is whether the clone is present. *)
(* ===================================================================== *)

Module Outage.
Import PyStr.

Record plan : Type := {
  exit_code : Z;
  llm : outcome message;
  key : option string;
  query : outcome (list (string * dict))
}.

Definition env (p : plan) : Env := {|
  World := bool;
  shell cmd cwd w := ((exit_code p, "", "fatal: not a git repository"), w);
  exec argv w := (exit_code p, w || (exit_code p =? 0));
  path_exists path w := w;
  walk_files path w := [("README.md", Some "hello")];
  git_clone_from url path w :=
    if exit_code p =? 0 then (Ok tt, true)
    else (Raise "Cmd('git') failed due to: exit code(128)", w);
  git_pull path w := (Raise "Cmd('git') failed due to: exit code(1)", w);
  BASE_DIR := "/srv";
  model_encode text := [1; 0]%Q;
  store_query entries q k := query p;
  collection_name_ok name := negb (contains name "@");
  GROQ_API_KEY := key p;
  CHROMA_RESET_THRESHOLD := None;
  llm_invoke msgs w := (llm p, w);
  json_dumps := Json.dumps;
  json_loads := Json.loads
|}.

(** The state of a first request, with or without the clone. *)
Definition start (p : plan) (cloned : bool) : @State (env p) :=
  @Build_State (env p) cloned ∅ ∅ [] [] [].

(** Nothing works: no network, no repository, no chat service. *)
Definition offline : plan :=
  {| exit_code := 128;
     llm := Raise "Connection error.";
     key := Some "key";
     query := Raise "index is corrupt" |}.

(** Everything works, but the credential is not set. *)
Definition no_key : plan :=
  {| exit_code := 0;
     llm := Ok {| content := Some "fine"; shown := "fine" |};
     key := None;
     query := Ok [] |}.

Definition url : string := "https://github.com/acme/widgets".

End Outage.

(* ===================================================================== *)
(** * Theorems: the review runners and the review event stream *)
(* ===================================================================== *)

Section ReviewSpec.
Context `{E : Env}.
Import PyStr.

Lemma gfor_one_record t body files st :
  one_record_per_py t body ->
  exists es st',
    gfor files body st = ((es, Ok tt), st')
    /\ files_of es = (fun f => Some (PStr f)) <$> filter (fun f => endswith f ".py") files
    /\ Forall (fun e => has_type t e = true) es.
Proof.
  intros Hbody. revert st.
  induction files as [|f files IH]; intros st.
  - exists [], st. repeat split; constructor.
  - specialize (Hbody f st). cbn [gfor]. unfold gbind.
    rewrite filter_cons.
    destruct (endswith f ".py") eqn:Hpy.
    + destruct Hbody as (e & st1 & -> & Hfile & Htype).
      destruct (IH st1) as (es & st' & -> & Hfiles & Hall).
      exists (e :: es), st'. repeat split.
      * rewrite decide_True by exact I.
        cbn. unfold files_of in Hfiles. now rewrite Hfile, Hfiles.
      * now constructor.
    + rewrite Hbody.
      destruct (IH st) as (es & st' & -> & Hfiles & Hall).
      exists es, st'. repeat split; [|exact Hall].
      rewrite decide_False by (intros []). exact Hfiles.
Qed.

Lemma flake8_one_record repo_dir :
  one_record_per_py "lint" (fun f =>
    if endswith f ".py" then
      gbind (lift (Review.run_command ("flake8 " +:+ f) repo_dir))
            (fun r => let '(code, out, _) := r in
               yield [("type", PStr "lint"); ("file", PStr f);
                      ("output", PStr (strip out)); ("returncode", PInt code)])
    else gret tt).
Proof.
  intros f st. destruct (endswith f ".py"); [|reflexivity].
  unfold gbind, lift, Review.run_command, run_shell.
  destruct (shell _ _ _) as [[[code out] err] w'].
  eexists _, _. repeat split.
Qed.

Lemma pylint_one_record repo_dir :
  one_record_per_py "bugcheck" (fun f =>
    if endswith f ".py" then
      gbind (lift (Review.run_command ("pylint --disable=R,C " +:+ f) repo_dir))
            (fun r => let '(code, out, _) := r in
               yield [("type", PStr "bugcheck"); ("file", PStr f);
                      ("output", PStr (strip out)); ("returncode", PInt code)])
    else gret tt).
Proof.
  intros f st. destruct (endswith f ".py"); [|reflexivity].
  unfold gbind, lift, Review.run_command, run_shell.
  destruct (shell _ _ _) as [[[code out] err] w'].
  eexists _, _. repeat split.
Qed.

Lemma autopep8_one_record repo_dir :
  one_record_per_py "autofix" (fun f =>
    if endswith f ".py" then
      gbind (lift (Review.run_command
                     ("autopep8 --in-place --aggressive --aggressive " +:+ f) repo_dir))
            (fun r => let '(code, out, err) := r in
               if code =? 0 then
                 yield [("type", PStr "autofix"); ("file", PStr f);
                        ("fixed", PBool true); ("output", PStr (strip out))]
               else
                 yield [("type", PStr "autofix"); ("file", PStr f);
                        ("fixed", PBool false); ("output", PStr (strip err));
                        ("returncode", PInt code)])
    else gret tt).
Proof.
  intros f st. destruct (endswith f ".py"); [|reflexivity].
  unfold gbind, lift, Review.run_command, run_shell.
  destruct (shell _ _ _) as [[[code out] err] w'].
  destruct (code =? 0); eexists _, _; repeat split.
Qed.

(** The three runners, as runs of [gfor]. *)
Lemma run_flake8_on_files_records repo_dir files st :
  exists es st',
    Review.run_flake8_on_files repo_dir files st = ((es, Ok tt), st')
    /\ files_of es = (fun f => Some (PStr f)) <$> filter (fun f => endswith f ".py") files
    /\ Forall (fun e => has_type "lint" e = true) es.
Proof. apply gfor_one_record, flake8_one_record. Qed.

Lemma run_bug_checks_records repo_dir files st :
  exists es st',
    Review.run_bug_checks repo_dir files st = ((es, Ok tt), st')
    /\ files_of es = (fun f => Some (PStr f)) <$> filter (fun f => endswith f ".py") files
    /\ Forall (fun e => has_type "bugcheck" e = true) es.
Proof. apply gfor_one_record, pylint_one_record. Qed.

Lemma auto_fix_files_records repo_dir files st :
  exists es st',
    Review.auto_fix_files repo_dir files st = ((es, Ok tt), st')
    /\ files_of es = (fun f => Some (PStr f)) <$> filter (fun f => endswith f ".py") files
    /\ Forall (fun e => has_type "autofix" e = true) es.
Proof. apply gfor_one_record, autopep8_one_record. Qed.

End ReviewSpec.

Section RunnersClaim.
Context `{E : Env}.
Import PyStr.

Lemma files_of_singleton es v :
  files_of es = [v] -> exists e, es = [e] /\ Dict.get "file" e = v.
Proof.
  destruct es as [|e [|e' es]]; cbn; intros H; try discriminate.
  exists e. split; [reflexivity | congruence].
Qed.

(** C9. For every changed-file list, the lint runner, the bug-check runner
    and the autofix runner each end without raising and yield exactly one
    record per file whose name ends in [.py], in the order of the list, and
    no record for any other file; the records are of type lint, bugcheck
    and autofix. For the list [a.py, b.txt] each runner yields exactly one
    record, and it is for [a.py]. *)
Theorem runners_one_record_per_python_file (repo_dir : string) :
  (forall (files : list string) (st : State),
      let python :=
        (fun f => Some (PStr f)) <$> filter (fun f => endswith f ".py") files in
      let lint := Review.run_flake8_on_files repo_dir files st in
      let bugs := Review.run_bug_checks repo_dir files st in
      let fixes := Review.auto_fix_files repo_dir files st in
      (result_of lint = Ok tt /\ files_of (events_of lint) = python
       /\ Forall (fun e => has_type "lint" e = true) (events_of lint))
      /\ (result_of bugs = Ok tt /\ files_of (events_of bugs) = python
          /\ Forall (fun e => has_type "bugcheck" e = true) (events_of bugs))
      /\ (result_of fixes = Ok tt /\ files_of (events_of fixes) = python
          /\ Forall (fun e => has_type "autofix" e = true) (events_of fixes)))
  /\ (forall st : State,
        exists l b a,
          events_of (Review.run_flake8_on_files repo_dir ["a.py"; "b.txt"] st) = [l]
          /\ events_of (Review.run_bug_checks repo_dir ["a.py"; "b.txt"] st) = [b]
          /\ events_of (Review.auto_fix_files repo_dir ["a.py"; "b.txt"] st) = [a]
          /\ has_file "a.py" l = true /\ has_file "a.py" b = true
          /\ has_file "a.py" a = true).
Proof.
  split.
  - intros files st python lint bugs fixes. subst lint bugs fixes.
    destruct (run_flake8_on_files_records repo_dir files st) as (e1 & s1 & -> & F1 & T1).
    destruct (run_bug_checks_records repo_dir files st) as (e2 & s2 & -> & F2 & T2).
    destruct (auto_fix_files_records repo_dir files st) as (e3 & s3 & -> & F3 & T3).
    unfold result_of, events_of; cbn. tauto.
  - intros st.
    destruct (run_flake8_on_files_records repo_dir ["a.py"; "b.txt"] st) as (e1 & s1 & -> & F1 & _).
    destruct (run_bug_checks_records repo_dir ["a.py"; "b.txt"] st) as (e2 & s2 & -> & F2 & _).
    destruct (auto_fix_files_records repo_dir ["a.py"; "b.txt"] st) as (e3 & s3 & -> & F3 & _).
    apply files_of_singleton in F1 as (l & -> & Hl).
    apply files_of_singleton in F2 as (b & -> & Hb).
    apply files_of_singleton in F3 as (a & -> & Ha).
    exists l, b, a. unfold events_of, has_file; cbn.
    rewrite Hl, Hb, Ha. repeat split.
Qed.

End RunnersClaim.

Section StreamSpec.
Context `{E : Env}.
Import PyStr.

Lemma truthy_empty s : truthy s = false <-> s = "".
Proof. destruct s; cbn; split; congruence. Qed.

Lemma truthy_nonempty s : s <> "" -> truthy s = true.
Proof. destruct s; cbn; congruence. Qed.

(** The stream on a non-empty diff: the diff, the file list read from
    [git diff --name-only HEAD], then the checks on that list. *)
Lemma stream_review_changes repo_url staged auto_fix st repo_dir st1 diff_text st2 :
  Review.get_repo_path repo_url st = (Ok repo_dir, st1) ->
  Review.get_git_diff repo_dir staged st1 = (Ok diff_text, st2) ->
  diff_text <> "" ->
  forall code out err w3,
    shell "git diff --name-only HEAD" repo_dir (world st2) = ((code, out, err), w3) ->
    Review.stream_review repo_url staged auto_fix st =
      let files := Review.changed_files_of out in
      let run := Review.review_checks repo_dir staged auto_fix files (with_world w3 st2) in
      ((Review.original_diff_event diff_text
          :: Review.changed_files_event files :: events_of run,
        result_of run), run.2).
Proof.
  intros Hpath Hdiff Hne code out err w3 Hnames.
  unfold Review.stream_review, gbind, lift.
  rewrite Hpath, Hdiff. rewrite (truthy_nonempty _ Hne). cbn [negb].
  unfold yield, Review.run_command, run_shell. rewrite Hnames.
  cbn -[Review.review_checks Review.changed_files_of].
  destruct (Review.review_checks _ _ _ _ _) as [[es r] st']. reflexivity.
Qed.

(** C3. Whenever the computed diff text is empty, whatever the [staged] and
    [auto_fix] flags, the review stream yields exactly one event, of type
    info, and ends there (without raising and without a further command):
    no original_diff, changed_files, lint, bugcheck or autofix event is
    part of the run. *)
Theorem stream_review_no_changes
        (repo_url : string) (staged auto_fix : bool)
        (st st1 st2 : State) (repo_dir : string) :
  Review.get_repo_path repo_url st = (Ok repo_dir, st1) ->
  Review.get_git_diff repo_dir staged st1 = (Ok "", st2) ->
  exists e,
    Review.stream_review repo_url staged auto_fix st = (([e], Ok tt), st2)
    /\ has_type "info" e = true
    /\ forall t e',
        t ∈ ["original_diff"; "changed_files"; "lint"; "bugcheck"; "autofix"] ->
        e' ∈ [e] -> has_type t e' = false.
Proof.
  intros Hpath Hdiff.
  exists (Review.info_event "No changes found to review.").
  split; [|split].
  - unfold Review.stream_review, gbind, lift. rewrite Hpath, Hdiff. reflexivity.
  - reflexivity.
  - intros t e' Ht He'. apply list_elem_of_singleton in He' as ->.
    repeat (apply elem_of_cons in Ht as [-> | Ht]; [reflexivity|]).
    inversion Ht.
Qed.

End StreamSpec.

(** The empty diff of a clean working tree, with both flags set. *)
Lemma stream_review_no_changes_witness :
  exists e,
    @Review.stream_review (Demo.env Demo.clean) Demo.url true true
      (Demo.initial Demo.clean)
    = (([e], Ok tt), Demo.initial Demo.clean)
    /\ has_type "info" e = true.
Proof.
  destruct (@stream_review_no_changes (Demo.env Demo.clean) Demo.url true true
              (Demo.initial Demo.clean) (Demo.initial Demo.clean)
              (Demo.initial Demo.clean) "/srv/repos/widgets"
              eq_refl eq_refl) as (e & Hrun & Hinfo & _).
  exists e. split; assumption.
Defined.

Section AutofixSpec.
Context `{E : Env}.
Import PyStr.




End AutofixSpec.


Section ReviewRecords.
Context `{E : Env}.
Import PyStr.

(** A loop that emits one record for a Python file and nothing for any
    other file emits the records of the Python files, in their order. *)
Lemma gfor_records (R : string -> dict -> Prop) (body : string -> G unit) files st :
  (forall f st,
     if endswith f ".py" then
       exists e st', body f st = (([e], Ok tt), st') /\ R f e
     else body f st = (([], Ok tt), st)) ->
  exists es st',
    gfor files body st = ((es, Ok tt), st')
    /\ Forall2 R (python_files files) es.
Proof.
  intros Hbody. revert st. induction files as [|f files IH]; intros st.
  - exists [], st. split; [reflexivity | constructor].
  - specialize (Hbody f st). cbn [gfor]. unfold gbind, python_files.
    rewrite filter_cons. destruct (endswith f ".py") eqn:Hpy.
    + destruct Hbody as (e & st1 & -> & He).
      destruct (IH st1) as (es & st' & -> & Hes).
      exists (e :: es), st'. split; [reflexivity|].
      rewrite decide_True by exact I. now constructor.
    + rewrite Hbody. destruct (IH st) as (es & st' & -> & Hes).
      exists es, st'. split; [reflexivity|].
      rewrite decide_False by (intros []). exact Hes.
Qed.

(** The loop of a check runner: one record for each Python file. *)
Lemma runner_records (t : string) (cmd : string -> string) repo_dir files st :
  exists es st',
    gfor files (fun f =>
      if endswith f ".py" then
        gbind (lift (Review.run_command (cmd f) repo_dir))
              (fun r => let '(code, out, _) := r in
                 yield [("type", PStr t); ("file", PStr f);
                        ("output", PStr (strip out)); ("returncode", PInt code)])
      else gret tt) st = ((es, Ok tt), st')
    /\ Forall2 (fun f e => exists out code,
                  e = [("type", PStr t); ("file", PStr f);
                       ("output", PStr out); ("returncode", PInt code)])
               (python_files files) es.
Proof.
  apply gfor_records. clear. intros f st. destruct (endswith f ".py"); [|reflexivity].
  unfold gbind, lift, Review.run_command, run_shell.
  destruct (shell _ _ _) as [[[code out] err] w'].
  eexists _, _. split; [reflexivity|]. eauto.
Qed.

(** The loop of the fixes: one record for each Python file. *)
Lemma auto_fix_records repo_dir files st :
  exists es st',
    Review.auto_fix_files repo_dir files st = ((es, Ok tt), st')
    /\ Forall2 autofix_record (python_files files) es.
Proof.
  apply gfor_records. clear. intros f st. destruct (endswith f ".py"); [|reflexivity].
  unfold gbind, lift, Review.run_command, run_shell.
  destruct (shell _ _ _) as [[[code out] err] w'].
  destruct (code =? 0) eqn:Hcode; eexists _, _; (split; [reflexivity|]).
  - left. eauto.
  - right. apply Z.eqb_neq in Hcode. eauto.
Qed.

Lemma staged_records (t stage : string) (g : G unit) st es st' :
  g st = ((es, Ok tt), st') ->
  forall fs,
    Forall2 (fun f e => exists out code,
               e = [("type", PStr t); ("file", PStr f);
                    ("output", PStr out); ("returncode", PInt code)]) fs es ->
    exists es',
      Review.staged_as stage g st = ((es', Ok tt), st')
      /\ Forall2 (check_record t stage) fs es'.
Proof.
  intros Hrun fs Hes. unfold Review.staged_as. rewrite Hrun.
  eexists. split; [reflexivity|].
  apply Forall2_fmap_r. eapply Forall2_impl; [exact Hes|].
  intros f e (out & code & ->). now exists out, code.
Qed.

(** The two checks of one stage: a lint record and then a bug-check record
    for each Python file. *)
Lemma checks_records stage repo_dir files st :
  exists lint bugs st',
    gbind (Review.staged_as stage (Review.run_flake8_on_files repo_dir files))
          (fun _ => Review.staged_as stage (Review.run_bug_checks repo_dir files)) st
    = ((lint ++ bugs, Ok tt), st')
    /\ Forall2 (check_record "lint" stage) (python_files files) lint
    /\ Forall2 (check_record "bugcheck" stage) (python_files files) bugs.
Proof.
  destruct (runner_records "lint" (fun f => "flake8 " +:+ f) repo_dir files st)
    as (l0 & s1 & Hl0 & Hlint0).
  destruct (staged_records "lint" stage _ _ _ _ Hl0 _ Hlint0) as (lint & Hlint & Hl).
  destruct (runner_records "bugcheck" (fun f => "pylint --disable=R,C " +:+ f) repo_dir
              files s1) as (b0 & s2 & Hb0 & Hbugs0).
  destruct (staged_records "bugcheck" stage _ _ _ _ Hb0 _ Hbugs0) as (bugs & Hbugs & Hb).
  exists lint, bugs, s2. split; [|now split].
  unfold Review.run_flake8_on_files, Review.run_bug_checks.
  unfold gbind at 1. rewrite Hlint, Hbugs. reflexivity.
Qed.

(** The end of a review with fixes. *)
Lemma post_fix_diff_events repo_dir staged st :
  exists post st',
    gtry_except
      (gbind (lift (Review.get_git_diff repo_dir staged))
             (fun post_diff =>
                if truthy post_diff then
                  yield [("type", PStr "post_fix_diff"); ("diff", PStr post_diff)]
                else gret tt))
      (fun e =>
         yield [("type", PStr "warning");
                ("message", PStr ("Could not get post-fix diff: " +:+ e))]) st
    = ((post, Ok tt), st')
    /\ post_fix_events post.
Proof.
  unfold gtry_except, gbind, lift.
  destruct (Review.get_git_diff repo_dir staged st) as [[post|e] s1].
  - destruct (truthy post) eqn:Ht; eexists _, _; (split; [reflexivity|]).
    + right. left. exists post. split; [|reflexivity]. intros ->. discriminate.
    + now left.
  - eexists _, _. split; [reflexivity|]. right. right. eauto.
Qed.

(** The checks once the changed files are known: every runner works on the
    Python files of the list it is given. *)
Lemma review_checks_records repo_dir staged auto_fix files st :
  exists lint bugs rest st',
    Review.review_checks repo_dir staged auto_fix files st
    = ((lint ++ bugs ++ rest, Ok tt), st')
    /\ Forall2 (check_record "lint" "before_fix") (python_files files) lint
    /\ Forall2 (check_record "bugcheck" "before_fix") (python_files files) bugs
    /\ if auto_fix then
         exists fixes lint' bugs' post,
           rest = Review.info_event "Applying automatic fixes..."
                    :: fixes
                    ++ Review.info_event "Re-running checks after fixes..."
                    :: lint' ++ bugs' ++ post
           /\ Forall2 autofix_record (python_files files) fixes
           /\ Forall2 (check_record "lint" "after_fix") (python_files files) lint'
           /\ Forall2 (check_record "bugcheck" "after_fix") (python_files files) bugs'
           /\ post_fix_events post
       else rest = [].
Proof.
  destruct (checks_records "before_fix" repo_dir files st)
    as (lint & bugs & s2 & Hbefore & Hlint & Hbugs).
  destruct auto_fix.
  - destruct (auto_fix_records repo_dir files s2) as (fixes & s3 & Hfix & Hfixes).
    destruct (checks_records "after_fix" repo_dir files s3)
      as (lint' & bugs' & s5 & Hafter & Hlint' & Hbugs').
    destruct (post_fix_diff_events repo_dir staged s5) as (post & s6 & Hpost & Hshape).
    exists lint, bugs,
      (Review.info_event "Applying automatic fixes..."
         :: fixes
         ++ Review.info_event "Re-running checks after fixes..."
         :: lint' ++ bugs' ++ post), s6.
    split; [|split; [exact Hlint | split; [exact Hbugs|]]].
    + unfold Review.review_checks.
      unfold gbind at 1 in Hbefore. unfold gbind at 1.
      destruct (Review.staged_as "before_fix" (Review.run_flake8_on_files repo_dir files) st)
        as [[l1 [[]|e1]] s1]; [|discriminate].
      unfold gbind at 1.
      destruct (Review.staged_as "before_fix" (Review.run_bug_checks repo_dir files) s1)
        as [[b1 r1] s2'].
      injection Hbefore as Hes -> ->. 
      unfold gbind at 1. unfold yield at 1. unfold gbind at 1. rewrite Hfix.
      unfold gbind at 1. unfold yield at 1.
      unfold gbind at 1 in Hafter. unfold gbind at 1.
      destruct (Review.staged_as "after_fix" (Review.run_flake8_on_files repo_dir files) s3)
        as [[l2 [[]|e2]] s4]; [|discriminate].
      unfold gbind at 1.
      destruct (Review.staged_as "after_fix" (Review.run_bug_checks repo_dir files) s4)
        as [[b2 r2] s5'].
      injection Hafter as Hes' -> ->.
      rewrite Hpost. cbn [app].
      rewrite (app_assoc l2 b2), Hes', (app_assoc l1 b1), Hes, <- !app_assoc.
      reflexivity.
    + exists fixes, lint', bugs', post. auto.
  - exists lint, bugs, [], s2.
    split; [|split; [exact Hlint | split; [exact Hbugs | reflexivity]]].
    unfold Review.review_checks.
    unfold gbind at 1 in Hbefore. unfold gbind at 1.
    destruct (Review.staged_as "before_fix" (Review.run_flake8_on_files repo_dir files) st)
      as [[l1 [[]|e1]] s1]; [|discriminate].
    unfold gbind at 1.
    destruct (Review.staged_as "before_fix" (Review.run_bug_checks repo_dir files) s1)
      as [[b1 r1] s2'].
    injection Hbefore as Hes -> ->. unfold gret.
    now rewrite !app_nil_r, Hes.
Qed.

End ReviewRecords.

Section ChangedFilesSpec.
Context `{E : Env}.
Import PyStr.

(** C10. In every run of the review stream with a non-empty diff, whatever
    the [staged] flag, the changed_files event is computed from the output
    of [git diff --name-only HEAD] (run right after the diff), and the
    lint, bug-check and autofix runners work on that list. The stream is
    the original_diff event, the changed_files event of that list and the
    checks on that list; and these are one lint record and then one
    bug-check record for each Python file of that list and, with
    [auto_fix], one autofix record for each and the two checks again, in
    the order of the list. Hence with [staged] set the list can name a file
    that the staged diff text does not mention: in the working tree of
    [Demo.tree], where only [a.py] is staged, the changed_files event lists
    [b.py], and a lint record, a bug-check record and an autofix record for
    [b.py] follow. *)
Theorem changed_files_relative_to_head
        (repo_url : string) (staged auto_fix : bool) (st st1 st2 : State)
        (repo_dir diff_text : string) (code : Z) (out err : string) (w3 : World) :
  Review.get_repo_path repo_url st = (Ok repo_dir, st1) ->
  Review.get_git_diff repo_dir staged st1 = (Ok diff_text, st2) ->
  diff_text <> "" ->
  shell "git diff --name-only HEAD" repo_dir (world st2) = ((code, out, err), w3) ->
  (let files := Review.changed_files_of out in
   let run := Review.review_checks repo_dir staged auto_fix files (with_world w3 st2) in
   Review.stream_review repo_url staged auto_fix st =
     ((Review.original_diff_event diff_text
         :: Review.changed_files_event files :: events_of run,
       result_of run), run.2))
  /\ (let files := Review.changed_files_of out in
      exists lint bugs rest st',
        Review.stream_review repo_url staged auto_fix st
        = ((Review.original_diff_event diff_text
              :: Review.changed_files_event files :: lint ++ bugs ++ rest, Ok tt), st')
        /\ Forall2 (check_record "lint" "before_fix") (python_files files) lint
        /\ Forall2 (check_record "bugcheck" "before_fix") (python_files files) bugs
        /\ if auto_fix then
             exists fixes lint' bugs' post,
               rest = Review.info_event "Applying automatic fixes..."
                        :: fixes
                        ++ Review.info_event "Re-running checks after fixes..."
                        :: lint' ++ bugs' ++ post
               /\ Forall2 autofix_record (python_files files) fixes
               /\ Forall2 (check_record "lint" "after_fix") (python_files files) lint'
               /\ Forall2 (check_record "bugcheck" "after_fix") (python_files files) bugs'
               /\ post_fix_events post
           else rest = [])
  /\ (let events :=
        events_of (@Review.stream_review (Demo.env Demo.tree) Demo.url true true
                     (Demo.initial Demo.tree)) in
      exists staged_diff lint_b bug_b fix_b,
        events !! 0%nat = Some (Review.original_diff_event staged_diff)
        /\ contains staged_diff "b.py" = false
        /\ events !! 1%nat = Some (Review.changed_files_event ["a.py"; "b.py"])
        /\ events !! 3%nat = Some lint_b
        /\ check_record "lint" "before_fix" "b.py" lint_b
        /\ events !! 5%nat = Some bug_b
        /\ check_record "bugcheck" "before_fix" "b.py" bug_b
        /\ events !! 8%nat = Some fix_b
        /\ autofix_record "b.py" fix_b).
Proof.
  intros Hpath Hdiff Hne Hnames. split; [|split].
  - exact (stream_review_changes _ _ _ _ _ _ _ _ Hpath Hdiff Hne _ _ _ _ Hnames).
  - cbv zeta.
    rewrite (stream_review_changes _ _ _ _ _ _ _ _ Hpath Hdiff Hne _ _ _ _ Hnames).
    cbv zeta.
    destruct (review_checks_records repo_dir staged auto_fix (Review.changed_files_of out)
                (with_world w3 st2)) as (lint & bugs & rest & st' & -> & Hrest).
    now exists lint, bugs, rest, st'.
  - cbv zeta.
    exists (strip (Demo.diff_of "a.py" "x=1")),
      [("stage", PStr "before_fix"); ("type", PStr "lint"); ("file", PStr "b.py");
       ("output", PStr "E225 missing whitespace around operator");
       ("returncode", PInt 1)],
      [("stage", PStr "before_fix"); ("type", PStr "bugcheck"); ("file", PStr "b.py");
       ("output", PStr ""); ("returncode", PInt 0)],
      [("type", PStr "autofix"); ("file", PStr "b.py");
       ("fixed", PBool true); ("output", PStr "")].
    split; [vm_compute; reflexivity|]. split; [vm_compute; reflexivity|].
    split; [vm_compute; reflexivity|]. split; [vm_compute; reflexivity|].
    split; [now eexists _, _|]. split; [vm_compute; reflexivity|].
    split; [now eexists _, _|]. split; [vm_compute; reflexivity|].
    left. now eexists.
Qed.

End ChangedFilesSpec.

(** The staged review of [Demo.tree] with fixes: the file list comes from
    the diff against HEAD, and [b.py], which is not staged, is fixed. *)
Lemma changed_files_relative_to_head_witness :
  exists events,
    events_of (@Review.stream_review (Demo.env Demo.tree) Demo.url true true
                 (Demo.initial Demo.tree)) = events
    /\ events !! 1%nat = Some (Review.changed_files_event ["a.py"; "b.py"])
    /\ exists fix_b, fix_b ∈ events /\ autofix_record "b.py" fix_b.
Proof.
  edestruct (@changed_files_relative_to_head (Demo.env Demo.tree) Demo.url true true
               (Demo.initial Demo.tree)) as (_ & Hrun & _).
  - reflexivity.
  - reflexivity.
  - discriminate.
  - reflexivity.
  - cbv zeta in Hrun.
    destruct Hrun as (lint & bugs & rest & st' & Hrun & Hlint & Hbugs
                      & fixes & lint' & bugs' & post & -> & Hfixes & _).
    eexists. split; [reflexivity|]. rewrite Hrun. unfold events_of. cbn [fst].
    split; [reflexivity|].
    match type of Hfixes with
    | Forall2 _ ?files _ => change files with ["a.py"; "b.py"] in Hfixes
    end.
    inversion Hfixes as [|fa ea fl el Ha Hb]; subst.
    inversion Hb as [|fb eb fl' el' Hb' Hc]; subst.
    exists eb. split; [|exact Hb'].
    do 2 apply list_elem_of_further. apply elem_of_app. right.
    apply elem_of_app. right. apply list_elem_of_further.
    apply list_elem_of_further. apply list_elem_of_here.
Defined.

(* ===================================================================== *)
(** * Theorems: the review summarizer *)
(* ===================================================================== *)

Section StringFacts.
Import PyStr.

Lemma app_String c s t : String c s +:+ t = String c (s +:+ t).
Proof. reflexivity. Qed.

Lemma app_empty_l t : "" +:+ t = t.
Proof. reflexivity. Qed.

Lemma app_empty_r s : s +:+ "" = s.
Proof. induction s as [|c s IH]; [reflexivity|]. now rewrite app_String, IH. Qed.

Lemma app_assoc' (s t u : string) : (s +:+ t) +:+ u = s +:+ (t +:+ u).
Proof. induction s as [|c s IH]; [reflexivity|]. now rewrite !app_String, IH. Qed.

Lemma length_app (s t : string) :
  String.length (s +:+ t) = (String.length s + String.length t)%nat.
Proof. induction s as [|c s IH]; [reflexivity|]. rewrite app_String. cbn. now rewrite IH. Qed.

(** The first occurrence of a character splits the string. *)
Lemma find_char_Some a s i :
  find_char a s = Some i ->
  exists pre rest,
    s = pre +:+ String a rest /\ find_char a pre = None /\ drop i s = String a rest.
Proof.
  revert i. induction s as [|c s IH]; intros i; cbn; [discriminate|].
  destruct (Ascii.eqb c a) eqn:Hc.
  - apply Ascii.eqb_eq in Hc as ->. intros [= <-]. exists "", s. repeat split.
  - destruct (find_char a s) as [j|] eqn:Hj; cbn; [|discriminate].
    intros [= <-]. destruct (IH j eq_refl) as (pre & rest & -> & Hpre & Hdrop).
    exists (String c pre), rest. repeat split.
    + cbn. now rewrite Hc, Hpre.
    + exact Hdrop.
Qed.

Lemma find_char_app a pre rest :
  find_char a pre = None ->
  find_char a (pre +:+ String a rest) = Some (String.length pre)
  /\ drop (String.length pre) (pre +:+ String a rest) = String a rest.
Proof.
  induction pre as [|c pre IH]; cbn.
  - intros _. rewrite app_empty_l. cbn. now rewrite Ascii.eqb_refl.
  - destruct (Ascii.eqb c a) eqn:Hc; [discriminate|].
    destruct (find_char a pre) eqn:Hp; [discriminate|]. intros _.
    destruct (IH eq_refl) as [Hf Hd]. rewrite app_String. cbn.
    now rewrite Hc, Hf, Hd.
Qed.

(** A character that occurs is found. *)
Lemma find_char_occurs a pre rest : find_char a (pre +:+ String a rest) <> None.
Proof.
  induction pre as [|c pre IH].
  - rewrite app_empty_l. cbn. now rewrite Ascii.eqb_refl.
  - rewrite app_String. cbn. destruct (Ascii.eqb c a); [discriminate|].
    destruct (find_char a (pre +:+ String a rest)); [discriminate|contradiction].
Qed.

Lemma rfind_char_None a s : rfind_char a s = None <-> find_char a s = None.
Proof.
  induction s as [|c s IH]; cbn; [tauto|].
  destruct (rfind_char a s), (find_char a s), (Ascii.eqb c a); cbn;
    split; intros H; try discriminate; try reflexivity;
    destruct IH as [IH1 IH2]; try (specialize (IH1 eq_refl); discriminate);
    try (specialize (IH2 eq_refl); discriminate).
Qed.

(** The last occurrence of a character splits the string. *)
Lemma rfind_char_Some a s j :
  rfind_char a s = Some j ->
  exists pre rest,
    s = pre +:+ String a rest /\ find_char a rest = None
    /\ take (S j) s = pre +:+ String a "".
Proof.
  revert j. induction s as [|c s IH]; intros j; cbn; [discriminate|].
  destruct (rfind_char a s) as [k|] eqn:Hk.
  - intros [= <-]. destruct (IH k eq_refl) as (pre & rest & -> & Hrest & Htake).
    exists (String c pre), rest. repeat split; [exact Hrest|].
    rewrite app_String. f_equal. exact Htake.
  - destruct (Ascii.eqb c a) eqn:Hc; [|discriminate].
    apply Ascii.eqb_eq in Hc as ->. intros [= <-].
    exists "", s. repeat split. now apply rfind_char_None.
Qed.

Lemma rfind_char_app a pre rest :
  find_char a rest = None ->
  rfind_char a (pre +:+ String a rest) = Some (String.length pre)
  /\ take (S (String.length pre)) (pre +:+ String a rest) = pre +:+ String a "".
Proof.
  intros Hrest. induction pre as [|c pre [IH1 IH2]].
  - rewrite !app_empty_l. cbn.
    apply rfind_char_None in Hrest. rewrite Hrest, Ascii.eqb_refl. now destruct rest.
  - rewrite !app_String. cbn -[take]. rewrite IH1. split; [reflexivity|].
    cbn [String.length]. change (take (S (S (String.length pre))) (String c ?x))
      with (String c (take (S (String.length pre)) x)). now rewrite IH2.
Qed.

End StringFacts.

Section SummarizerSpec.
Context `{E : Env}.
Import PyStr.

(** What the search finds is the span from the first opening brace to the
    last closing brace, and it finds it whenever there is one. *)
Lemma re_search_braces_span s g :
  Agent.re_search_braces s = Some g <-> greedy_brace_span g s.
Proof.
  unfold Agent.re_search_braces, greedy_brace_span. split.
  - destruct (find_char "{" s) as [i|] eqn:Hi; [|discriminate].
    destruct (find_char_Some _ _ _ Hi) as (pre & rest & -> & Hpre & ->).
    destruct (rfind_char "}" (String "{" rest)) as [j|] eqn:Hj; [|discriminate].
    destruct (rfind_char_Some _ _ _ Hj) as (body' & post & Heq & Hpost & Htake).
    rewrite Htake. intros [= <-].
    destruct body' as [|c body]; [discriminate|].
    rewrite app_String in Heq. injection Heq as <- ->.
    exists pre, body, post. repeat split; try assumption; reflexivity.
  - intros (pre & body & post & -> & -> & Hpre & Hpost).
    rewrite !app_String, !app_empty_l.
    destruct (find_char_app "{" pre (body +:+ String "}" post) Hpre) as [-> ->].
    destruct (rfind_char_app "}" (String "{" body) post Hpost) as [H1 H2].
    rewrite app_String in H1, H2. rewrite H1, H2. reflexivity.
Qed.

Lemma span_is_brace_delimited g s : greedy_brace_span g s -> brace_delimited g s.
Proof.
  intros (pre & body & post & -> & -> & _ & _). exists pre, body, post.
  split; [reflexivity|]. now rewrite !app_String, !app_empty_l, !app_assoc'.
Qed.

(** C2. Whenever the chat completion service answers with a string from
    which no JSON document can be parsed, neither from the whole string nor
    from any brace-delimited substring, the summarizer does not raise and
    returns the summary object whose confidence is low, whose issues and
    suggested_fixes are empty lists, whose green_signal is False and whose
    raw entry is the response text. *)
Theorem summarize_unparseable_response
        (events : list dict) (st st1 : State) (key : string)
        (msg : message) (response : string) :
  GROQ_API_KEY = Some key ->
  truthy key = true ->
  chat_invoke (Agent.summary_messages events) st = (Ok msg, st1) ->
  content msg = Some response ->
  json_loads response = None ->
  (forall g, brace_delimited g response -> json_loads g = None) ->
  exists summary,
    Agent.summarize_review_events_with_llm events st = (Ok (PDict summary), st1)
    /\ Dict.get "confidence" summary = Some (PStr "low")
    /\ Dict.get "issues" summary = Some (PList [])
    /\ Dict.get "green_signal" summary = Some (PBool false)
    /\ Dict.get "suggested_fixes" summary = Some (PList [])
    /\ Dict.get "raw" summary = Some (PStr response).
Proof.
  intros Hkey Htruthy Hchat Hcontent Hwhole Hsub.
  assert (Hextract : Agent.extract_summary response
                     = Agent.parse_failure_summary response).
  { unfold Agent.extract_summary.
    destruct (Agent.re_search_braces response) as [g|] eqn:Hg.
    - apply re_search_braces_span, span_is_brace_delimited, Hsub in Hg.
      now rewrite Hg.
    - now rewrite Hwhole. }
  eexists. split.
  - unfold Agent.summarize_review_events_with_llm, Agent.get_llm, bind.
    rewrite Hkey, Htruthy. unfold ret at 1. rewrite Hchat, Hcontent.
    change (default "{}" (Some response)) with response.
    rewrite Hextract. reflexivity.
  - repeat split.
Qed.

(** C7, as amended. The summarizer first searches the response for the span
    from its first opening brace to its last closing brace. When there is
    such a span, that span alone is parsed, and when it does not parse the
    fixed low-confidence summary is returned without a parse of the whole
    response. Only a response without such a span is parsed as a whole. *)
Theorem summary_parses_brace_span_first (response : string) :
  (forall g, greedy_brace_span g response ->
     Agent.re_search_braces response = Some g
     /\ Agent.extract_summary response =
          match json_loads g with
          | Some v => v
          | None => Agent.parse_failure_summary response
          end)
  /\ ((forall g, ~ greedy_brace_span g response) ->
      Agent.re_search_braces response = None
      /\ Agent.extract_summary response =
           match json_loads response with
           | Some v => v
           | None => Agent.parse_failure_summary response
           end).
Proof.
  split.
  - intros g Hg. apply re_search_braces_span in Hg.
    unfold Agent.extract_summary. now rewrite Hg.
  - intros Hnone. unfold Agent.extract_summary.
    destruct (Agent.re_search_braces response) as [g|] eqn:Hg.
    + apply re_search_braces_span in Hg. now destruct (Hnone g).
    + split; reflexivity.
Qed.

End SummarizerSpec.

(** A response without any brace that is not JSON. *)
Lemma summarize_unparseable_response_witness :
  exists summary st1,
    @Agent.summarize_review_events_with_llm (Demo.env Demo.tree) []
      (Demo.initial Demo.tree) = (Ok (PDict summary), st1)
    /\ Dict.get "confidence" summary = Some (PStr "low")
    /\ Dict.get "raw" summary = Some (PStr "not json at all").
Proof.
  edestruct (@summarize_unparseable_response (Demo.env Demo.tree) []
               (Demo.initial Demo.tree))
    as (summary & Hrun & Hconf & _ & _ & _ & Hraw).
  - reflexivity.
  - reflexivity.
  - reflexivity.
  - reflexivity.
  - reflexivity.
  - intros g (pre & body & post & -> & Heq). exfalso.
    assert (Hfound : PyStr.find_char "{" "not json at all" <> None).
    { rewrite Heq, app_String. apply find_char_occurs. }
    now apply Hfound.
  - exists summary. eexists. split; [exact Hrun|]. split; assumption.
Defined.

(** The span of a response that is an object with surrounding prose. *)
Lemma summary_parses_brace_span_first_witness :
  @Agent.extract_summary (Demo.env Demo.tree) "Here it is: {} Thanks" = PDict [].
Proof.
  destruct (@summary_parses_brace_span_first (Demo.env Demo.tree)
              "Here it is: {} Thanks") as [Hspan _].
  destruct (Hspan "{}") as [_ ->]; [|reflexivity].
  exists "Here it is: ", "", " Thanks". repeat split.
Defined.

(** A response without braces that is a JSON number parses as a whole and is
    returned as that number: it is a response from which JSON can be parsed. *)
Lemma number_response_is_returned :
  @Agent.extract_summary (Demo.env Demo.tree) "42" = PInt 42.
Proof. reflexivity. Qed.

(** The claim C7 as it was stated fails on the response [[{}]]: the whole
    response is valid JSON, an array holding one object, and yet what is
    parsed and returned is the span [{}] cut out of it. *)
Lemma whole_response_not_parsed_first :
  let E := Demo.env Demo.bracketed in
  @json_loads E "[{}]" = Some (PList [PDict []])
  /\ @Agent.extract_summary E "[{}]" = PDict []
  /\ (@Agent.summarize_review_events_with_llm E [] (Demo.initial Demo.bracketed)).1
     = Ok (PDict [])
  /\ ~ (forall response v,
          @json_loads E response = Some v -> @Agent.extract_summary E response = v).
Proof.
  cbv zeta. repeat split.
  intros H. specialize (H "[{}]" _ eq_refl). discriminate H.
Qed.

(* ===================================================================== *)
(** * Theorems: chunking and content addressing *)
(* ===================================================================== *)

Section ChunkFacts.
Import PyStr.

Lemma length_rev_app (s t : string) :
  String.length (String.rev_app s t) = (String.length s + String.length t)%nat.
Proof.
  revert t. induction s as [|c s IH]; intros t; cbn; [reflexivity|].
  rewrite IH. cbn. lia.
Qed.

Lemma length_rev (s : string) : String.length (String.rev s) = String.length s.
Proof. unfold String.rev. rewrite length_rev_app. cbn. lia. Qed.

Lemma length_lstrip (s : string) : (String.length (lstrip s) <= String.length s)%nat.
Proof. induction s as [|c s IH]; cbn; [lia|]. destruct (is_space c); cbn; lia. Qed.

Lemma len_strip (s : string) : len (strip s) <= len s.
Proof.
  unfold len, strip, rstrip. apply inj_le.
  rewrite length_rev.
  etransitivity; [apply length_lstrip|]. rewrite length_rev. apply length_lstrip.
Qed.

Lemma len_app (s t : string) : len (s +:+ t) = len s + len t.
Proof. unfold len. rewrite length_app. lia. Qed.

Lemma open_ok_closed max_chars paragraphs cur :
  open_ok max_chars paragraphs cur -> within max_chars paragraphs (strip cur)
                                      \/ strip cur = "".
Proof.
  intros [-> | [Hlen | Hin]].
  - right. reflexivity.
  - left. left. pose proof (len_strip cur). lia.
  - left. right. now exists cur.
Qed.

Lemma chunk_step_invariant max_chars paragraphs chunks cur p :
  p ∈ paragraphs ->
  Forall (within max_chars paragraphs) chunks ->
  open_ok max_chars paragraphs cur ->
  Forall (within max_chars paragraphs) (Indexer.chunk_step max_chars (chunks, cur) p).1
  /\ open_ok max_chars paragraphs (Indexer.chunk_step max_chars (chunks, cur) p).2.
Proof.
  intros Hp Hchunks Hcur. unfold Indexer.chunk_step.
  destruct (len cur + len p >? max_chars) eqn:Hgt; cbn [fst snd].
  - split; [|right; right; exact Hp].
    destruct (truthy (strip cur)) eqn:Ht; [|exact Hchunks].
    apply Forall_app. split; [exact Hchunks|]. constructor; [|constructor].
    destruct (open_ok_closed _ _ _ Hcur) as [H | H]; [exact H|].
    rewrite H in Ht. discriminate.
  - split; [exact Hchunks|].
    destruct cur as [|c cur']; cbn [truthy].
    + right. right. exact Hp.
    + right. left. rewrite !len_app. change (len NL) with 1. lia.
Qed.

Lemma chunk_fold_invariant max_chars paragraphs ps chunks cur :
  ps ⊆ paragraphs ->
  Forall (within max_chars paragraphs) chunks ->
  open_ok max_chars paragraphs cur ->
  Forall (within max_chars paragraphs)
         (fold_left (Indexer.chunk_step max_chars) ps (chunks, cur)).1
  /\ open_ok max_chars paragraphs
             (fold_left (Indexer.chunk_step max_chars) ps (chunks, cur)).2.
Proof.
  revert chunks cur. induction ps as [|p ps IH]; intros chunks cur Hsub Hchunks Hcur.
  - now split.
  - cbn [fold_left].
    destruct (chunk_step_invariant max_chars paragraphs chunks cur p) as [H1 H2];
      [apply Hsub; left | assumption | assumption |].
    destruct (Indexer.chunk_step max_chars (chunks, cur) p) as [chunks' cur'].
    apply IH; [intros x Hx; apply Hsub; now right | exact H1 | exact H2].
Qed.

(** The bound that the code does keep: a chunk is longer than the budget
    plus the two characters of one separator only if it is a single
    paragraph (stripped). *)
Lemma chunk_text_size text max_chars c :
  c ∈ Indexer.chunk_text text max_chars ->
  len c <= max_chars + 2
  \/ exists p, p ∈ split (NL +:+ NL) text /\ c = strip p.
Proof.
  unfold Indexer.chunk_text.
  destruct (chunk_fold_invariant max_chars (split (NL +:+ NL) text)
              (split (NL +:+ NL) text) [] "") as [H1 H2];
    [set_solver | constructor | now left |].
  destruct (fold_left _ _ _) as [chunks cur]. cbn [fst snd] in *.
  intros Hc.
  assert (Hall : Forall (within max_chars (split (NL +:+ NL) text))
                        (if truthy (strip cur) then chunks ++ [strip cur] else chunks)).
  { destruct (truthy (strip cur)) eqn:Ht; [|exact H1].
    apply Forall_app. split; [exact H1|]. constructor; [|constructor].
    destruct (open_ok_closed _ _ _ H2) as [H | H]; [exact H|].
    rewrite H in Ht. discriminate. }
  rewrite Forall_forall in Hall. exact (Hall c Hc).
Qed.

(** C4, at the inputs where the code departs from it. Two paragraphs of five
    characters are packed into one chunk of twelve characters under a budget
    of ten, and two paragraphs of 500 characters into one chunk of 1002
    characters under the default budget of 1000: the two characters of the
    separator are not counted when a paragraph is added, so a chunk of more
    than one paragraph exceeds the budget. *)
Theorem chunk_text_overshoots_budget :
  let small := "aaaaa" +:+ NL +:+ NL +:+ "bbbbb" in
  let large := repeat_char "a" 500 +:+ NL +:+ NL +:+ repeat_char "b" 500 in
  split (NL +:+ NL) small = ["aaaaa"; "bbbbb"]
  /\ Indexer.chunk_text small 10 = [small]
  /\ len small = 12
  /\ split (NL +:+ NL) large = [repeat_char "a" 500; repeat_char "b" 500]
  /\ Indexer.chunk_text large 1000 = [large]
  /\ len large = 1002.
Proof. vm_compute. repeat split. Qed.

End ChunkFacts.

Section ChunkIdSpec.
Import PyStr.

Lemma code_bound (c : ascii) : 0 <= Z.of_N (code c) < 256.
Proof. unfold code. pose proof (Ascii.N_ascii_bounded c). lia. Qed.

Lemma code_inj (c c' : ascii) : code c = code c' -> c = c'.
Proof.
  unfold code. intros H.
  rewrite <- (Ascii.ascii_N_embedding c), <- (Ascii.ascii_N_embedding c'). now rewrite H.
Qed.

(** The UTF-8 encoding loses nothing. *)
Lemma utf8_inj (s s' : string) : Sha1.utf8 s = Sha1.utf8 s' -> s = s'.
Proof.
  revert s'. induction s as [|c s IH]; intros [|c' s']; cbn.
  - reflexivity.
  - destruct (Z.of_N (code c') <? 128); discriminate.
  - destruct (Z.of_N (code c) <? 128); discriminate.
  - pose proof (code_bound c) as Hc. pose proof (code_bound c') as Hc'.
    destruct (Z.of_N (code c) <? 128) eqn:H1, (Z.of_N (code c') <? 128) eqn:H2.
    + intros [= Heq1 Heq2]. f_equal; [apply code_inj; lia | now apply IH].
    + intros [= Heq1 _]. exfalso. apply Z.ltb_lt in H1.
      pose proof (Z.div_pos (Z.of_N (code c')) 64). lia.
    + intros [= Heq1 _]. exfalso. apply Z.ltb_lt in H2.
      pose proof (Z.div_pos (Z.of_N (code c)) 64). lia.
    + intros [= Heq1 Heq2 Heq3].
      f_equal; [|now apply IH]. apply code_inj.
      pose proof (Z.div_mod (Z.of_N (code c)) 64).
      pose proof (Z.div_mod (Z.of_N (code c')) 64). lia.
Qed.

Lemma app_inv_r (s s' x : string) : s +:+ x = s' +:+ x -> s = s'.
Proof.
  revert s'. induction s as [|c s IH]; intros [|c' s'] H.
  - reflexivity.
  - exfalso. apply (f_equal String.length) in H.
    rewrite app_empty_l, app_String in H. cbn in H. rewrite length_app in H. lia.
  - exfalso. apply (f_equal String.length) in H.
    rewrite app_empty_l, app_String in H. cbn in H. rewrite length_app in H. lia.
  - rewrite !app_String in H. injection H as -> H. f_equal. now apply IH.
Qed.

Lemma app_inv_l (x s s' : string) : x +:+ s = x +:+ s' -> s = s'.
Proof.
  induction x as [|c x IH]; [easy|]. rewrite !app_String. intros [= H]. now apply IH.
Qed.

(** The text that is hashed changes with each of its three components. *)
Lemma chunk_raw_one_differs a b :
  one_differs a b ->
  Indexer.chunk_raw a.1.1 a.1.2 a.2 <> Indexer.chunk_raw b.1.1 b.1.2 b.2.
Proof.
  destruct a as [[r p] t], b as [[r' p'] t']. unfold Indexer.chunk_raw. cbn.
  intros [(Hr & <- & <-) | [(<- & Hp & <-) | (<- & <- & Ht)]] Heq.
  - apply Hr. eapply app_inv_r. exact Heq.
  - apply Hp. apply app_inv_l in Heq. apply app_inv_l in Heq.
    eapply app_inv_r. exact Heq.
  - apply Ht. do 4 apply app_inv_l in Heq. exact Heq.
Qed.

(** C8. The chunk identifier is a function of the triple (repository URL,
    file path, chunk text) alone: it is the SHA-1 digest, in hexadecimal, of
    the UTF-8 bytes of the three joined by bars, so equal triples have equal
    identifiers. Two triples that differ in exactly one component are hashed
    from different byte strings; their identifiers can therefore be equal
    only through a collision of SHA-1. *)
Theorem make_chunk_id_content_addressed (a b : string * string * string) :
  let id x := Indexer.make_chunk_id x.1.1 x.1.2 x.2 in
  let bytes x := Sha1.utf8 (Indexer.chunk_raw x.1.1 x.1.2 x.2) in
  id a = Sha1.hexdigest (bytes a)
  /\ (a = b -> id a = id b)
  /\ (one_differs a b ->
      bytes a <> bytes b
      /\ (id a = id b -> sha1_collision (bytes a) (bytes b))).
Proof.
  cbv zeta. split; [reflexivity|]. split; [now intros ->|].
  intros Hdiff.
  assert (Hbytes : Sha1.utf8 (Indexer.chunk_raw a.1.1 a.1.2 a.2)
                   <> Sha1.utf8 (Indexer.chunk_raw b.1.1 b.1.2 b.2)).
  { intros H. apply utf8_inj in H. now apply (chunk_raw_one_differs a b). }
  split; [exact Hbytes|]. intros Hid. split; [exact Hbytes | exact Hid].
Qed.

End ChunkIdSpec.

(** The same chunk of the same repository under two paths. *)
Lemma make_chunk_id_content_addressed_witness :
  Sha1.utf8 (Indexer.chunk_raw Demo.url "readme.md" "hello")
  <> Sha1.utf8 (Indexer.chunk_raw Demo.url "docs/readme.md" "hello")
  /\ Indexer.make_chunk_id Demo.url "readme.md" "hello"
     = "bc1394b8cf71d2e96445aebc0e84defbaae2f47a"
  /\ Indexer.make_chunk_id Demo.url "docs/readme.md" "hello"
     <> Indexer.make_chunk_id Demo.url "readme.md" "hello".
Proof.
  destruct (make_chunk_id_content_addressed
              (Demo.url, "readme.md", "hello") (Demo.url, "docs/readme.md", "hello"))
    as (_ & _ & Hdiff).
  destruct Hdiff as [Hbytes _].
  - right. left. repeat split. discriminate.
  - split; [exact Hbytes|]. split; [vm_compute; reflexivity|].
    vm_compute. discriminate.
Defined.

(* ===================================================================== *)
(** * Theorems: the question-answering flow *)
(* ===================================================================== *)

Section QnaSpec.
Context `{E : Env}.
Import PyStr.

(** A step of a sequence that ended well ended well itself. *)
Lemma bind_Ok {A B} (m : M A) (k : A -> M B) st b st' :
  bind m k st = (Ok b, st') ->
  exists a st1, m st = (Ok a, st1) /\ k a st1 = (Ok b, st').
Proof.
  unfold bind. destruct (m st) as [[a|e] st1]; [|discriminate].
  intros H. now exists a, st1.
Qed.

(** Fetching the repository touches the world only. *)
Lemma indexer_get_repo_path_state repo_url st r st' :
  Indexer.get_repo_path repo_url st = (r, st') ->
  exists w, st' = with_world w st.
Proof.
  unfold Indexer.get_repo_path, bind, os_path_exists, run_exec, ret, raise.
  destruct (path_exists _ _); cbn [negb].
  - destruct (exec _ _) as [code w]. intros [= _ <-]. now exists w.
  - destruct (exec _ _) as [code w]. destruct (code =? 0); intros [= _ <-]; now exists w.
Qed.

Lemma find_docs_state repo_path st : (Indexer.find_docs repo_path st).2 = st.
Proof. reflexivity. Qed.

(** Indexing that gets as far as the store answers [True]. *)
Lemma index_docs_true repo_url docs st b st' :
  Indexer.index_docs repo_url docs st = (Ok b, st') -> b = true.
Proof.
  unfold Indexer.index_docs. intros H.
  apply bind_Ok in H as (col & s1 & _ & H).
  apply bind_Ok in H as ([col' [broken ok]] & s2 & _ & H).
  apply bind_Ok in H as (col'' & s3 & _ & H).
  apply bind_Ok in H as (counters & s4 & _ & H).
  apply bind_Ok in H as (n & s5 & _ & H).
  unfold ret in H. now injection H as <- _.
Qed.

(** Indexing answers [False] only for want of documents, before any call
    on the store. *)
Lemma index_repo_false repo_url st st' :
  Indexer.index_repo repo_url st = (Ok false, st') ->
  exists w, st' = with_world w st.
Proof.
  unfold Indexer.index_repo. intros H.
  apply bind_Ok in H as (repo_path & s1 & Hpath & H).
  apply indexer_get_repo_path_state in Hpath as [w ->].
  apply bind_Ok in H as (docs & s2 & Hdocs & H).
  pose proof (find_docs_state repo_path (with_world w st)) as Hs.
  rewrite Hdocs in Hs. cbn in Hs. subst s2.
  destruct docs as [|d docs].
  - unfold ret in H. injection H as <-. now exists w.
  - apply index_docs_true in H. discriminate.
Qed.

(** C6, as amended. In a QnA request in which indexing the repository fails
    ([index_repo] returns [False]), [prepare_qna_inputs] returns the query
    with an empty context; up to there the vector store and the chat
    completion service have not been called. The endpoint then goes on: with
    a credential configured it calls the chat completion service exactly
    once, with the prompt built from an empty content, and answers with what
    it gets and no chunks. *)
Theorem qna_after_failed_indexing
        (req : Main.QnaRequest) (st sA sB sC : State) (p1 p2 key : string) :
  Indexer.get_repo_path (Main.repo_url req) st = (Ok p1, sA) ->
  Indexer.get_repo_path (Main.repo_url req) sA = (Ok p2, sB) ->
  Indexer.index_repo (Main.repo_url req) sB = (Ok false, sC) ->
  GROQ_API_KEY = Some key ->
  truthy key = true ->
  Qna.prepare_qna_inputs (Main.repo_url req) (Main.query req) sA
  = (Ok [("query", PStr (Main.query req)); ("context", PList [])], sC)
  /\ store_log sC = store_log st
  /\ llm_log sC = llm_log st
  /\ exists answer sD,
      Main.qna req st = (Ok (Main.QnaResponse answer []), sD)
      /\ llm_log sD = llm_log st ++ [qna_messages (Main.qna_prompt (Main.query req) "")]
      /\ store_log sD = store_log st.
Proof.
  intros H1 H2 H3 Hkey Htruthy.
  assert (Hprep : Qna.prepare_qna_inputs (Main.repo_url req) (Main.query req) sA
                  = (Ok [("query", PStr (Main.query req)); ("context", PList [])], sC)).
  { unfold Qna.prepare_qna_inputs, bind. now rewrite H2, H3. }
  pose proof H1 as [wA ->]%indexer_get_repo_path_state.
  pose proof H2 as [wB ->]%indexer_get_repo_path_state.
  pose proof H3 as [wC ->]%index_repo_false.
  split; [exact Hprep|]. split; [reflexivity|]. split; [reflexivity|].
  unfold Main.qna, try_except, bind at 1. rewrite H1.
  unfold bind at 1. rewrite Hprep.
  cbn [Dict.get String.eqb Ascii.eqb Bool.eqb firstn Main.chunk_texts].
  rewrite firstn_nil. cbn [Main.chunk_texts].
  unfold bind at 1, ret at 1. cbn [String.concat].
  unfold bind at 1, Agent.call_llm, bind at 1, Agent.get_llm.
  rewrite Hkey, Htruthy. unfold ret at 1, try_except, bind, chat_invoke.
  cbn [world with_world].
  destruct (llm_invoke _ wC) as [[msg|e] wD]; unfold ret; eexists _, _;
    (split; [reflexivity|]); split; reflexivity.
Qed.

End QnaSpec.

(** A request about a repository without documentation files: indexing
    fails, the endpoint answers with no chunks and one call is logged. *)
Lemma qna_after_failed_indexing_witness :
  let st := Demo.initial Demo.undocumented in
  exists answer sD,
    @Main.qna (Demo.env Demo.undocumented)
      {| Main.repo_url := Demo.url; Main.query := "How do I install it?";
         Main.top_k := 5 |} st
    = (Ok (Main.QnaResponse answer []), sD)
    /\ length (llm_log sD) = 1%nat.
Proof.
  cbv zeta.
  edestruct (@qna_after_failed_indexing (Demo.env Demo.undocumented)
               {| Main.repo_url := Demo.url; Main.query := "How do I install it?";
                  Main.top_k := 5 |}
               (Demo.initial Demo.undocumented))
    as (_ & _ & _ & answer & sD & Hrun & Hlog & _).
  - reflexivity.
  - reflexivity.
  - reflexivity.
  - reflexivity.
  - reflexivity.
  - exists answer, sD. split; [exact Hrun|]. rewrite Hlog. reflexivity.
Defined.

(** The claim C6 as it was stated fails for a repository without
    documentation files: [index_repo] returns [False], and the request still
    reaches the chat completion service, once, before it is answered. *)
Lemma qna_calls_llm_after_failed_indexing :
  let E := Demo.env Demo.undocumented in
  let st := Demo.initial Demo.undocumented in
  let req := {| Main.repo_url := Demo.url; Main.query := "How do I install it?";
                Main.top_k := 5 |} in
  (@Indexer.index_repo E Demo.url st).1 = Ok false
  /\ (@Main.qna E req st).1
     = Ok (Main.QnaResponse
             "I cannot find the relevant information in the README content." [])
  /\ llm_log st = []
  /\ llm_log (@Main.qna E req st).2
     = [qna_messages (Main.qna_prompt "How do I install it?" "")]
  /\ ~ (llm_log (@Main.qna E req st).2 = llm_log st).
Proof. vm_compute. repeat split. discriminate. Qed.

(* ===================================================================== *)
(** * Theorems: indexing and the reset policy *)
(* ===================================================================== *)

Section StoreFacts.
Context `{E : Env}.
Import PyStr.

Lemma store_steps_refl st : store_steps st st [].
Proof. unfold store_steps. now rewrite app_nil_r. Qed.

Lemma store_steps_trans st1 st2 st3 ops ops' :
  store_steps st1 st2 ops -> store_steps st2 st3 ops' ->
  store_steps st1 st3 (ops ++ ops').
Proof.
  unfold store_steps. intros (L1 & W1 & C1) (L2 & W2 & C2).
  rewrite L2, L1, W2, W1, C2, C1, app_assoc. auto.
Qed.

Lemma next_fault_none faults :
  Forall (fun b => b = false) faults ->
  (Indexer.next_fault faults).1 = false
  /\ Forall (fun b => b = false) (Indexer.next_fault faults).2.
Proof.
  destruct faults as [|b faults]; cbn; [auto|].
  intros H. inversion H; subst. auto.
Qed.

Lemma same_elsewhere_refl name st : same_elsewhere name st st.
Proof. repeat split. Qed.

Lemma same_elsewhere_trans name st1 st2 st3 :
  same_elsewhere name st1 st2 -> same_elsewhere name st2 st3 ->
  same_elsewhere name st1 st3.
Proof.
  intros (W1 & L1 & C1) (W2 & L2 & C2). split; [congruence|]. split; [congruence|].
  intros n Hn. now rewrite C2, C1.
Qed.

Lemma store_steps_same_elsewhere name st st' ops :
  store_steps st st' ops ->
  (forall n, n <> name -> chroma st' !! n = chroma st !! n) ->
  same_elsewhere name st st'.
Proof. intros (_ & W & L) H. now split. Qed.

(** Opening a collection that is there, or under a name that the store
    accepts: it is there afterwards, as it was or empty. *)
Lemma get_or_create_spec name st :
  collection_name_ok name = true \/ is_Some (chroma st !! name) ->
  exists st' ops,
    Indexer._get_or_create_collection name st = (Ok name, st')
    /\ store_steps st st' ops
    /\ read_faults st' = read_faults st
    /\ Forall (fun op => is_upsert op = false) ops
    /\ match chroma st !! name with
       | Some c => chroma st' = chroma st
                   /\ Forall (fun op => is_drop_or_create op = false) ops
       | None => chroma st' = <[name := ∅]> (chroma st)
                 /\ ops = [OpGetCollection name; OpCreateCollection name]
       end.
Proof.
  intros Hok.
  unfold Indexer._get_or_create_collection, try_except,
    Indexer.client_get_collection, Indexer.client_create_collection.
  cbn [chroma log_store].
  destruct (chroma st !! name) as [c|] eqn:Hc.
  - eexists _, [OpGetCollection name]. split; [reflexivity|].
    repeat split; repeat constructor.
  - destruct Hok as [Hok | [c Hc']]; [|discriminate].
    rewrite Hok. cbn [negb chroma log_store]. rewrite Hc.
    eexists _, [OpGetCollection name; OpCreateCollection name].
    split; [reflexivity|]. cbn. unfold store_steps. cbn.
    rewrite <- app_assoc. repeat split; repeat constructor.
Qed.

(** Opening a collection that is not there under a name that the store
    refuses: the error of the store is raised. *)
Lemma get_or_create_refused name st :
  chroma st !! name = None ->
  collection_name_ok name = false ->
  Indexer._get_or_create_collection name st
  = (Raise "the store refuses the collection name",
     log_store (OpCreateCollection name) (log_store (OpGetCollection name) st)).
Proof.
  intros Hc Hno.
  unfold Indexer._get_or_create_collection, try_except,
    Indexer.client_get_collection, Indexer.client_create_collection.
  cbn [chroma log_store]. now rewrite Hc, Hno.
Qed.

(** Dropping a collection, whether it was there or not. *)
Lemma reset_collection_spec name st :
  exists st',
    Indexer._reset_collection name st = (Ok tt, st')
    /\ store_steps st st' [OpDeleteCollection name]
    /\ read_faults st' = read_faults st
    /\ chroma st' = delete name (chroma st).
Proof.
  unfold Indexer._reset_collection, try_except, Indexer.client_delete_collection, ret.
  cbn [chroma log_store].
  destruct (chroma st !! name) as [c|] eqn:Hc.
  - eexists. split; [reflexivity|]. repeat split.
  - eexists. split; [reflexivity|]. repeat split. cbn.
    symmetry. now apply delete_id.
Qed.

(** Dropping and opening again leaves the collection empty. *)
Lemma reset_and_reopen_spec name st :
  collection_name_ok name = true ->
  exists st',
    bind (Indexer._reset_collection name)
         (fun _ => Indexer._get_or_create_collection name) st = (Ok name, st')
    /\ store_steps st st'
         [OpDeleteCollection name; OpGetCollection name; OpCreateCollection name]
    /\ read_faults st' = read_faults st
    /\ chroma st' = <[name := ∅]> (delete name (chroma st)).
Proof.
  intros Hok.
  destruct (reset_collection_spec name st) as (s1 & Hreset & Hsteps1 & Hf1 & Hc1).
  destruct (get_or_create_spec name s1 (or_introl Hok))
    as (s2 & ops & Hopen & Hsteps2 & Hf2 & _ & Hc2).
  rewrite Hc1, lookup_delete_eq in Hc2. destruct Hc2 as [Hc2 ->].
  exists s2. unfold bind. rewrite Hreset, Hopen. split; [reflexivity|].
  split; [exact (store_steps_trans _ _ _ _ _ Hsteps1 Hsteps2)|].
  split; [congruence|]. exact Hc2.
Qed.

Lemma reset_and_reopen_frame name st :
  collection_name_ok name = true ->
  exists st',
    bind (Indexer._reset_collection name)
         (fun _ => Indexer._get_or_create_collection name) st = (Ok name, st')
    /\ same_elsewhere name st st'
    /\ read_faults st' = read_faults st
    /\ chroma st' !! name = Some ∅.
Proof.
  intros Hok.
  destruct (reset_and_reopen_spec name st Hok) as (st' & Hrun & Hsteps & Hf & Hc).
  exists st'. split; [exact Hrun|]. split; [|split; [exact Hf|]].
  - apply (store_steps_same_elsewhere _ _ _ _ Hsteps). intros n Hn.
    rewrite Hc, lookup_insert_ne, lookup_delete_ne by congruence. reflexivity.
  - now rewrite Hc, lookup_insert_eq.
Qed.

End StoreFacts.

Section AssessFacts.
Context `{E : Env}.
Import PyStr.

(** Every call of [col.get] is logged, uses up one fault and changes
    nothing else. *)
Lemma col_get_steps col ids st :
  store_steps st (Indexer.col_get col ids st).2 [OpGet col ids]
  /\ chroma (Indexer.col_get col ids st).2 = chroma st
  /\ read_faults (Indexer.col_get col ids st).2 = (Indexer.next_fault (read_faults st)).2.
Proof.
  unfold Indexer.col_get. cbn [read_faults log_store].
  destruct (Indexer.next_fault (read_faults st)) as [fault faults'].
  destruct fault; [repeat split|].
  change (chroma (with_faults faults' (log_store (OpGet col ids) st))) with (chroma st).
  destruct (chroma st !! col); repeat split.
Qed.

Lemma col_get_frame name ids st :
  same_elsewhere name st (Indexer.col_get name ids st).2
  /\ chroma (Indexer.col_get name ids st).2 = chroma st.
Proof.
  destruct (col_get_steps name ids st) as (Hsteps & Hc & _). split; [|exact Hc].
  apply (store_steps_same_elsewhere _ _ _ _ Hsteps). intros n _. now rewrite Hc.
Qed.

(** A read either raises or returns what the collection holds. *)
Lemma col_get_result col ids st c :
  chroma st !! col = Some c ->
  (Indexer.col_get col ids st).1
  = Ok ((found_in c ids).*1, Numpy.Array (found_in c ids).*2)
  \/ exists e, (Indexer.col_get col ids st).1 = Raise e.
Proof.
  intros Hc. unfold Indexer.col_get. cbn [read_faults log_store].
  destruct (Indexer.next_fault (read_faults st)) as [fault faults'].
  destruct fault; [right; eauto|].
  change (chroma (with_faults faults' (log_store (OpGet col ids) st))) with (chroma st).
  rewrite Hc. now left.
Qed.

(** A read that does not raise returns what the collection holds. *)
Lemma col_get_found col ids st c :
  no_faults st ->
  chroma st !! col = Some c ->
  (Indexer.col_get col ids st).1
  = Ok ((found_in c ids).*1, Numpy.Array (found_in c ids).*2)
  /\ no_faults (Indexer.col_get col ids st).2.
Proof.
  intros Hnf Hc. unfold Indexer.col_get, no_faults. cbn [read_faults log_store].
  destruct (next_fault_none _ Hnf) as [Hfault Hrest].
  destruct (Indexer.next_fault (read_faults st)) as [fault faults'].
  cbn in Hfault, Hrest. subst fault.
  change (chroma (with_faults faults' (log_store (OpGet col ids) st))) with (chroma st).
  rewrite Hc. split; [reflexivity | exact Hrest].
Qed.

Lemma fold_insert_lookup_Some (l : list (string * list Q)) (m : gmap string (list Q)) k v :
  fold_left (fun m '(i, e) => <[i := e]> m) l m !! k = Some v ->
  (k, v) ∈ l \/ m !! k = Some v.
Proof.
  revert m. induction l as [|[i e] l IH]; intros m; cbn; [auto|].
  intros H. destruct (IH _ H) as [Hin | Hm].
  - left. now right.
  - destruct (decide (i = k)) as [->|Hne].
    + rewrite lookup_insert_eq in Hm. injection Hm as ->. left. left.
    + rewrite lookup_insert_ne in Hm by exact Hne. now right.
Qed.

Lemma fold_insert_lookup_is_Some (l : list (string * list Q)) (m : gmap string (list Q)) k :
  k ∈ l.*1 \/ is_Some (m !! k) ->
  is_Some (fold_left (fun m '(i, e) => <[i := e]> m) l m !! k).
Proof.
  revert m. induction l as [|[i e] l IH]; intros m; cbn.
  - intros [H | H]; [inversion H | exact H].
  - intros [H | H]; apply IH.
    + apply elem_of_cons in H as [-> | H]; [right | now left].
      rewrite lookup_insert_eq. eauto.
    + right. destruct (decide (i = k)) as [->|Hne].
      * rewrite lookup_insert_eq. eauto.
      * now rewrite lookup_insert_ne.
Qed.

Lemma elem_of_found_in c ids k v :
  (k, v) ∈ found_in c ids <-> k ∈ ids /\ exists e, c !! k = Some e /\ v = e_embedding e.
Proof.
  unfold found_in. rewrite list_elem_of_omap. split.
  - intros (i & Hi & Hfound). destruct (c !! i) as [e|] eqn:He; [|discriminate].
    cbn in Hfound. injection Hfound as <- <-. eauto.
  - intros (Hk & e & He & ->). exists k. split; [exact Hk|]. now rewrite He.
Qed.

(** The dictionary built from a read agrees with the collection on the
    identifiers that were asked for. *)
Lemma by_id_of_lookup c ids cid :
  cid ∈ ids ->
  Indexer.by_id_of ((found_in c ids).*1, Numpy.Array (found_in c ids).*2) !! cid
  = e_embedding <$> c !! cid.
Proof.
  intros Hcid.
  assert (Hfold : Indexer.by_id_of ((found_in c ids).*1, Numpy.Array (found_in c ids).*2)
                  = fold_left (fun m '(i, e) => <[i := e]> m) (found_in c ids) ∅).
  { unfold Indexer.by_id_of, Numpy.len. cbn [Numpy.rows]. rewrite zip_fst_snd.
    destruct (found_in c ids) as [|[i e] l]; reflexivity. }
  rewrite Hfold. clear Hfold.
  destruct (c !! cid) as [e|] eqn:He; cbn.
  - assert (Hin : (cid, e_embedding e) ∈ found_in c ids)
      by (apply elem_of_found_in; eauto).
    destruct (fold_insert_lookup_is_Some (found_in c ids) ∅ cid) as [v Hv].
    { left. apply list_elem_of_fmap. now exists (cid, e_embedding e). }
    rewrite Hv. f_equal.
    apply fold_insert_lookup_Some in Hv as [Hv | Hv]; [|now rewrite lookup_empty in Hv].
    apply elem_of_found_in in Hv as (_ & e' & He' & ->). congruence.
  - destruct (fold_left _ _ _ !! cid) as [v|] eqn:Hv; [|reflexivity].
    apply fold_insert_lookup_Some in Hv as [Hv | Hv]; [|now rewrite lookup_empty in Hv].
    apply elem_of_found_in in Hv as (_ & e' & He' & _). congruence.
Qed.

Lemma assess_batch_classify c ids batch counts :
  batch ⊆ ids ->
  Indexer.assess_batch
    (Indexer.by_id_of ((found_in c ids).*1, Numpy.Array (found_in c ids).*2)) batch counts
  = fold_left (classify c) batch counts.
Proof.
  unfold Indexer.assess_batch. revert counts.
  induction batch as [|cid batch IH]; intros counts Hsub; [reflexivity|].
  cbn [fold_left]. rewrite IH by set_solver.
  f_equal. destruct counts as [b o]. unfold classify, broken_in.
  rewrite by_id_of_lookup by set_solver. reflexivity.
Qed.

Lemma assess_batch_total by_id batch broken ok :
  0 <= broken -> 0 <= ok ->
  let counts := Indexer.assess_batch by_id batch (broken, ok) in
  0 <= counts.1 /\ 0 <= counts.2
  /\ counts.1 + counts.2 = broken + ok + PyList.len batch.
Proof.
  unfold Indexer.assess_batch. revert broken ok.
  induction batch as [|cid batch IH]; intros broken ok Hb Ho.
  - cbn. unfold PyList.len. cbn. lia.
  - cbn [fold_left]. unfold PyList.len. cbn [length].
    destruct (Indexer.is_broken (by_id !! cid)).
    + specialize (IH (broken + 1) ok ltac:(lia) Ho). unfold PyList.len in IH.
      cbv zeta in IH |- *. lia.
    + specialize (IH broken (ok + 1) Hb ltac:(lia)). unfold PyList.len in IH.
      cbv zeta in IH |- *. lia.
Qed.

End AssessFacts.

Section PassOne.
Context `{E : Env}.
Import PyStr.

Lemma attempt_run {A} (m : M A) st : attempt m st = (Ok (m st).1, (m st).2).
Proof. unfold attempt. now destruct (m st). Qed.

(** Pass 1 when no read raises: every identifier is classified by what the
    collection holds, and the collection is only read. *)
Lemma assess_no_faults name ids batches counts st c :
  no_faults st ->
  chroma st !! name = Some c ->
  concat batches ⊆ ids ->
  exists st',
    Indexer.assess name ids batches name counts st
    = (Ok (name, fold_left (classify c) (concat batches) counts), st')
    /\ store_steps st st' (OpGet name <$> batches)
    /\ chroma st' = chroma st
    /\ no_faults st'.
Proof.
  revert counts st. induction batches as [|batch batches IH]; intros counts st Hnf Hc Hsub.
  - exists st. split; [reflexivity|]. split; [apply store_steps_refl|]. now split.
  - cbn [Indexer.assess]. unfold bind at 1. rewrite attempt_run.
    destruct (col_get_steps name batch st) as (Hsteps & Hchroma & _).
    destruct (col_get_found name batch st c Hnf Hc) as [Hres Hnf1].
    destruct (Indexer.col_get name batch st) as [r s1]; cbn [fst snd] in *. subst r.
    cbn [concat] in Hsub.
    destruct (IH (Indexer.assess_batch
                    (Indexer.by_id_of ((found_in c batch).*1,
                                       Numpy.Array (found_in c batch).*2))
                    batch counts) s1 Hnf1) as (s2 & -> & Hsteps2 & Hchroma2 & Hnf2).
    { now rewrite Hchroma. }
    { intros x Hx. apply Hsub, elem_of_app. now right. }
    exists s2. split.
    + rewrite assess_batch_classify by reflexivity.
      cbn [concat]. now rewrite fold_left_app.
    + split; [exact (store_steps_trans _ _ _ _ _ Hsteps Hsteps2)|].
      split; [congruence | exact Hnf2].
Qed.

Lemma batched_go_concat {A} (n fuel : nat) (l : list A) :
  (0 < n)%nat -> (length l <= fuel)%nat ->
  concat (PyList.batched_go fuel n l) = l.
Proof.
  intros Hn. revert l. induction fuel as [|fuel IH]; intros l Hlen.
  - destruct l; [reflexivity | cbn in Hlen; lia].
  - destruct l as [|x l]; [reflexivity|].
    cbn [PyList.batched_go concat]. rewrite IH.
    + apply firstn_skipn.
    + rewrite length_skipn. cbn [length] in *. lia.
Qed.

Lemma batched_concat {A} (l : list A) (n : nat) :
  (0 < n)%nat -> concat (PyList.batched l n) = l.
Proof. intros Hn. apply batched_go_concat; [exact Hn | reflexivity]. Qed.

Lemma classify_healthy c ids broken ok :
  Forall (fun cid => broken_in c cid = false) ids ->
  fold_left (classify c) ids (broken, ok) = (broken, ok + PyList.len ids).
Proof.
  intros H. revert ok. induction H as [|cid ids Hcid _ IH]; intros ok.
  - cbn. unfold PyList.len. cbn. f_equal. lia.
  - cbn [fold_left classify]. rewrite Hcid, IH. unfold PyList.len. cbn [length].
    f_equal. lia.
Qed.

(** Pass 1 under any reads, for a name that the store accepts: it ends,
    touches no other collection, and either every read went through, the
    collection is as it was and each identifier of the batches was counted
    once; or a read raised, the collection is empty and every identifier
    counts as broken. *)
Lemma assess_any name ids batches broken ok st :
  collection_name_ok name = true ->
  0 <= broken -> 0 <= ok ->
  exists broken' ok' st',
    Indexer.assess name ids batches name (broken, ok) st
    = (Ok (name, (broken', ok')), st')
    /\ same_elsewhere name st st'
    /\ 0 <= broken' /\ 0 <= ok'
    /\ ((chroma st' = chroma st
         /\ broken' + ok' = broken + ok + PyList.len (concat batches))
        \/ (chroma st' !! name = Some ∅
            /\ (broken', ok') = (PyList.len ids, 0))).
Proof.
  intros Hname.
  revert broken ok st. induction batches as [|batch batches IH]; intros broken ok st Hb Ho.
  - exists broken, ok, st. split; [reflexivity|]. split; [apply same_elsewhere_refl|].
    split; [exact Hb|]. split; [exact Ho|]. left. split; [reflexivity|].
    unfold PyList.len. cbn. lia.
  - cbn [Indexer.assess]. unfold bind at 1. rewrite attempt_run.
    destruct (col_get_frame name batch st) as (Hframe & Hchroma).
    destruct (Indexer.col_get name batch st) as [[existing|e] s1]; cbn [fst snd] in *.
    + destruct (assess_batch_total (Indexer.by_id_of existing) batch broken ok Hb Ho)
        as (Hb1 & Ho1 & Hsum).
      destruct (Indexer.assess_batch (Indexer.by_id_of existing) batch (broken, ok))
        as [b1 o1]; cbn [fst snd] in *.
      destruct (IH b1 o1 s1 Hb1 Ho1) as (b' & o' & s2 & -> & Hframe2 & Hb' & Ho' & Hcount).
      exists b', o', s2. split; [reflexivity|].
      split; [exact (same_elsewhere_trans _ _ _ _ Hframe Hframe2)|].
      split; [exact Hb'|]. split; [exact Ho'|].
      destruct Hcount as [[Hc Hcount] | Hcount]; [left | now right].
      split; [congruence|].
      cbn [concat]. unfold PyList.len in *. rewrite List.length_app. lia.
    + destruct (reset_and_reopen_frame name s1 Hname) as (s2 & Hreset & Hframe2 & _ & Hc2).
      unfold bind in Hreset |- *.
      destruct (Indexer._reset_collection name s1) as [[[]|e'] s1']; [|discriminate].
      rewrite Hreset. unfold ret.
      eexists _, _, s2. split; [reflexivity|].
      split; [exact (same_elsewhere_trans _ _ _ _ Hframe Hframe2)|].
      split; [unfold PyList.len; lia|]. split; [lia|]. right. now split.
Qed.

End PassOne.

Section Dimensions.
Context `{E : Env}.

Lemma has_dimension_spec d (c : gmap string entry) :
  Indexer.has_dimension d c = true
  <-> forall i e, c !! i = Some e -> PyList.len (e_embedding e) = d.
Proof.
  unfold Indexer.has_dimension. rewrite forallb_forall. split.
  - intros H i e Hie. apply Z.eqb_eq.
    apply (H (i, e)), list_elem_of_In, elem_of_map_to_list, Hie.
  - intros H [i e] Hin. apply Z.eqb_eq. apply (H i).
    now apply elem_of_map_to_list, list_elem_of_In.
Qed.

Lemma has_dimension_empty d : Indexer.has_dimension d ∅ = true.
Proof. apply has_dimension_spec. intros i e H. now rewrite lookup_empty in H. Qed.

Lemma has_dimension_insert d (c : gmap string entry) i e :
  Indexer.has_dimension d c = true ->
  PyList.len (e_embedding e) = d ->
  Indexer.has_dimension d (<[i := e]> c) = true.
Proof.
  rewrite !has_dimension_spec. intros Hc He j e' Hj.
  destruct (decide (i = j)) as [->|Hne].
  - rewrite lookup_insert_eq in Hj. now injection Hj as <-.
  - rewrite lookup_insert_ne in Hj by exact Hne. eauto.
Qed.

End Dimensions.

Section PassTwo.
Context `{E : Env}.
Import PyStr.

Lemma found_in_single (c : gmap string entry) cid :
  found_in c [cid]
  = match c !! cid with
    | Some e => [(cid, e_embedding e)]
    | None => []
    end.
Proof. unfold found_in. cbn. now destruct (c !! cid). Qed.

(** The truth value of the one row of an embedding of two numbers or more
    is an error. *)
Lemma truth_of_row (row : list Q) :
  (1 < length row)%nat ->
  exists e, Numpy.truth (Numpy.Array [row]) = Raise e.
Proof.
  destruct row as [|x [|y row]]; cbn [length]; try lia. intros _.
  unfold Numpy.truth. cbn. eauto.
Qed.

(** The write of pass 2, into a collection of the dimension of the
    vector. *)
Lemma col_upsert_accepted repo_url name fname chunk cid st c :
  chroma st !! name = Some c ->
  Indexer.has_dimension (PyList.len (model_encode chunk)) c = true ->
  Indexer.col_upsert name cid chunk
    [("repo", PStr repo_url); ("path", PStr (lower fname))] (model_encode chunk) st
  = (Ok tt,
     with_chroma (<[name := <[cid := fresh_entry repo_url fname chunk]> c]> (chroma st))
       (log_store (OpUpsert name cid) st)).
Proof.
  intros Hc Hdim. unfold Indexer.col_upsert. cbn [chroma log_store].
  now rewrite Hc, Hdim.
Qed.

(** One entry of pass 2 under any read, when the collection accepts the
    vector: the entry is left when the read shows it well formed, and
    written otherwise. *)
Lemma upsert_if_needed_any repo_url name counters fname chunk cid st c :
  chroma st !! name = Some c ->
  Indexer.has_dimension (PyList.len (model_encode chunk)) c = true ->
  exists counters' st',
    Indexer.upsert_if_needed repo_url name counters (fname, chunk, cid) st
    = (Ok counters', st')
    /\ same_elsewhere name st st'
    /\ ((chroma st' = chroma st
         /\ exists e, c !! cid = Some e /\ PyList.len (e_embedding e) = Indexer.EMB_DIM)
        \/ chroma st'
           = <[name := <[cid := fresh_entry repo_url fname chunk]> c]> (chroma st)).
Proof.
  intros Hc Hdim. destruct counters as [[added skipped] repaired].
  unfold Indexer.upsert_if_needed, bind at 1. rewrite attempt_run.
  destruct (col_get_frame name [cid] st) as (Hframe & Hchroma).
  assert (Hwrite : forall s r : Z,
             exists counters' st',
               bind (Indexer.col_upsert name cid chunk
                       [("repo", PStr repo_url); ("path", PStr (lower fname))]
                       (model_encode chunk))
                    (fun _ => ret (added + 1, s, r)) (Indexer.col_get name [cid] st).2
               = (Ok counters', st')
               /\ same_elsewhere name st st'
               /\ chroma st'
                  = <[name := <[cid := fresh_entry repo_url fname chunk]> c]> (chroma st)).
  { intros s r. unfold bind.
    rewrite (col_upsert_accepted repo_url name fname chunk cid _ c)
      by (rewrite ?Hchroma; assumption).
    unfold ret. eexists _, _. split; [reflexivity|]. split.
    - apply (same_elsewhere_trans _ _ _ _ Hframe).
      split; [reflexivity|]. split; [reflexivity|].
      intros n Hn. cbn. rewrite lookup_insert_ne by congruence. now rewrite Hchroma.
    - cbn. now rewrite Hchroma. }
  destruct (col_get_result name [cid] st c Hc) as [Hread | [e Hread]]; rewrite Hread.
  - rewrite found_in_single.
    destruct (c !! cid) as [e|] eqn:He; cbn [fmap list_fmap fst snd].
    + unfold Indexer.check_existing.
      destruct (Numpy.truth (Numpy.Array [e_embedding e])) as [[]|err].
      * cbn [Numpy.rows head].
        destruct (PyList.len (e_embedding e) =? Indexer.EMB_DIM) eqn:Hlen.
        -- unfold ret. eexists _, _. split; [reflexivity|]. split; [exact Hframe|].
           left. split; [exact Hchroma|]. exists e. split; [reflexivity|].
           now apply Z.eqb_eq.
        -- destruct (Hwrite skipped (repaired + 1)) as (c1 & s1 & Hrun & Hf & Hc1).
           exists c1, s1. split; [exact Hrun|]. split; [exact Hf | now right].
      * destruct (Hwrite skipped (repaired + 1)) as (c1 & s1 & Hrun & Hf & Hc1).
        exists c1, s1. split; [exact Hrun|]. split; [exact Hf | now right].
      * destruct (Hwrite skipped repaired) as (c1 & s1 & Hrun & Hf & Hc1).
        exists c1, s1. split; [exact Hrun|]. split; [exact Hf | now right].
    + destruct (Hwrite skipped repaired) as (c1 & s1 & Hrun & Hf & Hc1).
      exists c1, s1. split; [exact Hrun|]. split; [exact Hf | now right].
  - destruct (Hwrite skipped repaired) as (c1 & s1 & Hrun & Hf & Hc1).
    exists c1, s1. split; [exact Hrun|]. split; [exact Hf | now right].
Qed.

(** One entry of pass 2 when the read does not raise and finds an embedding
    of two numbers or more: the entry is written, whatever its dimension,
    and counted as added, neither as skipped nor as repaired. *)
Lemma upsert_if_needed_rewrites repo_url name added skipped repaired
      fname chunk cid st c e :
  no_faults st ->
  chroma st !! name = Some c ->
  c !! cid = Some e ->
  (1 < length (e_embedding e))%nat ->
  Indexer.has_dimension (PyList.len (model_encode chunk)) c = true ->
  exists st',
    Indexer.upsert_if_needed repo_url name (added, skipped, repaired) (fname, chunk, cid) st
    = (Ok (added + 1, skipped, repaired), st')
    /\ no_faults st'
    /\ store_steps st st' [OpGet name [cid]; OpUpsert name cid]
    /\ chroma st'
       = <[name := <[cid := fresh_entry repo_url fname chunk]> c]> (chroma st).
Proof.
  intros Hnf Hc He Hsize Hdim.
  unfold Indexer.upsert_if_needed, bind at 1. rewrite attempt_run.
  destruct (col_get_steps name [cid] st) as (Hsteps & Hchroma & _).
  destruct (col_get_found name [cid] st c Hnf Hc) as [Hres Hnf1].
  rewrite Hres, found_in_single, He. cbn [fmap list_fmap fst snd].
  unfold Indexer.check_existing.
  destruct (truth_of_row (e_embedding e) Hsize) as [err ->].
  unfold bind.
  rewrite (col_upsert_accepted repo_url name fname chunk cid _ c)
    by (rewrite ?Hchroma; assumption).
  unfold ret. eexists. split; [reflexivity|]. split; [exact Hnf1|]. split.
  - refine (store_steps_trans _ _ _ _ _ Hsteps _). repeat split.
  - cbn. now rewrite Hchroma.
Qed.

(** Pass 2 under any reads, over a collection of the dimension of the
    model: it ends, touches no other collection, removes nothing, keeps
    the dimension and leaves every identifier of the worklist stored. *)
Lemma upsert_pass_any repo_url name worklist :
  (forall text, PyList.len (model_encode text) = Indexer.EMB_DIM) ->
  forall counters st c,
    chroma st !! name = Some c ->
    Indexer.has_dimension Indexer.EMB_DIM c = true ->
    exists counters' st' c',
      mfold (Indexer.upsert_if_needed repo_url name) worklist counters st
      = (Ok counters', st')
      /\ same_elsewhere name st st'
      /\ chroma st' !! name = Some c'
      /\ Indexer.has_dimension Indexer.EMB_DIM c' = true
      /\ (forall cid, is_Some (c !! cid) -> is_Some (c' !! cid))
      /\ (forall cid, cid ∈ worklist.*2 -> is_Some (c' !! cid))
      /\ (forall cid, cid ∉ worklist.*2 -> c' !! cid = c !! cid).
Proof.
  intros Hmodel.
  induction worklist as [|[[fname chunk] cid0] worklist IH]; intros counters st c Hc Hdim.
  - exists counters, st, c. split; [reflexivity|]. split; [apply same_elsewhere_refl|].
    split; [exact Hc|]. split; [exact Hdim|]. split; [auto|]. split; [|auto].
    intros cid Hin. inversion Hin.
  - cbn [mfold]. unfold bind at 1.
    destruct (upsert_if_needed_any repo_url name counters fname chunk cid0 st c Hc)
      as (counters1 & s1 & -> & Hframe1 & Hcase); [now rewrite Hmodel|].
    destruct Hcase as [[Hc1 (e & He & Hlen)] | Hc1].
    + destruct (IH counters1 s1 c ltac:(now rewrite Hc1) Hdim)
        as (counters' & s2 & c' & -> & Hframe2 & Hc' & Hdim' & Hkeep & Hall & Hout).
      exists counters', s2, c'. split; [reflexivity|].
      split; [exact (same_elsewhere_trans _ _ _ _ Hframe1 Hframe2)|].
      split; [exact Hc'|]. split; [exact Hdim'|]. split; [exact Hkeep|]. split.
      * intros cid. cbn [fmap list_fmap snd]. rewrite elem_of_cons.
        intros [-> | Hin]; [|now apply Hall]. apply Hkeep. eauto.
      * intros cid Hnot. apply Hout. intros Hin. apply Hnot. now right.
    + destruct (IH counters1 s1 (<[cid0 := fresh_entry repo_url fname chunk]> c))
        as (counters' & s2 & c' & -> & Hframe2 & Hc' & Hdim' & Hkeep & Hall & Hout).
      { now rewrite Hc1, lookup_insert_eq. }
      { apply has_dimension_insert; [exact Hdim | apply Hmodel]. }
      exists counters', s2, c'. split; [reflexivity|].
      split; [exact (same_elsewhere_trans _ _ _ _ Hframe1 Hframe2)|].
      split; [exact Hc'|]. split; [exact Hdim'|]. split; [|split].
      * intros cid Hs. apply Hkeep.
        destruct (decide (cid0 = cid)) as [->|Hne].
        -- rewrite lookup_insert_eq. eauto.
        -- now rewrite lookup_insert_ne.
      * intros cid. cbn [fmap list_fmap snd]. rewrite elem_of_cons.
        intros [-> | Hin]; [|now apply Hall].
        apply Hkeep. rewrite lookup_insert_eq. eauto.
      * intros cid Hnot. rewrite Hout.
        -- apply lookup_insert_ne. intros ->. apply Hnot. left.
        -- intros Hin. apply Hnot. now right.
Qed.

(** Pass 2 over a collection that already holds, for each chunk of the
    worklist, the entry that is written for it: whether an entry is left or
    written again, the store holds afterwards what it held. *)
Lemma upsert_pass_same repo_url name worklist :
  (forall text, PyList.len (model_encode text) = Indexer.EMB_DIM) ->
  forall counters st c,
    chroma st !! name = Some c ->
    Indexer.has_dimension Indexer.EMB_DIM c = true ->
    (forall fname chunk cid,
        (fname, chunk, cid) ∈ worklist -> c !! cid = Some (fresh_entry repo_url fname chunk)) ->
    exists counters' st',
      mfold (Indexer.upsert_if_needed repo_url name) worklist counters st
      = (Ok counters', st')
      /\ same_elsewhere name st st'
      /\ chroma st' = chroma st.
Proof.
  intros Hmodel.
  induction worklist as [|[[fname chunk] cid0] worklist IH];
    intros counters st c Hc Hdim Hheld.
  - exists counters, st. split; [reflexivity|]. split; [apply same_elsewhere_refl | reflexivity].
  - cbn [mfold]. unfold bind at 1.
    destruct (upsert_if_needed_any repo_url name counters fname chunk cid0 st c Hc)
      as (counters1 & s1 & -> & Hframe1 & Hcase); [now rewrite Hmodel|].
    assert (Hc1 : chroma s1 = chroma st).
    { destruct Hcase as [[Hc1 _] | Hc1]; [exact Hc1|].
      rewrite Hc1, (insert_id c) by (apply Hheld; left). now apply insert_id. }
    destruct (IH counters1 s1 c ltac:(now rewrite Hc1) Hdim)
      as (counters' & s2 & -> & Hframe2 & Hc2).
    { intros f ch i Hin. apply Hheld. now right. }
    exists counters', s2. split; [reflexivity|].
    split; [exact (same_elsewhere_trans _ _ _ _ Hframe1 Hframe2) | congruence].
Qed.

(** Pass 2 when no read raises, over a collection of the dimension of the
    model, at least 2, that holds an entry for every identifier of the
    worklist: each entry is read and then written, and counted as added. *)
Lemma upsert_pass_rewrites repo_url name worklist :
  (forall text, PyList.len (model_encode text) = Indexer.EMB_DIM) ->
  1 < Indexer.EMB_DIM ->
  forall added skipped repaired st c,
    no_faults st ->
    chroma st !! name = Some c ->
    Indexer.has_dimension Indexer.EMB_DIM c = true ->
    (forall cid, cid ∈ worklist.*2 -> is_Some (c !! cid)) ->
    exists st',
      mfold (Indexer.upsert_if_needed repo_url name) worklist (added, skipped, repaired) st
      = (Ok (added + PyList.len worklist, skipped, repaired), st')
      /\ store_steps st st'
           (flat_map (fun cid => [OpGet name [cid]; OpUpsert name cid]) worklist.*2).
Proof.
  intros Hmodel Hbig.
  induction worklist as [|[[fname chunk] cid0] worklist IH];
    intros added skipped repaired st c Hnf Hc Hdim Hfound.
  - exists st. cbn [mfold]. split; [|apply store_steps_refl].
    unfold ret. replace (added + PyList.len (@nil (string * string * string))) with added
      by (unfold PyList.len; cbn; lia). reflexivity.
  - cbn [mfold]. unfold bind at 1.
    destruct (Hfound cid0 ltac:(left)) as [e He].
    assert (Hsize : (1 < length (e_embedding e))%nat).
    { apply has_dimension_spec with (i := cid0) (e := e) in Hdim; [|exact He].
      unfold PyList.len in Hdim. lia. }
    destruct (upsert_if_needed_rewrites repo_url name added skipped repaired
                fname chunk cid0 st c e Hnf Hc He Hsize)
      as (s1 & -> & Hnf1 & Hsteps1 & Hc1); [now rewrite Hmodel|].
    destruct (IH (added + 1) skipped repaired s1
                (<[cid0 := fresh_entry repo_url fname chunk]> c) Hnf1)
      as (s2 & -> & Hsteps2).
    { now rewrite Hc1, lookup_insert_eq. }
    { apply has_dimension_insert; [exact Hdim | apply Hmodel]. }
    { intros cid Hin. destruct (decide (cid0 = cid)) as [->|Hne].
      - rewrite lookup_insert_eq. eauto.
      - rewrite lookup_insert_ne by exact Hne. apply Hfound. now right. }
    exists s2. split.
    + replace (added + PyList.len ((fname, chunk, cid0) :: worklist))
        with (added + 1 + PyList.len worklist)
        by (unfold PyList.len; cbn [length]; lia). reflexivity.
    + exact (store_steps_trans _ _ _ _ _ Hsteps1 Hsteps2).
Qed.

End PassTwo.

Section ResetPolicy.
Context `{E : Env}.
Import PyStr.

Lemma reset_if_broken_spec name broken ok st :
  collection_name_ok name = true ->
  exists st' ops,
    Indexer.reset_if_broken name name broken ok st = (Ok name, st')
    /\ store_steps st st' ops
    /\ read_faults st' = read_faults st
    /\ if Indexer.must_reset broken ok then
         ops = [OpDeleteCollection name; OpGetCollection name; OpCreateCollection name]
         /\ chroma st' !! name = Some ∅
       else ops = [] /\ st' = st.
Proof.
  intros Hname. unfold Indexer.reset_if_broken. destruct (Indexer.must_reset broken ok).
  - destruct (reset_and_reopen_spec name st Hname) as (st' & Hrun & Hsteps & Hf & Hc).
    exists st', [OpDeleteCollection name; OpGetCollection name; OpCreateCollection name].
    split; [exact Hrun|]. split; [exact Hsteps|]. split; [exact Hf|].
    split; [reflexivity|]. now rewrite Hc, lookup_insert_eq.
  - exists st, []. split; [reflexivity|]. split; [apply store_steps_refl|]. auto.
Qed.

Lemma reset_if_broken_frame name broken ok st :
  collection_name_ok name = true ->
  exists st',
    Indexer.reset_if_broken name name broken ok st = (Ok name, st')
    /\ same_elsewhere name st st'
    /\ (st' = st \/ chroma st' !! name = Some ∅).
Proof.
  intros Hname. unfold Indexer.reset_if_broken. destruct (Indexer.must_reset broken ok).
  - destruct (reset_and_reopen_frame name st Hname) as (st' & Hrun & Hframe & _ & Hc').
    exists st'. split; [exact Hrun|]. split; [exact Hframe | now right].
  - exists st. split; [reflexivity|]. split; [apply same_elsewhere_refl | now left].
Qed.

Lemma must_reset_true broken ok :
  0 < broken + ok ->
  (Indexer.RESET_THRESHOLD <= Indexer.broken_ratio broken ok)%Q ->
  Indexer.must_reset broken ok = true.
Proof.
  intros Hpos Hle. unfold Indexer.must_reset.
  apply andb_true_intro. split; [now apply Z.ltb_lt | now apply Qle_bool_iff].
Qed.

Lemma must_reset_false broken ok :
  (Indexer.broken_ratio broken ok < Indexer.RESET_THRESHOLD)%Q ->
  Indexer.must_reset broken ok = false.
Proof.
  intros Hlt. unfold Indexer.must_reset.
  destruct (Qle_bool _ _) eqn:Hle; [|apply andb_false_r].
  apply Qle_bool_iff in Hle. exfalso. exact (Qlt_not_le _ _ Hlt Hle).
Qed.

(** No broken entry: the ratio is the double 0.0. *)
Lemma broken_ratio_none_broken ok : Indexer.broken_ratio 0 ok = 0%Q.
Proof.
  unfold Indexer.broken_ratio. destruct (0 + ok =? 0); [reflexivity|].
  unfold Float64.of_Q. now destruct (inject_Z (0 + ok)) as [[|n|n] d].
Qed.

Lemma must_reset_none_broken ok :
  (0 < Indexer.RESET_THRESHOLD)%Q -> Indexer.must_reset 0 ok = false.
Proof. intros Hpos. apply must_reset_false. now rewrite broken_ratio_none_broken. Qed.

(** [index_docs] as its steps, given what each of them returns. *)
Lemma index_docs_steps repo_url docs st s1 broken ok s2 s3 counters s4 :
  let name := Indexer._collection_name repo_url in
  let worklist := Indexer.build_worklist repo_url docs in
  Indexer._get_or_create_collection name st = (Ok name, s1) ->
  Indexer.assess name worklist.*2 (Indexer._batched worklist.*2 256) name (0, 0) s1
  = (Ok (name, (broken, ok)), s2) ->
  Indexer.reset_if_broken name name broken ok s2 = (Ok name, s3) ->
  mfold (Indexer.upsert_if_needed repo_url name) worklist (0, 0, 0) s3
  = (Ok counters, s4) ->
  Indexer.index_docs repo_url docs st = (Ok true, s4).
Proof.
  intros name worklist Hopen Hassess Hreset Hpass.
  unfold Indexer.index_docs. fold name. fold worklist.
  unfold bind at 1. rewrite Hopen.
  change ((fun item : string * string * string => item.2) <$> worklist) with worklist.*2.
  unfold bind at 1. rewrite Hassess. unfold bind at 1. rewrite Hreset.
  unfold bind at 1. unfold Indexer.upsert_pass. rewrite Hpass.
  unfold bind. rewrite attempt_run. unfold Indexer.col_count.
  now destruct (chroma s4 !! name).
Qed.

(** Both passes under any reads. *)
Lemma index_docs_completes repo_url docs st :
  let name := Indexer._collection_name repo_url in
  let worklist := Indexer.build_worklist repo_url docs in
  collection_name_ok name = true ->
  (forall text, PyList.len (model_encode text) = Indexer.EMB_DIM) ->
  (forall c, chroma st !! name = Some c -> Indexer.has_dimension Indexer.EMB_DIM c = true) ->
  exists st' c',
    Indexer.index_docs repo_url docs st = (Ok true, st')
    /\ same_elsewhere name st st'
    /\ chroma st' !! name = Some c'
    /\ Indexer.has_dimension Indexer.EMB_DIM c' = true
    /\ forall fname chunk cid,
         (fname, chunk, cid) ∈ worklist -> healthy_in st' name cid = true.
Proof.
  intros name worklist Hname Hmodel Hdim.
  destruct (get_or_create_spec name st (or_introl Hname))
    as (s1 & ops0 & Hopen & Hsteps0 & _ & _ & Hc0).
  assert (Hframe1 : same_elsewhere name st s1).
  { apply (store_steps_same_elsewhere _ _ _ _ Hsteps0). intros n Hn.
    destruct (chroma st !! name); destruct Hc0 as [-> _]; [reflexivity|].
    now apply lookup_insert_ne. }
  assert (Hc1 : exists c1, chroma s1 !! name = Some c1
                           /\ Indexer.has_dimension Indexer.EMB_DIM c1 = true).
  { destruct (chroma st !! name) as [c|] eqn:Hc; destruct Hc0 as [-> _].
    - exists c. split; [exact Hc | now apply Hdim].
    - exists ∅. split; [apply lookup_insert_eq | apply has_dimension_empty]. }
  destruct Hc1 as (c1 & Hc1 & Hdim1).
  destruct (assess_any name worklist.*2 (Indexer._batched worklist.*2 256) 0 0 s1 Hname)
    as (broken & ok & s2 & Hassess & Hframe2 & _ & _ & Hcase2); [lia | lia |].
  assert (Hc2 : exists c2, chroma s2 !! name = Some c2
                           /\ Indexer.has_dimension Indexer.EMB_DIM c2 = true).
  { destruct Hcase2 as [[Hsame _] | [Hempty _]].
    - exists c1. now rewrite Hsame.
    - exists ∅. split; [exact Hempty | apply has_dimension_empty]. }
  destruct Hc2 as (c2 & Hc2 & Hdim2).
  destruct (reset_if_broken_frame name broken ok s2 Hname) as (s3 & Hreset & Hframe3 & Hcase3).
  assert (Hc3 : exists c3, chroma s3 !! name = Some c3
                           /\ Indexer.has_dimension Indexer.EMB_DIM c3 = true).
  { destruct Hcase3 as [-> | Hempty].
    - now exists c2.
    - exists ∅. split; [exact Hempty | apply has_dimension_empty]. }
  destruct Hc3 as (c3 & Hc3 & Hdim3).
  destruct (upsert_pass_any repo_url name worklist Hmodel (0, 0, 0) s3 c3 Hc3 Hdim3)
    as (counters & s4 & c' & Hpass & Hframe4 & Hc4 & Hdim4 & _ & Hall & _).
  exists s4, c'.
  split; [exact (index_docs_steps _ _ _ _ _ _ _ _ _ _ Hopen Hassess Hreset Hpass)|].
  split; [eauto using same_elsewhere_trans|].
  split; [exact Hc4|]. split; [exact Hdim4|].
  intros fname chunk cid Hin. unfold healthy_in, broken_in. rewrite Hc4.
  destruct (Hall cid) as [e He].
  { apply list_elem_of_fmap. now exists (fname, chunk, cid). }
  rewrite He. cbn. apply negb_true_iff, negb_false_iff, Z.eqb_eq.
  now apply (proj1 (has_dimension_spec _ _) Hdim4 cid).
Qed.

(** C1. The claim fails on the code by a slip of pass 2. Take a store
    where no read raises, an embedding model of one dimension, at least 2,
    a positive reset threshold, and a collection of that dimension that
    holds an entry for every chunk of the worklist: every entry is well
    formed. Pass 1 then counts no entry as broken, the ratio is below the
    threshold and the collection is kept. Yet pass 2 writes every entry
    again, after reading it, and counts it as added: the test of
    [existing.get("embeddings") or [None]] asks for the truth value of an
    array, which raises inside the [try], and the exception is swallowed
    with [needs_update] still true. The claim says that well-formed entries
    are skipped. *)
Theorem index_docs_rewrites_well_formed_entries
        (repo_url : string) (docs : list (string * string)) (st : State)
        (c : gmap string entry) :
  let name := Indexer._collection_name repo_url in
  let worklist := Indexer.build_worklist repo_url docs in
  let ids := worklist.*2 in
  no_faults st ->
  (0 < Indexer.RESET_THRESHOLD)%Q ->
  (forall text, PyList.len (model_encode text) = Indexer.EMB_DIM) ->
  1 < Indexer.EMB_DIM ->
  chroma st !! name = Some c ->
  Indexer.has_dimension Indexer.EMB_DIM c = true ->
  (forall cid, cid ∈ ids -> is_Some (c !! cid)) ->
  (forall cid, cid ∈ ids -> broken_in c cid = false)
  /\ exists s1 s2 st',
      Indexer._get_or_create_collection name st = (Ok name, s1)
      /\ Indexer.assess name ids (Indexer._batched ids 256) name (0, 0) s1
         = (Ok (name, (0, PyList.len ids)), s2)
      /\ Indexer.must_reset 0 (PyList.len ids) = false
      /\ Indexer.upsert_pass repo_url name worklist s2
         = (Ok (PyList.len worklist, 0, 0), st')
      /\ Indexer.index_docs repo_url docs st = (Ok true, st')
      /\ store_steps st st'
           (OpGetCollection name
              :: (OpGet name <$> Indexer._batched ids 256)
              ++ flat_map (fun cid => [OpGet name [cid]; OpUpsert name cid]) ids).
Proof.
  intros name worklist ids Hnf Hpos Hmodel Hbig Hc Hdim Hheld.
  assert (Hall : forall cid, cid ∈ ids -> broken_in c cid = false).
  { intros cid Hin. destruct (Hheld cid Hin) as [e He]. unfold broken_in. rewrite He.
    cbn. apply negb_false_iff, Z.eqb_eq.
    now apply (proj1 (has_dimension_spec _ _) Hdim cid). }
  split; [exact Hall|].
  set (s1 := log_store (OpGetCollection name) st).
  assert (Hopen : Indexer._get_or_create_collection name st = (Ok name, s1)).
  { unfold Indexer._get_or_create_collection, try_except, Indexer.client_get_collection.
    cbn [chroma log_store]. now rewrite Hc. }
  destruct (assess_no_faults name ids (Indexer._batched ids 256) (0, 0) s1 c Hnf Hc)
    as (s2 & Hassess & Hsteps2 & Hchroma2 & Hnf2).
  { unfold Indexer._batched. now rewrite batched_concat by lia. }
  unfold Indexer._batched in Hassess.
  rewrite batched_concat, classify_healthy in Hassess
    by (try lia; now apply Forall_forall).
  fold (Indexer._batched ids 256) in Hassess. rewrite Z.add_0_l in Hassess.
  destruct (upsert_pass_rewrites repo_url name worklist Hmodel Hbig 0 0 0 s2 c Hnf2)
    as (s3 & Hpass & Hsteps3); [now rewrite Hchroma2 | exact Hdim | exact Hheld |].
  rewrite Z.add_0_l in Hpass.
  exists s1, s2, s3. split; [exact Hopen|]. split; [exact Hassess|].
  split; [exact (must_reset_none_broken _ Hpos)|]. split; [exact Hpass|]. split.
  - eapply index_docs_steps; [exact Hopen | exact Hassess | | exact Hpass].
    unfold Indexer.reset_if_broken. now rewrite (must_reset_none_broken _ Hpos).
  - assert (Hsteps1 : store_steps st s1 [OpGetCollection name]) by (repeat split).
    exact (store_steps_trans _ _ _ _ _ Hsteps1
             (store_steps_trans _ _ _ _ _ Hsteps2 Hsteps3)).
Qed.

(** X32. Pass 1 counts every identifier exactly once, whatever the store
    holds and whichever of its reads raise, for a name that the store
    accepts (as the name of the collection that [index_repo] has opened
    is): the two counters are not negative and add up to the number of
    identifiers. *)
Theorem assess_counts_each_identifier_once (name : string) (ids : list string) (st : State) :
  collection_name_ok name = true ->
  exists broken ok st',
    Indexer.assess name ids (Indexer._batched ids 256) name (0, 0) st
    = (Ok (name, (broken, ok)), st')
    /\ 0 <= broken /\ 0 <= ok
    /\ broken + ok = PyList.len ids.
Proof.
  intros Hname.
  destruct (assess_any name ids (Indexer._batched ids 256) 0 0 st Hname) as
    (broken & ok & st' & Hrun & _ & Hb & Ho & Hcount); [lia | lia |].
  exists broken, ok, st'. split; [exact Hrun|]. split; [exact Hb|]. split; [exact Ho|].
  destruct Hcount as [[_ Hcount] | [_ Hcount]].
  - unfold Indexer._batched in Hcount. rewrite batched_concat in Hcount by lia. lia.
  - injection Hcount as -> ->. lia.
Qed.

(** X9. When the store accepts the name of the collection, the embedding
    model has one dimension and the collection, if it is there, has that
    dimension, [index_docs] always ends and answers [True], whichever reads
    of the store raise. It touches no other collection, nor the world, nor
    the chat service; and afterwards the collection holds a well-formed
    entry for every chunk of the worklist. *)
Theorem index_docs_always_completes
        (repo_url : string) (docs : list (string * string)) (st : State) :
  let name := Indexer._collection_name repo_url in
  let worklist := Indexer.build_worklist repo_url docs in
  collection_name_ok name = true ->
  (forall text, PyList.len (model_encode text) = Indexer.EMB_DIM) ->
  (forall c, chroma st !! name = Some c -> Indexer.has_dimension Indexer.EMB_DIM c = true) ->
  exists st' c',
    Indexer.index_docs repo_url docs st = (Ok true, st')
    /\ same_elsewhere name st st'
    /\ chroma st' !! name = Some c'
    /\ Indexer.has_dimension Indexer.EMB_DIM c' = true
    /\ forall fname chunk cid,
         (fname, chunk, cid) ∈ worklist -> healthy_in st' name cid = true.
Proof. apply index_docs_completes. Qed.

(** X10. Indexing again does not change what the store holds. When no read
    raises, the reset threshold is positive, the embedding model has one
    dimension and the collection has that dimension and holds, for every
    chunk of the worklist, the entry that indexing writes for it, then
    [index_docs] answers [True] and the store holds afterwards what it held
    before. *)
Theorem index_docs_again_keeps_the_store
        (repo_url : string) (docs : list (string * string)) (st : State)
        (c : gmap string entry) :
  let name := Indexer._collection_name repo_url in
  let worklist := Indexer.build_worklist repo_url docs in
  no_faults st ->
  (0 < Indexer.RESET_THRESHOLD)%Q ->
  (forall text, PyList.len (model_encode text) = Indexer.EMB_DIM) ->
  chroma st !! name = Some c ->
  Indexer.has_dimension Indexer.EMB_DIM c = true ->
  (forall fname chunk cid,
      (fname, chunk, cid) ∈ worklist -> c !! cid = Some (fresh_entry repo_url fname chunk)) ->
  exists st',
    Indexer.index_docs repo_url docs st = (Ok true, st')
    /\ chroma st' = chroma st.
Proof.
  intros name worklist Hnf Hpos Hmodel Hc Hdim Hheld.
  assert (Hall : Forall (fun cid => broken_in c cid = false) worklist.*2).
  { apply Forall_forall. intros cid Hin.
    apply list_elem_of_fmap in Hin as ([[fname chunk] cid'] & -> & Hin).
    unfold broken_in. cbn [snd]. rewrite (Hheld _ _ _ Hin). cbn.
    apply negb_false_iff, Z.eqb_eq, Hmodel. }
  set (s1 := log_store (OpGetCollection name) st).
  assert (Hopen : Indexer._get_or_create_collection name st = (Ok name, s1)).
  { unfold Indexer._get_or_create_collection, try_except, Indexer.client_get_collection.
    cbn [chroma log_store]. now rewrite Hc. }
  destruct (assess_no_faults name worklist.*2 (Indexer._batched worklist.*2 256)
              (0, 0) s1 c Hnf Hc)
    as (s2 & Hassess & _ & Hchroma2 & _).
  { unfold Indexer._batched. now rewrite batched_concat by lia. }
  unfold Indexer._batched in Hassess.
  rewrite batched_concat, (classify_healthy _ _ _ _ Hall) in Hassess by lia.
  fold (Indexer._batched worklist.*2 256) in Hassess.
  destruct (upsert_pass_same repo_url name worklist Hmodel (0, 0, 0) s2 c)
    as (counters & s3 & Hpass & _ & Hchroma3); [now rewrite Hchroma2 | exact Hdim | exact Hheld |].
  exists s3. split.
  - eapply index_docs_steps; [exact Hopen | exact Hassess | | exact Hpass].
    unfold Indexer.reset_if_broken. now rewrite (must_reset_none_broken _ Hpos).
  - now rewrite Hchroma3, Hchroma2.
Qed.

(** X29. A name that the store refuses is not caught: when the collection
    is not there and the store refuses its name, [index_docs] raises the
    error of the store after its two calls, with nothing written. *)
Theorem index_docs_refused_name
        (repo_url : string) (docs : list (string * string)) (st : State) :
  let name := Indexer._collection_name repo_url in
  chroma st !! name = None ->
  collection_name_ok name = false ->
  exists st',
    Indexer.index_docs repo_url docs st
    = (Raise "the store refuses the collection name", st')
    /\ store_steps st st' [OpGetCollection name; OpCreateCollection name]
    /\ chroma st' = chroma st.
Proof.
  intros name Hc Hno. eexists. split.
  - unfold Indexer.index_docs. fold name. unfold bind at 1.
    rewrite (get_or_create_refused name st Hc Hno). reflexivity.
  - split; [|reflexivity]. unfold store_steps. cbn. rewrite <- app_assoc. auto.
Qed.

End ResetPolicy.


(** The repository of [Demo.clean] indexed a second time, with no read
    raising: the store holds the entry of its one chunk, of the two
    dimensions of the model, and the entry is read twice and written again. *)
Lemma index_docs_rewrites_well_formed_entries_witness :
  let E := Demo.env Demo.clean in
  let name := "github.com_acme_widgets" in
  let cid := "bc1394b8cf71d2e96445aebc0e84defbaae2f47a" in
  let st := @Build_State E {| Demo.w_fixed := false; Demo.w_cloned := true |}
              (<[name := <[cid := @fresh_entry E Demo.url "readme.md" "hello"]> ∅]> ∅)
              ∅ [] [] [] in
  @healthy_in E st name cid = true
  /\ @Indexer.must_reset E 0 1 = false
  /\ exists st',
      @Indexer.index_docs E Demo.url [("readme.md", "hello")] st = (Ok true, st')
      /\ store_log st'
         = [OpGetCollection name; OpGet name [cid]; OpGet name [cid]; OpUpsert name cid].
Proof.
  intros E name cid st.
  assert (Hids : (@Indexer.build_worklist Demo.url [("readme.md", "hello")]).*2 = [cid])
    by (vm_compute; reflexivity).
  destruct (@index_docs_rewrites_well_formed_entries E Demo.url [("readme.md", "hello")] st
              (<[cid := @fresh_entry E Demo.url "readme.md" "hello"]> ∅))
    as (Hall & s1 & s2 & st' & _ & _ & Hreset & _ & Hrun & Hlog & _).
  - constructor.
  - vm_compute. reflexivity.
  - intros text. reflexivity.
  - vm_compute. reflexivity.
  - apply lookup_insert_eq.
  - vm_compute. reflexivity.
  - intros cid' Hin. rewrite Hids in Hin. apply list_elem_of_singleton in Hin as ->.
    rewrite lookup_insert_eq. eauto.
  - split; [|split].
    + unfold healthy_in.
      change (chroma st) with
        (<[name := <[cid := @fresh_entry E Demo.url "readme.md" "hello"]> ∅]> ∅
         : gmap string (gmap string entry)).
      rewrite lookup_insert_eq, Hall; [reflexivity|]. rewrite Hids. left.
    + rewrite Hids in Hreset. exact Hreset.
    + exists st'. split; [exact Hrun|]. rewrite Hlog, Hids. reflexivity.
Defined.

Section Handles.
Context `{E : Env}.
Import PyStr.

(** The double nearest to [n / n] is 1. *)
Lemma of_pos_diag n : 0 < n -> (Float64.of_pos n n == 1)%Q.
Proof.
  intros Hn. unfold Float64.of_pos.
  assert (He : Float64.exponent n n = 0).
  { unfold Float64.exponent. rewrite Z.sub_diag.
    change (Z.max 0 (- 0)) with 0. change (Z.max 0 0) with 0.
    now rewrite Z.ltb_irrefl. }
  rewrite He. change (Z.max 0 (-1022) - 52) with (-52). cbv zeta.
  change (Z.max 0 (- -52)) with 52. change (Z.max 0 (-52)) with 0.
  change (2 ^ 0) with 1. rewrite !Z.mul_1_r.
  assert (Hm : Float64.round_half_even (n * 2 ^ 52) n = 2 ^ 52).
  { unfold Float64.round_half_even. rewrite (Z.mul_comm n), Z.div_mul, Z.mod_mul by lia.
    change (2 * 0) with 0. destruct (Z.compare_spec 0 n); [lia | reflexivity | lia]. }
  rewrite Hm.
  replace (2 ^ 1024 <=? 2 ^ 52) with false by (vm_compute; reflexivity).
  vm_compute. reflexivity.
Qed.

(** Every entry broken: the ratio is the double 1.0. *)
Lemma broken_ratio_all_broken n : 0 < n -> (Indexer.broken_ratio n 0 == 1)%Q.
Proof.
  intros Hn. unfold Indexer.broken_ratio. rewrite Z.add_0_r.
  destruct (n =? 0) eqn:Hz; [apply Z.eqb_eq in Hz; lia|].
  destruct n as [|p|p]; try lia.
  assert (Hq : (inject_Z (Z.pos p) / inject_Z (Z.pos p))%Q = Qmake (Z.pos p) p).
  { unfold Qdiv, Qmult, Qinv, inject_Z. cbn. now rewrite Z.mul_1_r, Pos.mul_1_l. }
  rewrite Hq. unfold Float64.of_Q. cbn [Qnum Qden]. now apply of_pos_diag.
Qed.

Lemma must_reset_all_broken n :
  0 < n -> (Indexer.RESET_THRESHOLD <= 1)%Q -> Indexer.must_reset n 0 = true.
Proof.
  intros Hn Hle. apply must_reset_true; [lia|].
  now rewrite (broken_ratio_all_broken n Hn).
Qed.

(** Dropping a collection and opening it again gives the next generation. *)
Lemma reset_and_reopen_generation name st :
  collection_name_ok name = true ->
  exists st',
    bind (Indexer._reset_collection name)
         (fun _ => Indexer._get_or_create_collection name) st = (Ok name, st')
    /\ chroma st' !! name = Some ∅
    /\ Indexer.generation_of name st' = S (Indexer.generation_of name st).
Proof.
  intros Hok.
  assert (Hcreate : forall s,
            chroma s !! name = None ->
            Indexer._get_or_create_collection name s
            = (Ok name,
               with_generations (<[name := S (Indexer.generation_of name s)]> (generations s))
                 (with_chroma (<[name := ∅]> (chroma s))
                    (log_store (OpCreateCollection name) (log_store (OpGetCollection name) s))))).
  { intros s Hs. unfold Indexer._get_or_create_collection, try_except,
      Indexer.client_get_collection, Indexer.client_create_collection.
    cbn [chroma log_store]. rewrite Hs, Hok. cbn [negb chroma log_store].
    now rewrite Hs. }
  unfold bind, Indexer._reset_collection, try_except, Indexer.client_delete_collection, ret.
  cbn [chroma log_store].
  destruct (chroma st !! name) as [c|] eqn:Hc.
  - rewrite Hcreate by (cbn [chroma with_chroma log_store]; apply lookup_delete_eq).
    eexists. split; [reflexivity|].
    cbn [chroma with_generations with_chroma log_store].
    split; [apply lookup_insert_eq|].
    unfold Indexer.generation_of at 1. cbn [generations with_generations].
    now rewrite lookup_insert_eq.
  - rewrite Hcreate by exact Hc.
    eexists. split; [reflexivity|].
    cbn [chroma with_generations with_chroma log_store].
    split; [apply lookup_insert_eq|].
    unfold Indexer.generation_of at 1. cbn [generations with_generations].
    now rewrite lookup_insert_eq.
Qed.

Lemma col_get_generations col ids st :
  generations (Indexer.col_get col ids st).2 = generations st.
Proof.
  unfold Indexer.col_get. cbn [read_faults log_store].
  destruct (Indexer.next_fault (read_faults st)) as [[] faults']; [reflexivity|].
  change (chroma (with_faults faults' (log_store (OpGet col ids) st))) with (chroma st).
  now destruct (chroma st !! col).
Qed.

Lemma col_upsert_generations col id document metadata embedding st :
  generations (Indexer.col_upsert col id document metadata embedding st).2 = generations st.
Proof.
  unfold Indexer.col_upsert. cbn [chroma log_store].
  destruct (chroma st !! col) as [c|]; [|reflexivity].
  now destruct (Indexer.has_dimension _ c).
Qed.

Lemma upsert_if_needed_generations repo_url name counters item st :
  generations (Indexer.upsert_if_needed repo_url name counters item st).2 = generations st.
Proof.
  destruct counters as [[added skipped] repaired], item as [[fname chunk] cid].
  unfold Indexer.upsert_if_needed, bind at 1. rewrite attempt_run.
  pose proof (col_get_generations name [cid] st) as Hg.
  destruct (Indexer.col_get name [cid] st) as [r s1]. cbn [fst snd] in *.
  assert (Hwrite : forall counters : Z * Z * Z,
            generations
              ((Indexer.col_upsert name cid chunk
                  [("repo", PStr repo_url); ("path", PStr (lower fname))]
                  (model_encode chunk) ;;;
                ret counters)%eff s1).2 = generations st).
  { intros counters. unfold bind. rewrite <- Hg, <- (col_upsert_generations name cid chunk
      [("repo", PStr repo_url); ("path", PStr (lower fname))] (model_encode chunk) s1).
    now destruct (Indexer.col_upsert _ _ _ _ _ s1) as [[[]|e] s2]. }
  destruct r as [[[|i ids] embs]|e]; try apply Hwrite.
  destruct (Indexer.check_existing embs skipped repaired) as [[[[] sk] rp]|e];
    try apply Hwrite.
  exact Hg.
Qed.

Lemma upsert_pass_generations repo_url name worklist counters st :
  generations (mfold (Indexer.upsert_if_needed repo_url name) worklist counters st).2
  = generations st.
Proof.
  revert counters st. induction worklist as [|item worklist IH]; intros counters st.
  - reflexivity.
  - cbn [mfold]. unfold bind.
    pose proof (upsert_if_needed_generations repo_url name counters item st) as Hg.
    destruct (Indexer.upsert_if_needed repo_url name counters item st) as [[c1|e] s1];
      cbn [snd] in *; [|exact Hg].
    now rewrite IH.
Qed.

Lemma generation_of_same name st st' :
  generations st' = generations st ->
  Indexer.generation_of name st' = Indexer.generation_of name st.
Proof. intros H. unfold Indexer.generation_of. now rewrite H. Qed.

Lemma classify_empty ids broken :
  fold_left (classify ∅) ids (broken, 0) = (broken + PyList.len ids, 0).
Proof.
  revert broken. induction ids as [|cid ids IH]; intros broken.
  - cbn. f_equal. unfold PyList.len. cbn. lia.
  - cbn [fold_left]. unfold classify at 2, broken_in. rewrite lookup_empty. cbn.
    rewrite IH. f_equal. unfold PyList.len. cbn [length]. lia.
Qed.

(** Pass 1 over an empty collection counts every identifier as broken,
    whether a read raises or not, and never goes back a generation. *)
Lemma assess_empty name ids batches broken st :
  collection_name_ok name = true ->
  chroma st !! name = Some ∅ ->
  exists broken' st',
    Indexer.assess name ids batches name (broken, 0) st = (Ok (name, (broken', 0)), st')
    /\ chroma st' !! name = Some ∅
    /\ (Indexer.generation_of name st <= Indexer.generation_of name st')%nat
    /\ (broken' = broken + PyList.len (concat batches) \/ broken' = PyList.len ids).
Proof.
  intros Hname.
  revert broken st. induction batches as [|batch batches IH]; intros broken st Hc.
  - exists broken, st. split; [reflexivity|]. split; [exact Hc|]. split; [lia|].
    left. unfold PyList.len. cbn. lia.
  - cbn [Indexer.assess]. unfold bind at 1. rewrite attempt_run.
    destruct (col_get_frame name batch st) as (_ & Hchroma).
    pose proof (col_get_generations name batch st) as Hg.
    destruct (col_get_result name batch st ∅ Hc) as [Hr | [e Hr]];
      destruct (Indexer.col_get name batch st) as [r s1]; cbn [fst snd] in *; subst r.
    + rewrite assess_batch_classify, classify_empty by reflexivity.
      destruct (IH (broken + PyList.len batch) s1) as (b' & s2 & -> & Hc2 & Hg2 & Hcount).
      { now rewrite Hchroma. }
      exists b', s2. split; [reflexivity|]. split; [exact Hc2|].
      split; [rewrite <- (generation_of_same name st s1 Hg); exact Hg2|].
      destruct Hcount as [-> | ->]; [left | now right].
      cbn [concat]. unfold PyList.len. rewrite List.length_app. lia.
    + destruct (reset_and_reopen_generation name s1 Hname) as (s2 & Hreset & Hc2 & Hg2).
      unfold bind in Hreset |- *.
      destruct (Indexer._reset_collection name s1) as [[[]|e'] s1']; [|discriminate].
      rewrite Hreset. unfold ret.
      exists (PyList.len ids), s2. split; [reflexivity|]. split; [exact Hc2|].
      split; [|now right].
      rewrite Hg2, (generation_of_same name st s1 Hg). lia.
Qed.

(** Indexing into an empty collection resets it. *)
Lemma index_docs_on_empty
        (repo_url : string) (docs : list (string * string)) (st : State) :
  let name := Indexer._collection_name repo_url in
  collection_name_ok name = true ->
  (forall text, PyList.len (model_encode text) = Indexer.EMB_DIM) ->
  (Indexer.RESET_THRESHOLD <= 1)%Q ->
  Indexer.build_worklist repo_url docs <> [] ->
  chroma st !! name = Some ∅ ->
  exists st',
    Indexer.index_docs repo_url docs st = (Ok true, st')
    /\ (Indexer.generation_of name st < Indexer.generation_of name st')%nat
    /\ forall query_emb n_results,
         (Indexer.col_query (name, Indexer.generation_of name st) query_emb n_results st').1
         = Raise "collection does not exist".
Proof.
  intros name Hname Hmodel Hle Hwork Hc.
  set (worklist := Indexer.build_worklist repo_url docs) in *.
  set (s1 := log_store (OpGetCollection name) st).
  assert (Hopen : Indexer._get_or_create_collection name st = (Ok name, s1)).
  { unfold Indexer._get_or_create_collection, try_except, Indexer.client_get_collection.
    cbn [chroma log_store]. now rewrite Hc. }
  destruct (assess_empty name worklist.*2 (Indexer._batched worklist.*2 256) 0 s1 Hname Hc)
    as (broken & s2 & Hassess & Hc2 & Hg2 & Hcount).
  assert (Hbroken : broken = PyList.len worklist.*2).
  { destruct Hcount as [-> | ->]; [|reflexivity].
    unfold Indexer._batched. rewrite batched_concat by lia. lia. }
  assert (Hpos : 0 < broken).
  { subst broken. unfold PyList.len. rewrite length_fmap.
    destruct worklist; [congruence | cbn; lia]. }
  destruct (reset_and_reopen_generation name s2 Hname) as (s3 & Hreset & Hc3 & Hg3).
  assert (Hreset' : Indexer.reset_if_broken name name broken 0 s2 = (Ok name, s3)).
  { unfold Indexer.reset_if_broken. now rewrite (must_reset_all_broken broken Hpos Hle). }
  destruct (upsert_pass_any repo_url name worklist Hmodel (0, 0, 0) s3 ∅ Hc3
              (has_dimension_empty _))
    as (counters & s4 & c' & Hpass & _ & Hc4 & _).
  pose proof (upsert_pass_generations repo_url name worklist (0, 0, 0) s3) as Hg4.
  rewrite Hpass in Hg4. cbn [snd] in Hg4.
  assert (Hgen : Indexer.generation_of name s4 = S (Indexer.generation_of name s2))
    by now rewrite (generation_of_same name s3 s4 Hg4).
  exists s4. split; [|split].
  - exact (index_docs_steps _ _ _ _ _ _ _ _ _ _ Hopen Hassess Hreset' Hpass).
  - change (Indexer.generation_of name s1) with (Indexer.generation_of name st) in Hg2. lia.
  - intros query_emb n_results. unfold Indexer.col_query. cbn [fst snd chroma log_store].
    rewrite Hc4.
    change (Indexer.generation_of name (log_store (OpQuery name) s4))
      with (Indexer.generation_of name s4).
    change (Indexer.generation_of name s1) with (Indexer.generation_of name st) in Hg2.
    destruct (Nat.eqb_spec (Indexer.generation_of name s4) (Indexer.generation_of name st));
      [lia | reflexivity].
Qed.


(** With no chunk to index, [index_docs] opens the collection and leaves
    it as it is. *)
Lemma index_docs_no_chunks repo_url docs st c :
  let name := Indexer._collection_name repo_url in
  Indexer.build_worklist repo_url docs = [] ->
  chroma st !! name = Some c ->
  Indexer.index_docs repo_url docs st = (Ok true, log_store (OpGetCollection name) st).
Proof.
  intros name Hwork Hc.
  assert (Hopen : Indexer._get_or_create_collection name st
                  = (Ok name, log_store (OpGetCollection name) st)).
  { unfold Indexer._get_or_create_collection, try_except, Indexer.client_get_collection.
    cbn [chroma log_store]. now rewrite Hc. }
  set (s1 := log_store (OpGetCollection name) st) in *.
  apply (index_docs_steps repo_url docs st s1 0 0 s1 s1 (0, 0, 0) s1 Hopen);
    cbv zeta; rewrite ?Hwork; reflexivity.
Qed.

(** A query on a handle of another generation raises. *)
Lemma col_query_stale name g query_emb n_results st :
  Indexer.generation_of name st <> g ->
  exists e st',
    Indexer.col_query (name, g) query_emb n_results st = (Raise e, st').
Proof.
  intros Hg. unfold Indexer.col_query. cbn [fst snd chroma log_store].
  destruct (chroma st !! name); [|eauto].
  change (Indexer.generation_of name (log_store (OpQuery name) st))
    with (Indexer.generation_of name st).
  destruct (Nat.eqb_spec (Indexer.generation_of name st) g); [contradiction | eauto].
Qed.

(** A query on the current handle of an empty collection. *)
Lemma col_query_empty name query_emb n_results st :
  chroma st !! name = Some ∅ ->
  Indexer.col_query (name, Indexer.generation_of name st) query_emb n_results st
  = (store_query [] query_emb n_results, log_store (OpQuery name) st).
Proof.
  intros Hc. unfold Indexer.col_query. cbn [fst snd chroma log_store]. rewrite Hc.
  change (Indexer.generation_of name (log_store (OpQuery name) st))
    with (Indexer.generation_of name st).
  now rewrite Nat.eqb_refl, map_to_list_empty.
Qed.

Lemma get_repo_path_frame repo_url st :
  exists r w, Indexer.get_repo_path repo_url st = (r, with_world w st).
Proof.
  unfold Indexer.get_repo_path, bind, os_path_exists, run_exec, ret, raise.
  destruct (path_exists _ (world st)); cbn [negb].
  - destruct (exec _ (world st)) as [code w]. eauto.
  - destruct (exec _ (world st)) as [code w]. destruct (code =? 0); eauto.
Qed.

(** [index_repo] on a store whose collection is empty: it raises, or finds
    no document, or resets the collection, or finds no chunk and leaves the
    collection empty. *)
Lemma index_repo_on_empty repo_url st :
  let name := Indexer._collection_name repo_url in
  collection_name_ok name = true ->
  (forall text, PyList.len (model_encode text) = Indexer.EMB_DIM) ->
  (Indexer.RESET_THRESHOLD <= 1)%Q ->
  chroma st !! name = Some ∅ ->
  exists r st',
    Indexer.index_repo repo_url st = (r, st')
    /\ ((exists e, r = Raise e)
        \/ r = Ok false
        \/ (r = Ok true
            /\ Indexer.generation_of name st' <> Indexer.generation_of name st)
        \/ (r = Ok true
            /\ Indexer.generation_of name st' = Indexer.generation_of name st
            /\ chroma st' !! name = Some ∅)).
Proof.
  intros name Hname Hmodel Hle Hc. unfold Indexer.index_repo, bind at 1.
  destruct (get_repo_path_frame repo_url st) as ([repo_path|e] & w & ->);
    [|eexists _, _; split; [reflexivity | left; eauto]].
  unfold bind. change (Indexer.find_docs repo_path (with_world w st))
    with (Ok (fold_left walk_step (walk_files repo_path w) []), with_world w st).
  destruct (fold_left walk_step _ _) as [|doc docs].
  - eexists _, _. split; [reflexivity | right; now left].
  - destruct (Indexer.build_worklist repo_url (doc :: docs)) as [|item worklist] eqn:Hwork.
    + rewrite (index_docs_no_chunks repo_url _ (with_world w st) ∅ Hwork Hc).
      eexists _, _. split; [reflexivity|]. do 3 right. repeat split. exact Hc.
    + destruct (index_docs_on_empty repo_url (doc :: docs) (with_world w st) Hname Hmodel Hle)
        as (st' & -> & Hg & _); [now rewrite Hwork | exact Hc |].
      eexists _, _. split; [reflexivity|]. do 2 right. left. split; [reflexivity|].
      intros Heq. fold name in Hg. rewrite Heq in Hg. exact (Nat.lt_irrefl _ Hg).
Qed.

(** X30. Indexing into an empty collection, as [retrieve_docs] does after
    creating one, drops that collection and creates it again: when the
    store accepts the name, the embedding model has one dimension, the
    reset threshold is at most 1 and there is a chunk to index, every chunk
    counts as broken, the ratio is 1 and the collection is reset. So the
    collection is of a later generation afterwards, and a handle that was
    opened before, as [retrieve_docs] keeps one across [index_repo], no
    longer answers a query. *)
Theorem index_docs_renews_an_empty_collection
        (repo_url : string) (docs : list (string * string)) (st : State) :
  let name := Indexer._collection_name repo_url in
  collection_name_ok name = true ->
  (forall text, PyList.len (model_encode text) = Indexer.EMB_DIM) ->
  (Indexer.RESET_THRESHOLD <= 1)%Q ->
  Indexer.build_worklist repo_url docs <> [] ->
  chroma st !! name = Some ∅ ->
  exists st',
    Indexer.index_docs repo_url docs st = (Ok true, st')
    /\ (Indexer.generation_of name st < Indexer.generation_of name st')%nat
    /\ forall query_emb n_results,
         (Indexer.col_query (name, Indexer.generation_of name st) query_emb n_results st').1
         = Raise "collection does not exist".
Proof. apply index_docs_on_empty. Qed.

End Handles.

(* ===================================================================== *)
(** * Further properties: strings as the code uses them *)
(* ===================================================================== *)

Section StripFacts.
Import PyStr.

Lemma rev_app_eq (s t : string) : String.rev_app s t = String.rev s +:+ t.
Proof.
  unfold String.rev. revert t. induction s as [|c s IH]; intros t; cbn; [reflexivity|].
  rewrite IH, (IH (String c "")), app_assoc'. reflexivity.
Qed.

Lemma rev_String c s : String.rev (String c s) = String.rev s +:+ String c "".
Proof. unfold String.rev at 1. cbn. apply rev_app_eq. Qed.

Lemma rev_app_distr (s t : string) : String.rev (s +:+ t) = String.rev t +:+ String.rev s.
Proof.
  induction s as [|c s IH].
  - rewrite app_empty_l. symmetry. apply app_empty_r.
  - rewrite app_String, !rev_String, IH, app_assoc'. reflexivity.
Qed.

Lemma rev_involutive (s : string) : String.rev (String.rev s) = s.
Proof.
  induction s as [|c s IH]; [reflexivity|].
  rewrite rev_String, rev_app_distr, IH. reflexivity.
Qed.

Lemma lstrip_idem (s : string) : lstrip (lstrip s) = lstrip s.
Proof.
  induction s as [|c s IH]; [reflexivity|]. cbn.
  destruct (is_space c) eqn:Hc; [exact IH|]. cbn. now rewrite Hc.
Qed.

(** Stripping the left of [a ++ b]. *)
Lemma lstrip_app (a b : string) :
  lstrip (a +:+ b) = if truthy (lstrip a) then lstrip a +:+ b else lstrip b.
Proof.
  induction a as [|c a IH]; [reflexivity|]. rewrite app_String. cbn.
  destruct (is_space c); [exact IH | reflexivity].
Qed.

(** [rstrip], from the left. *)
Lemma rstrip_String c s :
  rstrip (String c s)
  = if truthy (rstrip s) then String c (rstrip s)
    else if is_space c then "" else String c "".
Proof.
  unfold rstrip. rewrite rev_String, lstrip_app.
  destruct (lstrip (String.rev s)) as [|d u] eqn:Hu; cbn [truthy].
  - cbn. destruct (is_space c); reflexivity.
  - assert (Hne : truthy (String.rev (String d u)) = true).
    { rewrite rev_String. destruct (String.rev u); reflexivity. }
    rewrite Hne, rev_app_distr. reflexivity.
Qed.

(** A string whose first character is no white space keeps it when it is
    stripped on the right. *)
Lemma lstrip_rstrip (s : string) : lstrip s = s -> lstrip (rstrip s) = rstrip s.
Proof.
  destruct s as [|c s]; [reflexivity|]. intros H. cbn [lstrip] in H.
  destruct (is_space c) eqn:Hc.
  - exfalso. apply (f_equal String.length) in H.
    pose proof (length_lstrip s). cbn in H. lia.
  - rewrite rstrip_String, Hc.
    destruct (truthy (rstrip s)); cbn [lstrip]; now rewrite Hc.
Qed.

Lemma strip_no_outer_space (s : string) : no_outer_space (strip s).
Proof.
  unfold no_outer_space, strip. split.
  - apply lstrip_rstrip, lstrip_idem.
  - unfold rstrip. rewrite rev_involutive. apply lstrip_idem.
Qed.

Lemma strip_fixed (s : string) : no_outer_space s -> strip s = s.
Proof.
  intros [H1 H2]. unfold strip, rstrip. rewrite H1, H2. apply rev_involutive.
Qed.

Lemma strip_idem (s : string) : strip (strip s) = strip s.
Proof. apply strip_fixed, strip_no_outer_space. Qed.

End StripFacts.

Section SplitFacts.
Import PyStr.

Lemma strip_prefix_Some (p s rest : string) :
  strip_prefix p s = Some rest <-> s = p +:+ rest.
Proof.
  revert s. induction p as [|a p IH]; intros s; cbn.
  - rewrite app_empty_l. split; congruence.
  - destruct s as [|b s]; [split; discriminate|].
    rewrite app_String. destruct (Ascii.eqb a b) eqn:Hab.
    + apply Ascii.eqb_eq in Hab as ->. rewrite IH. split; congruence.
    + apply Ascii.eqb_neq in Hab. split; [discriminate | congruence].
Qed.

Lemma drop_app_length (p rest : string) : drop (String.length p) (p +:+ rest) = rest.
Proof. induction p as [|a p IH]; [now destruct rest | exact IH]. Qed.

(** [split] at an occurrence of the separator. *)
Lemma split_at_separator (sep s rest : string) :
  sep <> "" -> s = sep +:+ rest -> split sep s = "" :: split sep rest.
Proof.
  intros Hsep ->. destruct sep as [|a sep]; [contradiction|].
  rewrite app_String. cbn [split].
  assert (Hp : strip_prefix (String a sep) (String a (sep +:+ rest)) = Some rest)
    by now apply strip_prefix_Some.
  rewrite Hp. cbn [String.length Nat.pred].
  rewrite <- (drop_app_length sep rest) at 2.
  generalize (sep +:+ rest) as t. generalize (String.length sep) as k.
  induction k as [|k IH]; intros t.
  - now destruct t.
  - destruct t as [|b t]; [reflexivity | apply IH].
Qed.

(** [split] where no occurrence of the separator starts. *)
Lemma split_no_separator (sep : string) c s :
  strip_prefix sep (String c s) = None ->
  split sep (String c s)
  = match split sep s with
    | p :: ps => String c p :: ps
    | [] => [String c ""]
    end.
Proof. intros H. cbn [split]. now rewrite H. Qed.

Lemma split_nonempty (sep s : string) : sep <> "" -> split sep s <> [].
Proof.
  intros Hsep. destruct s as [|c s]; [discriminate|].
  destruct (strip_prefix sep (String c s)) as [rest|] eqn:Hp.
  - apply strip_prefix_Some in Hp. now rewrite (split_at_separator sep _ rest Hsep Hp).
  - rewrite (split_no_separator _ _ _ Hp). now destruct (split sep s).
Qed.

Lemma concat_cons (sep p : string) (ps : list string) :
  ps <> [] -> String.concat sep (p :: ps) = p +:+ sep +:+ String.concat sep ps.
Proof. destruct ps; [contradiction | reflexivity]. Qed.

(** Joining the pieces of a split gives the string back. *)
Lemma concat_split (sep s : string) :
  sep <> "" -> String.concat sep (split sep s) = s.
Proof.
  intros Hsep.
  remember (String.length s) as n eqn:Hn. revert s Hn.
  induction n as [n IH] using lt_wf_ind. intros s Hn.
  destruct s as [|c s]; [reflexivity|].
  destruct (strip_prefix sep (String c s)) as [rest|] eqn:Hp.
  - apply strip_prefix_Some in Hp.
    rewrite (split_at_separator sep _ rest Hsep Hp).
    rewrite concat_cons by now apply split_nonempty.
    rewrite app_empty_l, (IH (String.length rest)), Hp; [reflexivity | | reflexivity].
    subst n. rewrite Hp, length_app. destruct sep; [contradiction | cbn; lia].
  - rewrite (split_no_separator _ _ _ Hp).
    pose proof (IH (String.length s) ltac:(subst n; cbn; lia) s eq_refl) as Hs.
    pose proof (split_nonempty sep s Hsep) as Hne.
    destruct (split sep s) as [|p ps]; [contradiction|].
    destruct ps as [|q ps]; cbn in Hs |- *; now rewrite <- Hs.
Qed.

End SplitFacts.

(* ===================================================================== *)
(** * Further properties: the chunker *)
(* ===================================================================== *)

Section ChunkerProperties.
Import PyStr.

(** X1. Every chunk that [chunk_text] returns is at most two characters
    longer than the budget, or it is a single paragraph of the text,
    stripped. *)
Theorem chunk_text_chunk_sizes (text : string) (max_chars : Z) (c : string) :
  c ∈ Indexer.chunk_text text max_chars ->
  len c <= max_chars + 2
  \/ exists p, p ∈ split (NL +:+ NL) text /\ c = strip p.
Proof. apply chunk_text_size. Qed.

Lemma clean_chunk_strip cur : truthy (strip cur) = true -> clean_chunk (strip cur).
Proof.
  intros H. split; [|apply strip_no_outer_space].
  intros Heq. now rewrite Heq in H.
Qed.

Lemma chunk_fold_clean max_chars ps chunks cur :
  Forall clean_chunk chunks ->
  Forall clean_chunk (fold_left (Indexer.chunk_step max_chars) ps (chunks, cur)).1.
Proof.
  revert chunks cur. induction ps as [|p ps IH]; intros chunks cur Hc; [exact Hc|].
  cbn [fold_left]. unfold Indexer.chunk_step at 2.
  destruct (len cur + len p >? max_chars); [|now apply IH].
  destruct (truthy (strip cur)) eqn:Ht; apply IH; [|exact Hc].
  apply Forall_app. split; [exact Hc|]. constructor; [|constructor].
  now apply clean_chunk_strip.
Qed.

(** X2. No chunk that [chunk_text] returns is empty, and none begins or ends
    with white space. *)
Theorem chunk_text_chunks_clean (text : string) (max_chars : Z) (c : string) :
  c ∈ Indexer.chunk_text text max_chars ->
  c <> "" /\ no_outer_space c /\ strip c = c.
Proof.
  unfold Indexer.chunk_text.
  pose proof (chunk_fold_clean max_chars (split (NL +:+ NL) text) [] ""
                ltac:(constructor)) as H.
  destruct (fold_left _ _ _) as [chunks cur]. cbn [fst] in H.
  intros Hc.
  assert (Hall : Forall clean_chunk
                   (if truthy (strip cur) then chunks ++ [strip cur] else chunks)).
  { destruct (truthy (strip cur)) eqn:Ht; [|exact H].
    apply Forall_app. split; [exact H|]. constructor; [|constructor].
    now apply clean_chunk_strip. }
  rewrite Forall_forall in Hall. destruct (Hall c Hc) as [Hne Hclean].
  split; [exact Hne|]. split; [exact Hclean | now apply strip_fixed].
Qed.

Lemma packed_len_cons p ps : packed_len (p :: ps) = len p + 2 + packed_len ps.
Proof. reflexivity. Qed.

Lemma packed_len_nonneg ps : 0 <= packed_len ps.
Proof.
  induction ps as [|q ps IH]; [reflexivity|].
  rewrite packed_len_cons. unfold len. lia.
Qed.

(** While the budget is not reached, packing is joining. *)
Lemma chunk_fold_under_budget max_chars ps chunks cur :
  len cur + packed_len ps <= max_chars + 2 ->
  fold_left (Indexer.chunk_step max_chars) ps (chunks, cur) = (chunks, join_open cur ps).
Proof.
  revert cur. induction ps as [|p ps IH]; intros cur Hlen; [reflexivity|].
  rewrite packed_len_cons in Hlen. pose proof (packed_len_nonneg ps) as Hps.
  cbn [fold_left join_open].
  fold (join_open (cur +:+ (if truthy cur then NL +:+ NL else "") +:+ p) ps).
  unfold Indexer.chunk_step at 2.
  destruct (len cur + len p >? max_chars) eqn:Hgt; [lia|].
  apply IH. rewrite !len_app.
  destruct (truthy cur).
  - assert (len (NL +:+ NL) = 2) as -> by reflexivity. lia.
  - assert (len "" = 0) as -> by reflexivity. lia.
Qed.

Lemma packed_len_concat (ps : list string) :
  ps <> [] -> packed_len ps = len (String.concat (NL +:+ NL) ps) + 2.
Proof.
  induction ps as [|p ps IH]; [contradiction|]. intros _.
  destruct ps as [|q ps]; [cbn; lia|].
  rewrite concat_cons by discriminate. rewrite packed_len_cons.
  rewrite IH by discriminate. rewrite !len_app.
  assert (len NL = 1) as -> by reflexivity. lia.
Qed.

Lemma join_open_nonempty (cur : string) (ps : list string) :
  truthy cur = true ->
  join_open cur ps = String.concat (NL +:+ NL) (cur :: ps).
Proof.
  revert cur. induction ps as [|p ps IH]; intros cur Hcur; [reflexivity|].
  cbn [join_open fold_left]. rewrite Hcur.
  fold (join_open (cur +:+ (NL +:+ NL) +:+ p) ps).
  rewrite IH by (destruct cur; [discriminate | reflexivity]).
  destruct ps as [|q ps].
  - cbn. reflexivity.
  - rewrite !concat_cons by discriminate. now rewrite !app_assoc'.
Qed.

Lemma strip_after_separator (s : string) : strip (NL +:+ NL +:+ s) = strip s.
Proof. reflexivity. Qed.

Lemma join_open_strip (ps : list string) :
  strip (join_open "" ps) = strip (String.concat (NL +:+ NL) ps).
Proof.
  induction ps as [|p ps IH]; [reflexivity|].
  cbn [join_open fold_left truthy]. rewrite !app_empty_l.
  fold (join_open p ps). destruct p as [|c p].
  - rewrite IH. destruct ps as [|q ps]; [reflexivity|].
    rewrite (concat_cons _ "" (q :: ps)) by discriminate. rewrite app_empty_l.
    symmetry. apply strip_after_separator.
  - now rewrite join_open_nonempty.
Qed.

(** X3. A text that fits the budget is one chunk: the text stripped when
    something is left of it, and no chunk at all when it is white space
    only. *)
Theorem chunk_text_short_text (text : string) (max_chars : Z) :
  len text <= max_chars ->
  Indexer.chunk_text text max_chars
  = if truthy (strip text) then [strip text] else [].
Proof.
  intros Hlen. unfold Indexer.chunk_text.
  assert (Hsep : NL +:+ NL <> "") by discriminate.
  rewrite chunk_fold_under_budget.
  - rewrite join_open_strip, concat_split by exact Hsep. reflexivity.
  - rewrite packed_len_concat by now apply split_nonempty.
    rewrite concat_split by exact Hsep. change (len "") with 0. lia.
Qed.

End ChunkerProperties.

(** A README of two short paragraphs is one chunk of the default budget. *)
Lemma chunk_text_short_text_witness :
  let text := "Install" +:+ PyStr.NL +:+ PyStr.NL +:+ "Run make." +:+ PyStr.NL in
  Indexer.chunk_text text 1000 = ["Install" +:+ PyStr.NL +:+ PyStr.NL +:+ "Run make."].
Proof.
  cbv zeta. rewrite chunk_text_short_text; [reflexivity|].
  vm_compute. discriminate.
Defined.

(** Under a budget of ten the second and third paragraphs are packed into a
    chunk of twelve characters. *)
Lemma chunk_text_chunk_sizes_witness :
  let text := "aaaaa" +:+ PyStr.NL +:+ PyStr.NL +:+ "bbbbbb" +:+ PyStr.NL +:+ PyStr.NL +:+ " cc " in
  let c := "bbbbbb" +:+ PyStr.NL +:+ PyStr.NL +:+ " cc" in
  PyStr.len c <= 10 + 2
  \/ exists p, p ∈ PyStr.split (PyStr.NL +:+ PyStr.NL) text /\ c = PyStr.strip p.
Proof.
  cbv zeta. apply (chunk_text_chunk_sizes _ 10).
  vm_compute. right. left.
Defined.

(** The first paragraph, closed when the second does not fit, is stripped. *)
Lemma chunk_text_chunks_clean_witness :
  "aaaaa" <> "" /\ no_outer_space "aaaaa" /\ PyStr.strip "aaaaa" = "aaaaa".
Proof.
  apply (chunk_text_chunks_clean
           ("  aaaaa " +:+ PyStr.NL +:+ PyStr.NL +:+ "bbbbbb" +:+ PyStr.NL +:+ PyStr.NL +:+ " cc ")
           10 "aaaaa").
  vm_compute. left.
Defined.

Section ChunkerContent.
Import PyStr.

Lemma squeeze_app (s t : string) : squeeze (s +:+ t) = squeeze s +:+ squeeze t.
Proof.
  induction s as [|c s IH]; [reflexivity|].
  rewrite app_String. cbn [squeeze]. rewrite IH. now destruct (is_space c).
Qed.

Lemma squeeze_lstrip (s : string) : squeeze (lstrip s) = squeeze s.
Proof.
  induction s as [|c s IH]; [reflexivity|].
  cbn [lstrip squeeze]. destruct (is_space c) eqn:Hc; [exact IH|].
  cbn [squeeze]. now rewrite Hc.
Qed.

Lemma squeeze_rev (s : string) : squeeze (String.rev s) = String.rev (squeeze s).
Proof.
  induction s as [|c s IH]; [reflexivity|].
  rewrite rev_String, squeeze_app, IH. cbn [squeeze].
  destruct (is_space c); [apply app_empty_r | now rewrite rev_String].
Qed.

Lemma squeeze_strip (s : string) : squeeze (strip s) = squeeze s.
Proof.
  unfold strip, rstrip.
  now rewrite squeeze_rev, squeeze_lstrip, squeeze_rev, rev_involutive, squeeze_lstrip.
Qed.

Lemma squeeze_empty_strip (s : string) : strip s = "" -> squeeze s = "".
Proof. intros H. now rewrite <- squeeze_strip, H. Qed.

Lemma squeeze_all_app (l l' : list string) :
  squeeze_all (l ++ l') = squeeze_all l +:+ squeeze_all l'.
Proof.
  induction l as [|s l IH]; [reflexivity|].
  cbn [app squeeze_all fold_right]. fold (squeeze_all (l ++ l')). fold (squeeze_all l).
  now rewrite IH, app_assoc'.
Qed.

Lemma squeeze_all_closed chunks cur :
  squeeze_all (if truthy (strip cur) then chunks ++ [strip cur] else chunks)
  = squeeze_all chunks +:+ squeeze cur.
Proof.
  destruct (truthy (strip cur)) eqn:Ht.
  - rewrite squeeze_all_app. cbn [squeeze_all fold_right].
    now rewrite app_empty_r, squeeze_strip.
  - apply truthy_empty in Ht. now rewrite (squeeze_empty_strip _ Ht), app_empty_r.
Qed.

Lemma chunk_step_squeeze max_chars chunks cur p :
  let r := Indexer.chunk_step max_chars (chunks, cur) p in
  squeeze_all r.1 +:+ squeeze r.2
  = squeeze_all chunks +:+ squeeze cur +:+ squeeze p.
Proof.
  cbv zeta. unfold Indexer.chunk_step.
  destruct (len cur + len p >? max_chars); cbn [fst snd].
  - now rewrite squeeze_all_closed, app_assoc'.
  - rewrite !squeeze_app.
    assert (Hsep : squeeze (if truthy cur then NL +:+ NL else "") = "")
      by now destruct (truthy cur).
    now rewrite Hsep, app_empty_l.
Qed.

Lemma chunk_fold_squeeze max_chars ps chunks cur :
  let r := fold_left (Indexer.chunk_step max_chars) ps (chunks, cur) in
  squeeze_all r.1 +:+ squeeze r.2
  = squeeze_all chunks +:+ squeeze cur +:+ squeeze_all ps.
Proof.
  cbv zeta. revert chunks cur. induction ps as [|p ps IH]; intros chunks cur.
  - cbn. now rewrite app_empty_r.
  - cbn [fold_left]. pose proof (chunk_step_squeeze max_chars chunks cur p) as Hstep.
    cbv zeta in Hstep.
    destruct (Indexer.chunk_step max_chars (chunks, cur) p) as [chunks1 cur1].
    cbn [fst snd] in Hstep. rewrite IH.
    cbn [squeeze_all fold_right]. fold (squeeze_all ps).
    rewrite <- !app_assoc', Hstep. now rewrite !app_assoc'.
Qed.

Lemma squeeze_concat (sep : string) (ps : list string) :
  squeeze sep = "" -> squeeze (String.concat sep ps) = squeeze_all ps.
Proof.
  intros Hsep. induction ps as [|p ps IH]; [reflexivity|].
  cbn [squeeze_all fold_right]. fold (squeeze_all ps).
  destruct ps as [|q ps]; [cbn; now rewrite app_empty_r|].
  rewrite concat_cons by discriminate.
  now rewrite !squeeze_app, Hsep, app_empty_l, IH.
Qed.

(** X26. Chunking loses nothing but white space, and keeps the order: the
    chunks of a text, one after the other and without their white space,
    are the text without its white space. *)
Theorem chunk_text_keeps_the_text (text : string) (max_chars : Z) :
  squeeze_all (Indexer.chunk_text text max_chars) = squeeze text.
Proof.
  unfold Indexer.chunk_text.
  pose proof (chunk_fold_squeeze max_chars (split (NL +:+ NL) text) [] "") as H.
  cbv zeta in H. destruct (fold_left _ _ _) as [chunks cur]. cbn [fst snd] in H.
  rewrite squeeze_all_closed, H. cbn [squeeze_all fold_right squeeze].
  rewrite !app_empty_l, <- (squeeze_concat (NL +:+ NL)) by reflexivity.
  now rewrite concat_split by discriminate.
Qed.

End ChunkerContent.

(* ===================================================================== *)
(** * Further properties: chunk identifiers and collection names *)
(* ===================================================================== *)

Section ChunkIdFormat.
Import PyStr.

Lemma length_be_bytes n x : length (Sha1.be_bytes n x) = n.
Proof.
  revert x. induction n as [|n IH]; intros x; [reflexivity|].
  cbn [Sha1.be_bytes]. rewrite List.length_app, IH. cbn. lia.
Qed.

Lemma be_bytes_range n x : Forall (fun b => 0 <= b < 256) (Sha1.be_bytes n x).
Proof.
  revert x. induction n as [|n IH]; intros x; [constructor|].
  cbn [Sha1.be_bytes]. apply Forall_app. split; [apply IH|].
  constructor; [|constructor].
  change 255 with (Z.ones 8). rewrite Z.land_ones by lia.
  apply Z.mod_pos_bound. lia.
Qed.

Lemma digest_bytes msg :
  length (Sha1.digest msg) = 20%nat /\ Forall (fun b => 0 <= b < 256) (Sha1.digest msg).
Proof.
  unfold Sha1.digest.
  destruct (fold_left Sha1.compress _ _) as [[[[a b] c] d] e].
  cbn [flat_map]. split.
  - rewrite !List.length_app, !length_be_bytes. reflexivity.
  - rewrite !Forall_app. repeat split; try apply be_bytes_range. constructor.
Qed.

Lemma hex_digit_ok n : 0 <= n < 16 -> is_hex_digit (Sha1.hex_digit n) = true.
Proof.
  intros H.
  assert (Hn : n ∈ [0; 1; 2; 3; 4; 5; 6; 7; 8; 9; 10; 11; 12; 13; 14; 15]).
  { rewrite !elem_of_cons. lia. }
  rewrite !elem_of_cons in Hn.
  repeat destruct Hn as [->|Hn]; try reflexivity. now apply elem_of_nil in Hn.
Qed.

Lemma hex_format bs :
  Forall (fun b => 0 <= b < 256) bs ->
  String.length (Sha1.hex bs) = (2 * length bs)%nat
  /\ all_chars is_hex_digit (Sha1.hex bs) = true.
Proof.
  induction 1 as [|b bs Hb _ [IHlen IHall]]; [split; reflexivity|].
  cbn [Sha1.hex fold_right String.length all_chars length].
  fold (Sha1.hex bs). split; [lia|].
  rewrite IHall, !hex_digit_ok; [reflexivity| |].
  - apply Z.mod_pos_bound. lia.
  - split; [apply Z.div_pos; lia | apply Z.div_lt_upper_bound; lia].
Qed.

(** X4. A chunk identifier is forty lowercase hexadecimal digits, whatever
    the repository, the path and the chunk. *)
Theorem make_chunk_id_forty_hex_digits (repo_url file_path chunk_text_ : string) :
  String.length (Indexer.make_chunk_id repo_url file_path chunk_text_) = 40%nat
  /\ all_chars is_hex_digit (Indexer.make_chunk_id repo_url file_path chunk_text_) = true.
Proof.
  unfold Indexer.make_chunk_id, Sha1.hexdigest.
  destruct (digest_bytes (Sha1.utf8 (Indexer.chunk_raw repo_url file_path chunk_text_)))
    as [Hlen Hrange].
  destruct (hex_format _ Hrange) as [Hl Ha]. rewrite Hlen in Hl. now split.
Qed.

End ChunkIdFormat.

Section CollectionName.
Import PyStr.

Lemma split_char_pieces (a : ascii) (s : string) :
  Forall (fun p => find_char a p = None) (split (String a "") s).
Proof.
  induction s as [|c s IH]; [repeat constructor|].
  destruct (Ascii.eqb a c) eqn:Hac.
  - apply Ascii.eqb_eq in Hac as <-.
    rewrite (split_at_separator (String a "") (String a s) s); [|discriminate|reflexivity].
    constructor; [reflexivity | exact IH].
  - rewrite split_no_separator by (cbn; now rewrite Hac).
    assert (Hca : Ascii.eqb c a = false) by (rewrite Ascii.eqb_sym; exact Hac).
    destruct (split (String a "") s) as [|p ps].
    + constructor; [|constructor]. cbn. now rewrite Hca.
    + inversion IH as [|? ? Hp Hps]; subst. constructor; [|exact Hps].
      cbn. now rewrite Hca, Hp.
Qed.

Lemma find_char_app_None a s t :
  find_char a s = None -> find_char a t = None -> find_char a (s +:+ t) = None.
Proof.
  intros Hs Ht. induction s as [|c s IH]; [exact Ht|].
  rewrite app_String. cbn in Hs |- *. destruct (Ascii.eqb c a); [discriminate|].
  destruct (find_char a s); [discriminate|]. now rewrite IH.
Qed.

Lemma find_char_concat a sep ps :
  find_char a sep = None ->
  Forall (fun p => find_char a p = None) ps ->
  find_char a (String.concat sep ps) = None.
Proof.
  intros Hsep. induction 1 as [|p ps Hp Hps IH]; [reflexivity|].
  destruct ps as [|q ps]; [exact Hp|].
  rewrite concat_cons by discriminate.
  auto using find_char_app_None.
Qed.

(** X5. The name of the collection of a repository never holds a slash. *)
Theorem collection_name_has_no_slash (repo_url : string) :
  find_char "/" (Indexer._collection_name repo_url) = None.
Proof.
  unfold Indexer._collection_name, replace at 1.
  apply find_char_concat; [reflexivity | apply split_char_pieces].
Qed.

End CollectionName.

(* ===================================================================== *)
(** * Further properties: the documents and the batches *)
(* ===================================================================== *)

Section FindDocs.
Context `{E : Env}.
Import PyStr.

Lemma doc_keys_docs_set k v d :
  doc_keys (Indexer.docs_set k v d)
  = if bool_decide (k ∈ doc_keys d) then doc_keys d else doc_keys d ++ [k].
Proof.
  induction d as [|[k' v'] d IH]; [reflexivity|].
  cbn [Indexer.docs_set]. destruct (String.eqb k k') eqn:Hk.
  - apply String.eqb_eq in Hk as <-.
    rewrite bool_decide_eq_true_2 by (cbn; left). reflexivity.
  - apply String.eqb_neq in Hk.
    unfold doc_keys in *. cbn [fmap list_fmap fst]. rewrite IH.
    destruct (bool_decide (k ∈ d.*1)) eqn:Hin.
    + apply bool_decide_eq_true_1 in Hin.
      rewrite bool_decide_eq_true_2 by (now right). reflexivity.
    + apply bool_decide_eq_false_1 in Hin.
      rewrite bool_decide_eq_false_2; [reflexivity|].
      rewrite elem_of_cons. intros [?|?]; [congruence | contradiction].
Qed.

Lemma elem_of_docs_set k v d kv :
  kv ∈ Indexer.docs_set k v d -> kv = (k, v) \/ kv ∈ d.
Proof.
  induction d as [|[k' v'] d IH]; cbn [Indexer.docs_set].
  - rewrite list_elem_of_singleton. now left.
  - destruct (String.eqb k k'); rewrite !elem_of_cons; [tauto|].
    intros [?|?]; [tauto|]. destruct IH; auto.
Qed.

Lemma docs_set_NoDup k v d : NoDup (doc_keys d) -> NoDup (doc_keys (Indexer.docs_set k v d)).
Proof.
  intros Hd. rewrite doc_keys_docs_set.
  destruct (bool_decide (k ∈ doc_keys d)) eqn:Hin; [exact Hd|].
  apply bool_decide_eq_false_1 in Hin.
  apply NoDup_app. split; [exact Hd|]. split; [|apply NoDup_singleton].
  intros x Hx Hx'. apply list_elem_of_singleton in Hx' as ->. contradiction.
Qed.

Lemma find_docs_walk repo_path st :
  Indexer.find_docs repo_path st
  = (Ok (fold_left walk_step (walk_files repo_path (world st)) []), st).
Proof. reflexivity. Qed.

Lemma walk_ok (files all : list (string * option string)) found :
  files ⊆ all -> docs_ok all found -> docs_ok all (fold_left walk_step files found).
Proof.
  revert found. induction files as [|[f read] files IH]; intros found Hsub Hok; [exact Hok|].
  cbn [fold_left]. apply IH; [intros x Hx; apply Hsub; now right|].
  cbn [walk_step].
  destruct (bool_decide (lower f ∈ Indexer.candidates)) eqn:Hc; [|exact Hok].
  apply bool_decide_eq_true_1 in Hc.
  destruct read as [text|]; [|exact Hok].
  destruct Hok as (Hnd & Hcand & Hsrc). split; [|split].
  - now apply docs_set_NoDup.
  - rewrite doc_keys_docs_set. destruct (bool_decide _); [exact Hcand|].
    apply Forall_app. split; [exact Hcand|]. now constructor.
  - intros k v Hkv. apply elem_of_docs_set in Hkv as [Heq|Hin]; [|now apply Hsrc].
    injection Heq as -> ->. exists f. split; [|reflexivity]. apply Hsub. now left.
Qed.

Lemma walk_step_keeps found file k :
  k ∈ doc_keys found -> k ∈ doc_keys (walk_step found file).
Proof.
  intros Hk. destruct file as [f [text|]]; cbn [walk_step];
    destruct (bool_decide _); try exact Hk.
  rewrite doc_keys_docs_set. destruct (bool_decide _); [exact Hk|].
  apply elem_of_app. now left.
Qed.

Lemma walk_keeps files found k :
  k ∈ doc_keys found -> k ∈ doc_keys (fold_left walk_step files found).
Proof.
  revert found. induction files as [|file files IH]; intros found Hk; [exact Hk|].
  cbn [fold_left]. now apply IH, walk_step_keeps.
Qed.

Lemma walk_complete files found f text :
  (f, Some text) ∈ files ->
  lower f ∈ Indexer.candidates ->
  lower f ∈ doc_keys (fold_left walk_step files found).
Proof.
  intros Hin Hc. revert found. induction files as [|file files IH]; intros found.
  - inversion Hin.
  - cbn [fold_left]. apply elem_of_cons in Hin as [<- | Hin]; [|now apply IH].
    apply walk_keeps. cbn [walk_step]. rewrite bool_decide_eq_true_2 by exact Hc.
    rewrite doc_keys_docs_set. destruct (bool_decide _) eqn:Hk.
    + now apply bool_decide_eq_true_1 in Hk.
    + apply elem_of_app. right. left.
Qed.

Lemma walk_from_nothing files : docs_ok files (fold_left walk_step files []).
Proof.
  apply walk_ok; [done|]. split; [constructor|]. split; [constructor|].
  intros k v Hin. inversion Hin.
Qed.

(** X6. [find_docs] never raises and changes nothing. The mapping it returns
    has at most one entry for a name and at most four entries in all; its
    keys are the lowercased names of the candidate files that could be
    read, and the content under a key was read from a file of that name. *)
Theorem find_docs_candidates_only (repo_path : string) (st : State) :
  exists docs,
    Indexer.find_docs repo_path st = (Ok docs, st)
    /\ NoDup (doc_keys docs)
    /\ (length docs <= 4)%nat
    /\ (forall k v, (k, v) ∈ docs ->
          k ∈ Indexer.candidates
          /\ exists f, (f, Some v) ∈ walk_files repo_path (world st) /\ lower f = k)
    /\ (forall f text,
          (f, Some text) ∈ walk_files repo_path (world st) ->
          lower f ∈ Indexer.candidates -> lower f ∈ doc_keys docs).
Proof.
  eexists. split; [apply find_docs_walk|].
  destruct (walk_from_nothing (walk_files repo_path (world st))) as (Hnd & Hcand & Hsrc).
  split; [exact Hnd|]. split; [|split].
  - rewrite <- (length_fmap fst).
    fold (doc_keys (fold_left walk_step (walk_files repo_path (world st)) [])).
    change 4%nat with (length Indexer.candidates).
    apply submseteq_length, NoDup_submseteq; [exact Hnd|].
    now apply Forall_forall.
  - intros k v Hkv. split; [|now apply Hsrc].
    rewrite Forall_forall in Hcand. apply Hcand.
    unfold doc_keys. apply list_elem_of_fmap. now exists (k, v).
  - intros f text Hin Hc. now apply (walk_complete _ _ f text).
Qed.

End FindDocs.

Section Batches.

Lemma batched_go_sizes {A} (n fuel : nat) (l : list A) :
  (0 < n)%nat ->
  Forall (fun b => (0 < length b <= n)%nat) (PyList.batched_go fuel n l).
Proof.
  intros Hn. revert l. induction fuel as [|fuel IH]; intros l; [constructor|].
  destruct l as [|x l]; [constructor|].
  cbn [PyList.batched_go]. constructor; [|apply IH].
  rewrite length_take. destruct n; [lia|]. cbn [length]. lia.
Qed.

(** X7. The batches of a list, joined, are the list: nothing is lost,
    repeated or reordered. No batch is empty and none exceeds the size. *)
Theorem batched_partitions {A} (seq : list A) (n : nat) :
  (0 < n)%nat ->
  concat (Indexer._batched seq n) = seq
  /\ Forall (fun b => (0 < length b <= n)%nat) (Indexer._batched seq n).
Proof.
  intros Hn. split; [now apply batched_concat | now apply batched_go_sizes].
Qed.

End Batches.

(* ===================================================================== *)
(** * Further properties: the answer of [index_repo], and retrieval *)
(* ===================================================================== *)

Section IndexRepoAnswer.
Context `{E : Env}.
Import PyStr.

(** X27. When the clone is there, the store accepts the name of the
    collection, the embedding model has one dimension and the collection,
    if it exists, has that dimension, [index_repo] answers [True] exactly
    when a candidate document could be read in the clone; when it answers
    [False] it has called neither the store nor the chat service. *)
Theorem index_repo_answers_whether_docs_were_read
        (repo_url : string) (st st1 : State) (repo_path : string) :
  let name := Indexer._collection_name repo_url in
  Indexer.get_repo_path repo_url st = (Ok repo_path, st1) ->
  collection_name_ok name = true ->
  (forall text, PyList.len (model_encode text) = Indexer.EMB_DIM) ->
  (forall c, chroma st1 !! name = Some c -> Indexer.has_dimension Indexer.EMB_DIM c = true) ->
  exists b st',
    Indexer.index_repo repo_url st = (Ok b, st')
    /\ (b = true <->
        exists f text, (f, Some text) ∈ walk_files repo_path (world st1)
                       /\ lower f ∈ Indexer.candidates)
    /\ (b = false -> st' = st1).
Proof.
  intros name Hpath Hname Hmodel Hdim. unfold Indexer.index_repo, bind at 1. rewrite Hpath.
  unfold bind. rewrite find_docs_walk.
  pose proof (walk_from_nothing (walk_files repo_path (world st1))) as (_ & Hcand & Hsrc).
  destruct (fold_left walk_step _ _) as [|[k v] docs] eqn:Hdocs.
  - exists false, st1. split; [reflexivity|]. split; [|reflexivity]. split; [discriminate|].
    intros (f & text & Hin & Hc).
    pose proof (walk_complete _ [] f text Hin Hc) as Hkey.
    rewrite Hdocs in Hkey. inversion Hkey.
  - destruct (index_docs_completes repo_url ((k, v) :: docs) st1 Hname Hmodel Hdim)
      as (st' & c' & -> & _).
    exists true, st'. split; [reflexivity|]. split; [|discriminate]. split; [|reflexivity].
    intros _. destruct (Hsrc k v ltac:(left)) as (f & Hin & <-).
    exists f, v. split; [exact Hin|].
    inversion Hcand; subst. assumption.
Qed.

End IndexRepoAnswer.

Section Retrieval.
Context `{E : Env}.
Import PyStr.

(** Opening a collection that is there gives its current handle. *)
Lemma open_handle name st c :
  chroma st !! name = Some c ->
  bind (Indexer.client_get_collection name) (fun col => Indexer.handle_of col) st
  = (Ok (name, Indexer.generation_of name st), log_store (OpGetCollection name) st).
Proof.
  intros Hc. unfold bind, Indexer.client_get_collection. cbn [chroma log_store].
  now rewrite Hc.
Qed.

(** X12. When the collection exists and the query succeeds, [retrieve_docs]
    returns one chunk for each document found, in the order of the answer,
    after two calls on the store: the collection is opened and queried, and
    nothing is written, reset or indexed. *)
Theorem retrieve_docs_from_existing_collection
        (repo_url query : string) (top_k : Z) (st : State)
        (c : gmap string entry) (found : list (string * dict)) :
  let name := Indexer._collection_name repo_url in
  chroma st !! name = Some c ->
  store_query (entries_of c) (model_encode query) top_k = Ok found ->
  exists st',
    Indexer.retrieve_docs repo_url query top_k st = (Ok (chunks_of found), st')
    /\ chroma st' = chroma st
    /\ store_steps st st' [OpGetCollection name; OpQuery name].
Proof.
  intros name Hc Hq. eexists. split.
  - unfold Indexer.retrieve_docs. fold name.
    unfold bind at 1. rewrite attempt_run, (open_handle name st c Hc).
    cbn [fst snd]. unfold ret at 1. unfold bind at 1. unfold bind at 1.
    rewrite attempt_run. unfold Indexer.col_query. cbn [chroma log_store fst snd].
    rewrite Hc. unfold Indexer.generation_of. cbn [generations log_store].
    rewrite Nat.eqb_refl.
    fold (entries_of c). rewrite Hq. reflexivity.
  - split; [reflexivity|]. unfold store_steps. cbn. rewrite <- app_assoc. auto.
Qed.

End Retrieval.

Section RetrievalOnMissingCollection.
Context `{E : Env}.
Import PyStr.
Local Open Scope eff_scope.

Lemma open_missing name st :
  chroma st !! name = None ->
  (col <- Indexer.client_get_collection name ;; Indexer.handle_of col) st
  = (Raise "collection does not exist", log_store (OpGetCollection name) st).
Proof.
  intros Hc. unfold bind, Indexer.client_get_collection. cbn [chroma log_store].
  now rewrite Hc.
Qed.

(** Creating a collection that is not there gives the handle of a new,
    empty collection, or raises when the store refuses the name. *)
Lemma create_handle name st :
  chroma st !! name = None ->
  if collection_name_ok name then
    exists st',
      (col <- Indexer.client_create_collection name ;; Indexer.handle_of col) st
      = (Ok (name, Indexer.generation_of name st'), st')
      /\ chroma st' !! name = Some ∅
  else
    exists e st',
      (col <- Indexer.client_create_collection name ;; Indexer.handle_of col) st
      = (Raise e, st').
Proof.
  intros Hc. unfold bind, Indexer.client_create_collection. cbn [chroma log_store].
  destruct (collection_name_ok name); cbn [negb]; [|eauto].
  rewrite Hc. unfold Indexer.handle_of. eexists. split; [reflexivity|].
  cbn [chroma with_generations with_chroma]. apply lookup_insert_eq.
Qed.

(** What follows the creation of the collection in [retrieve_docs], with
    what is done when the query raises given as [recovery]. *)
Lemma index_and_query repo_url query top_k (recovery : M (list dict)) st :
  let name := Indexer._collection_name repo_url in
  collection_name_ok name = true ->
  (forall text, PyList.len (model_encode text) = Indexer.EMB_DIM) ->
  (Indexer.RESET_THRESHOLD <= 1)%Q ->
  (forall query_emb n_results, store_query [] query_emb n_results = Ok []) ->
  chroma st !! name = Some ∅ ->
  exists r st',
    (indexed <- Indexer.index_repo repo_url ;;
     if indexed then
       first <- attempt (Indexer.col_query (name, Indexer.generation_of name st)
                           (model_encode query) top_k) ;;
       match first with
       | Ok found => ret (chunks_of found)
       | Raise _ => recovery
       end
     else ret []) st = (r, st')
    /\ (r = Ok [] \/ (exists e, r = Raise e) \/ exists s, (r, st') = recovery s).
Proof.
  intros name Hname Hmodel Hle Hquery Hc. unfold bind at 1.
  destruct (index_repo_on_empty repo_url st Hname Hmodel Hle Hc)
    as (r & s1 & -> & [[e ->] | [-> | [[-> Hg] | (-> & Hg & Hc1)]]]).
  - eexists _, _. split; [reflexivity|]. right. left. eauto.
  - eexists _, _. split; [reflexivity|]. now left.
  - unfold bind. rewrite attempt_run.
    destruct (col_query_stale name (Indexer.generation_of name st) (model_encode query)
                top_k s1 Hg) as (e & s2 & ->).
    cbn [fst snd]. destruct (recovery s2) as [r s3] eqn:Hrec.
    exists r, s3. split; [reflexivity|]. right. right. eauto.
  - unfold bind. rewrite attempt_run. fold name in Hg. rewrite <- Hg.
    rewrite (col_query_empty name _ _ s1 Hc1), Hquery.
    eexists _, _. split; [reflexivity|]. now left.
Qed.

(** The recovery of [retrieve_docs], from any state. *)
Lemma recovery_returns_nothing repo_url query top_k st :
  let name := Indexer._collection_name repo_url in
  collection_name_ok name = true ->
  (forall text, PyList.len (model_encode text) = Indexer.EMB_DIM) ->
  (Indexer.RESET_THRESHOLD <= 1)%Q ->
  (forall query_emb n_results, store_query [] query_emb n_results = Ok []) ->
  exists r st',
    (Indexer._reset_collection name ;;;
     col <- (col <- Indexer.client_create_collection name ;; Indexer.handle_of col) ;;
     indexed <- Indexer.index_repo repo_url ;;
     if indexed then
       second <- attempt (Indexer.col_query col (model_encode query) top_k) ;;
       match second with
       | Ok found => ret (chunks_of found)
       | Raise _ => ret []
       end
     else ret []) st = (r, st')
    /\ (r = Ok [] \/ exists e, r = Raise e).
Proof.
  intros name Hname Hmodel Hle Hquery. unfold bind at 1.
  destruct (reset_collection_spec name st) as (s2 & -> & _ & _ & Hc2).
  assert (Hnone : chroma s2 !! name = None) by (rewrite Hc2; apply lookup_delete_eq).
  pose proof (create_handle name s2 Hnone) as Hcreate. rewrite Hname in Hcreate.
  destruct Hcreate as (s3 & Hcreate & Hc3).
  unfold bind at 1. rewrite Hcreate.
  destruct (index_and_query repo_url query top_k (ret []) s3 Hname Hmodel Hle Hquery Hc3)
    as (r & s4 & Hrun & Hcases). fold name in Hrun. rewrite Hrun.
  exists r, s4. split; [reflexivity|].
  destruct Hcases as [H | [H | [s H]]]; [now left | now right | left].
  unfold ret in H. congruence.
Qed.

Lemma retrieve_docs_on_missing repo_url query top_k st :
  let name := Indexer._collection_name repo_url in
  chroma st !! name = None ->
  (forall text, PyList.len (model_encode text) = Indexer.EMB_DIM) ->
  (Indexer.RESET_THRESHOLD <= 1)%Q ->
  (forall query_emb n_results, store_query [] query_emb n_results = Ok []) ->
  exists r st',
    Indexer.retrieve_docs repo_url query top_k st = (r, st')
    /\ (r = Ok [] \/ exists e, r = Raise e).
Proof.
  intros name Hc Hmodel Hle Hquery.
  unfold Indexer.retrieve_docs. fold name.
  unfold bind at 1. rewrite attempt_run, (open_missing name st Hc). cbn [fst snd].
  set (s0 := log_store (OpGetCollection name) st).
  pose proof (create_handle name s0 Hc) as Hcreate.
  destruct (collection_name_ok name) eqn:Hname.
  2:{ destruct Hcreate as (e & s1 & Hcreate).
      unfold bind at 1. unfold bind at 1. rewrite Hcreate.
      eexists _, _. split; [reflexivity|]. right. eauto. }
  destruct Hcreate as (s1 & Hcreate & Hc1).
  unfold bind at 1. unfold bind at 1. rewrite Hcreate.
  destruct (index_repo_on_empty repo_url s1 Hname Hmodel Hle Hc1)
    as (r & s2 & Hrun & Hcases).
  unfold bind at 1. rewrite Hrun.
  destruct Hcases as [[e ->] | [-> | [[-> Hg] | (-> & Hg & Hc2)]]].
  - eexists _, _. split; [reflexivity|]. right. eauto.
  - eexists _, _. split; [reflexivity|]. now left.
  - unfold ret at 1. unfold bind at 1. rewrite attempt_run.
    destruct (col_query_stale name (Indexer.generation_of name s1) (model_encode query)
                top_k s2 Hg) as (e & s3 & ->).
    cbn [fst snd].
    exact (recovery_returns_nothing repo_url query top_k s3 Hname Hmodel Hle Hquery).
  - unfold ret at 1. unfold bind at 1. rewrite attempt_run. fold name in Hg.
    rewrite <- Hg, (col_query_empty name _ _ s2 Hc2), Hquery.
    eexists _, _. split; [reflexivity|]. now left.
Qed.

(** X31. The call of [retrieve_docs] that creates the collection returns no
    chunk. When the collection is not there, the embedding model has one
    dimension, the reset threshold is at most 1 and a query on an empty
    collection finds nothing, [retrieve_docs] raises or returns the empty
    list: the indexing that it starts resets the collection it has just
    created, the query on the handle it kept raises, and the same happens
    once more in the recovery. *)
Theorem retrieve_docs_creating_the_collection_returns_nothing
        (repo_url query : string) (top_k : Z) (st : State) :
  let name := Indexer._collection_name repo_url in
  chroma st !! name = None ->
  (forall text, PyList.len (model_encode text) = Indexer.EMB_DIM) ->
  (Indexer.RESET_THRESHOLD <= 1)%Q ->
  (forall query_emb n_results, store_query [] query_emb n_results = Ok []) ->
  exists r st',
    Indexer.retrieve_docs repo_url query top_k st = (r, st')
    /\ (r = Ok [] \/ exists e, r = Raise e).
Proof. apply retrieve_docs_on_missing. Qed.

End RetrievalOnMissingCollection.

(* ===================================================================== *)
(** * Further properties: the review stream *)
(* ===================================================================== *)

Section ReviewStream.
Context `{E : Env}.
Import PyStr.

(** X13. A diff that cannot be taken is fatal to the review: when the diff
    command exits with a code other than 0, the stream yields no event and
    raises with the error output of the command. *)
Theorem stream_review_diff_failure
        (repo_url : string) (staged auto_fix : bool) (st st1 : State)
        (repo_dir : string) (code : Z) (out err : string) (w2 : World) :
  Review.get_repo_path repo_url st = (Ok repo_dir, st1) ->
  shell (Review.diff_command staged) repo_dir (world st1) = ((code, out, err), w2) ->
  code <> 0 ->
  Review.stream_review repo_url staged auto_fix st
  = (([], Raise ("Failed to get git diff: " +:+ err)), with_world w2 st1).
Proof.
  intros Hpath Hshell Hcode.
  unfold Review.stream_review, gbind, lift. rewrite Hpath.
  unfold Review.get_git_diff, bind, Review.run_command, run_shell. rewrite Hshell.
  apply Z.eqb_neq in Hcode. rewrite Hcode. reflexivity.
Qed.

(** X14. A review without fixes is the diff, the changed files, one lint
    record for each changed Python file and then one bug-check record for
    each, in the order of the file list, all of stage before_fix; nothing
    else is emitted, and the stream does not raise whatever the tools
    answer. *)
Theorem stream_review_without_autofix
        (repo_url : string) (staged : bool) (st st1 st2 : State)
        (repo_dir diff_text : string) (code : Z) (out err : string) (w3 : World) :
  Review.get_repo_path repo_url st = (Ok repo_dir, st1) ->
  Review.get_git_diff repo_dir staged st1 = (Ok diff_text, st2) ->
  diff_text <> "" ->
  shell "git diff --name-only HEAD" repo_dir (world st2) = ((code, out, err), w3) ->
  let files := Review.changed_files_of out in
  exists lint bugs st',
    Review.stream_review repo_url staged false st
    = ((Review.original_diff_event diff_text
          :: Review.changed_files_event files :: lint ++ bugs, Ok tt), st')
    /\ Forall2 (check_record "lint" "before_fix") (python_files files) lint
    /\ Forall2 (check_record "bugcheck" "before_fix") (python_files files) bugs.
Proof.
  intros Hpath Hdiff Hne Hnames files.
  rewrite (stream_review_changes _ _ false _ _ _ _ _ Hpath Hdiff Hne _ _ _ _ Hnames).
  fold files. cbv zeta.
  set (run := Review.review_checks repo_dir staged false files (with_world w3 st2)).
  destruct (runner_records "lint" (fun f => "flake8 " +:+ f) repo_dir files
              (with_world w3 st2)) as (l0 & s1 & Hl0 & Hlint0).
  destruct (staged_records "lint" "before_fix" _ _ _ _ Hl0 _ Hlint0)
    as (lint & Hlint & Hl).
  destruct (runner_records "bugcheck" (fun f => "pylint --disable=R,C " +:+ f) repo_dir
              files s1) as (b0 & s2 & Hb0 & Hbugs0).
  destruct (staged_records "bugcheck" "before_fix" _ _ _ _ Hb0 _ Hbugs0)
    as (bugs & Hbugs & Hb).
  assert (Hrun : run = ((lint ++ bugs, Ok tt), s2)).
  { unfold run, Review.review_checks, Review.run_flake8_on_files, Review.run_bug_checks.
    unfold gbind at 1. rewrite Hlint. unfold gbind at 1. rewrite Hbugs.
    unfold gret. now rewrite app_nil_r. }
  exists lint, bugs, s2. rewrite Hrun. auto.
Qed.

Lemma result_gbind {A B} (m : G A) (k : A -> G B) st es a st' :
  m st = ((es, Ok a), st') -> result_of (gbind m k st) = result_of (k a st').
Proof.
  intros H. unfold gbind, result_of. rewrite H. now destruct (k a st') as [[es' r] st''].
Qed.

Lemma staged_as_ok stage (g : G unit) st es st' :
  g st = ((es, Ok tt), st') ->
  Review.staged_as stage g st
  = ((Dict.cons_merge "stage" (PStr stage) <$> es, Ok tt), st').
Proof. intros H. unfold Review.staged_as. now rewrite H. Qed.

(** The checks never raise. *)
Lemma review_checks_total repo_dir staged auto_fix files st :
  result_of (Review.review_checks repo_dir staged auto_fix files st) = Ok tt.
Proof.
  unfold Review.review_checks.
  destruct (run_flake8_on_files_records repo_dir files st) as (l1 & s1 & Hl1 & _).
  rewrite (result_gbind _ _ _ _ _ _ (staged_as_ok "before_fix" _ _ _ _ Hl1)).
  destruct (run_bug_checks_records repo_dir files s1) as (b1 & s2 & Hb1 & _).
  rewrite (result_gbind _ _ _ _ _ _ (staged_as_ok "before_fix" _ _ _ _ Hb1)).
  destruct auto_fix; [|reflexivity].
  rewrite (result_gbind (yield _) _ s2 _ tt s2 eq_refl).
  destruct (auto_fix_files_records repo_dir files s2) as (fx & s3 & Hfx & _).
  rewrite (result_gbind _ _ _ _ _ _ Hfx).
  rewrite (result_gbind (yield _) _ s3 _ tt s3 eq_refl).
  destruct (run_flake8_on_files_records repo_dir files s3) as (l2 & s4 & Hl2 & _).
  rewrite (result_gbind _ _ _ _ _ _ (staged_as_ok "after_fix" _ _ _ _ Hl2)).
  destruct (run_bug_checks_records repo_dir files s4) as (b2 & s5 & Hb2 & _).
  rewrite (result_gbind _ _ _ _ _ _ (staged_as_ok "after_fix" _ _ _ _ Hb2)).
  unfold gtry_except, gbind, lift, result_of.
  destruct (Review.get_git_diff repo_dir staged s5) as [[post|e] s6]; cbn -[truthy].
  - now destruct (truthy post).
  - reflexivity.
Qed.

(** X15. Once the repository is there and the first diff is taken, the
    review stream does not raise, with or without fixes: the failure of a
    tool is part of its record, and a diff that cannot be taken after the
    fixes becomes a warning event. *)
Theorem stream_review_completes_after_diff
        (repo_url : string) (staged auto_fix : bool) (st st1 st2 : State)
        (repo_dir diff_text : string) :
  Review.get_repo_path repo_url st = (Ok repo_dir, st1) ->
  Review.get_git_diff repo_dir staged st1 = (Ok diff_text, st2) ->
  result_of (Review.stream_review repo_url staged auto_fix st) = Ok tt.
Proof.
  intros Hpath Hdiff. destruct diff_text as [|c diff_text].
  - unfold Review.stream_review, gbind, lift. now rewrite Hpath, Hdiff.
  - destruct (shell "git diff --name-only HEAD" repo_dir (world st2))
      as [[[code out] err] w3] eqn:Hnames.
    rewrite (stream_review_changes _ _ auto_fix _ _ _ _ _ Hpath Hdiff
               ltac:(discriminate) _ _ _ _ Hnames).
    cbv zeta. unfold result_of at 1. cbn [fst snd]. apply review_checks_total.
Qed.

(** X16. The changed files are names: none is empty and none begins or ends
    with white space. *)
Theorem changed_files_are_clean_names (out : string) :
  Forall (fun f => f <> "" /\ no_outer_space f /\ strip f = f)
         (Review.changed_files_of out).
Proof.
  unfold Review.changed_files_of. apply Forall_fmap, Forall_forall.
  intros line Hin. apply list_elem_of_filter in Hin as [Ht _]. cbn.
  split; [|split].
  - intros Heq. now rewrite Heq in Ht.
  - apply strip_no_outer_space.
  - apply strip_idem.
Qed.

End ReviewStream.

(* ===================================================================== *)
(** * Further properties: the clone, the chat calls, the endpoints and the agent *)
(* ===================================================================== *)

Section RepoPath.
Context `{E : Env}.
Import PyStr.

(** X17. A clone that is present is used as it is, even when the pull
    fails: neither [get_repo_path] raises, and the indexer and the reviewer
    resolve the repository to the same directory under [repos]. *)
Theorem get_repo_path_existing_clone (repo_url : string) (st : State) :
  let repo_path := path_join (path_join BASE_DIR "repos") (Indexer.repo_name repo_url) in
  path_exists repo_path (world st) = true ->
  (exists w, Indexer.get_repo_path repo_url st = (Ok repo_path, with_world w st))
  /\ (exists w, Review.get_repo_path repo_url st = (Ok repo_path, with_world w st)).
Proof.
  intros repo_path Hthere. split.
  - unfold Indexer.get_repo_path, bind, os_path_exists, Indexer.REPOS_DIR.
    fold repo_path. rewrite Hthere. cbn [negb]. unfold run_exec, ret.
    destruct (exec _ (world st)) as [code w]. now exists w.
  - unfold Review.get_repo_path, bind, os_path_exists.
    fold (Indexer.repo_name repo_url). fold repo_path. rewrite Hthere. cbn [negb].
    rewrite attempt_run. unfold repo_pull, ret.
    destruct (git_pull repo_path (world st)) as [r w]. now exists w.
Qed.

End RepoPath.

Section ChatCalls.
Context `{E : Env}.
Import PyStr.

Lemma get_llm_ok key st :
  GROQ_API_KEY = Some key -> truthy key = true -> Agent.get_llm st = (Ok tt, st).
Proof. intros Hkey Ht. unfold Agent.get_llm. now rewrite Hkey, Ht. Qed.

Lemma get_llm_missing st :
  GROQ_API_KEY = None \/ GROQ_API_KEY = Some "" ->
  Agent.get_llm st = (Raise "Missing GROQ_API_KEY in .env", st).
Proof. intros [H | H]; unfold Agent.get_llm; now rewrite H. Qed.

(** X18. With a credential [call_llm] never raises. It sends its two
    messages once and touches nothing of the store; the answer is the
    content of the reply, and when the service fails it is the text of the
    failure after [ERROR: ]. *)
Theorem call_llm_reports_failure_as_text (prompt : string) (st : State) (key : string) :
  GROQ_API_KEY = Some key ->
  truthy key = true ->
  exists answer st',
    Agent.call_llm prompt st = (Ok answer, st')
    /\ llm_log st' = llm_log st ++ [qna_messages prompt]
    /\ store_log st' = store_log st
    /\ chroma st' = chroma st
    /\ answer = match (llm_invoke (qna_messages prompt) (world st)).1 with
                | Ok msg => default (shown msg) (content msg)
                | Raise e => "ERROR: " +:+ e
                end.
Proof.
  intros Hkey Ht. unfold Agent.call_llm, bind at 1. rewrite (get_llm_ok key st Hkey Ht).
  unfold try_except, bind, chat_invoke, ret. fold (qna_messages prompt).
  destruct (llm_invoke (qna_messages prompt) (world st)) as [[msg|e] w];
    eexists _, _; (split; [reflexivity|]); cbn; auto.
Qed.

(** X19. Without a credential no message leaves: [call_llm] and the
    summarizer both raise the error of the missing key and leave the state
    as it was. *)
Theorem missing_credential_stops_the_call
        (prompt : string) (events : list dict) (st : State) :
  GROQ_API_KEY = None \/ GROQ_API_KEY = Some "" ->
  Agent.call_llm prompt st = (Raise "Missing GROQ_API_KEY in .env", st)
  /\ Agent.summarize_review_events_with_llm events st
     = (Raise "Missing GROQ_API_KEY in .env", st).
Proof.
  intros Hkey. unfold Agent.call_llm, Agent.summarize_review_events_with_llm, bind.
  now rewrite (get_llm_missing st Hkey).
Qed.

(** X20. The summarizer does not catch a failure of the chat service: the
    error is raised to the caller, after the one call was made. *)
Theorem summarizer_raises_service_failure
        (events : list dict) (st : State) (key e : string) (w : World) :
  GROQ_API_KEY = Some key ->
  truthy key = true ->
  llm_invoke (Agent.summary_messages events) (world st) = (Raise e, w) ->
  Agent.summarize_review_events_with_llm events st
  = (Raise e, with_world w (log_llm (Agent.summary_messages events) st)).
Proof.
  intros Hkey Ht Hfail. unfold Agent.summarize_review_events_with_llm, bind at 1.
  rewrite (get_llm_ok key st Hkey Ht). unfold bind, chat_invoke. now rewrite Hfail.
Qed.

End ChatCalls.

Section Endpoints.
Context `{E : Env}.
Import PyStr.

(** X21. A repository that cannot be cloned makes [POST /qna] answer with
    status 500 before anything else happens: the store and the chat service
    are not called, and only the world has changed. *)
Theorem qna_clone_failure (req : Main.QnaRequest) (st : State) (code : Z) (w : World) :
  let repo_path :=
    path_join Indexer.REPOS_DIR (Indexer.repo_name (Main.repo_url req)) in
  path_exists repo_path (world st) = false ->
  exec ["git"; "clone"; Main.repo_url req; repo_path] (world st) = (code, w) ->
  code <> 0 ->
  exists detail,
    Main.qna req st = (Ok (Main.HTTPException 500 detail), with_world w st).
Proof.
  intros repo_path Hmissing Hclone Hcode.
  unfold Main.qna, try_except, bind at 1.
  unfold Indexer.get_repo_path, bind at 1. unfold os_path_exists. fold repo_path.
  rewrite Hmissing. cbn [negb]. unfold bind, run_exec. rewrite Hclone.
  apply Z.eqb_neq in Hcode. rewrite Hcode. unfold raise, ret. eauto.
Qed.

(** X22. [POST /qna] never returns more chunks than were asked for. *)
Theorem qna_returns_at_most_top_k (req : Main.QnaRequest) (st : State) :
  0 <= Main.top_k req ->
  match (Main.qna req st).1 with
  | Ok (Main.QnaResponse _ top_chunks) => PyList.len top_chunks <= Main.top_k req
  | _ => True
  end.
Proof.
  intros Hk. unfold Main.qna, try_except.
  match goal with |- context [match ?m st with _ => _ end] => destruct (m st) as [[r|e] st'] eqn:Hrun end;
    [|exact I].
  apply bind_Ok in Hrun as (p1 & sA & _ & Hrun).
  apply bind_Ok in Hrun as (prepared & sB & _ & Hrun).
  apply bind_Ok in Hrun as (texts & sC & _ & Hrun).
  apply bind_Ok in Hrun as (answer & sD & _ & Hrun).
  injection Hrun as <- _. cbn [fst]. unfold PyList.len. rewrite length_take. lia.
Qed.

(** X23. [POST /reset] always answers with its status line; its error
    branch is never taken. The collection of the repository is gone
    afterwards, whether it was there or not, after one call on the store,
    and every other collection is as before. *)
Theorem reset_chromadb_always_succeeds (repo_url : string) (st : State) :
  let name := Indexer._collection_name repo_url in
  exists st',
    Main.reset_chromadb repo_url st
    = (Ok (Main.ResetStatus ("reset collection '" +:+ name +:+ "' done")), st')
    /\ chroma st' = delete name (chroma st)
    /\ store_steps st st' [OpDeleteCollection name].
Proof.
  intros name.
  destruct (reset_collection_spec name st) as (st' & Hrun & Hsteps & _ & Hc).
  exists st'. unfold Main.reset_chromadb, try_except, bind. fold name.
  rewrite Hrun. auto.
Qed.

End Endpoints.

Section AgentRunnerFacts.
Context `{E : Env}.
Import PyStr.

(** X24. A task type other than [review] and [qna] is refused at once: the
    agent raises its error, and no tool has run and no message was sent. *)
Theorem run_agent_rejects_unknown_task
        (task_type repo_url query : string) (auto_fix : bool) (st : State) :
  task_type <> "review" ->
  task_type <> "qna" ->
  AgentRunner.run_agent task_type repo_url query auto_fix st
  = (Raise "Invalid task_type: must be 'qna' or 'review'", st).
Proof.
  intros Hr Hq. apply String.eqb_neq in Hr, Hq.
  unfold AgentRunner.run_agent, bind, AgentRunner.tool_inputs_of.
  now rewrite Hr, Hq.
Qed.

(** X25. The agent looks for the credential only after the tool has run: a
    review without a credential still runs the whole review stream, with
    its fixes when asked for, and raises the error of the missing key from
    the state the stream has left. *)
Theorem run_agent_review_runs_before_credential_check
        (repo_url query : string) (auto_fix : bool) (st st1 : State)
        (events : list dict) :
  GROQ_API_KEY = None \/ GROQ_API_KEY = Some "" ->
  collect (Review.stream_review repo_url false auto_fix) st = (Ok events, st1) ->
  AgentRunner.run_agent "review" repo_url query auto_fix st
  = (Raise "Missing GROQ_API_KEY in .env", st1).
Proof.
  intros Hkey Hrun.
  unfold AgentRunner.run_agent, bind at 1. unfold AgentRunner.tool_inputs_of.
  cbn [String.eqb Ascii.eqb Bool.eqb]. unfold bind at 1. rewrite Hrun.
  unfold ret at 1. unfold bind. now rewrite (get_llm_missing st1 Hkey).
Qed.

End AgentRunnerFacts.

(* ===================================================================== *)
(** * Further properties: instances on the concrete environments *)
(* ===================================================================== *)

(** Five identifiers in batches of two. *)
Lemma batched_partitions_witness :
  concat (Indexer._batched ["a"; "b"; "c"; "d"; "e"] 2) = ["a"; "b"; "c"; "d"; "e"]
  /\ Forall (fun b => (0 < length b <= 2)%nat) (Indexer._batched ["a"; "b"; "c"; "d"; "e"] 2).
Proof. apply (batched_partitions ["a"; "b"; "c"; "d"; "e"] 2). lia. Defined.

(** Three identifiers assessed while the first read of the store raises. *)
Lemma assess_counts_each_identifier_once_witness :
  let E := Demo.env Demo.clean in
  exists broken ok st',
    @Indexer.assess E "c" ["x"; "y"; "z"] (Indexer._batched ["x"; "y"; "z"] 256) "c" (0, 0)
      (with_faults [true] (Demo.initial Demo.clean))
    = (Ok ("c", (broken, ok)), st')
    /\ 0 <= broken /\ 0 <= ok
    /\ broken + ok = PyList.len ["x"; "y"; "z"].
Proof.
  apply (@assess_counts_each_identifier_once (Demo.env Demo.clean) "c" ["x"; "y"; "z"]
           (with_faults [true] (Demo.initial Demo.clean))).
  reflexivity.
Defined.

(** The repository of [Demo.clean] indexed into an empty store while the
    first and the third read raise. *)
Lemma index_docs_always_completes_witness :
  let E := Demo.env Demo.clean in
  let name := "github.com_acme_widgets" in
  let cid := "bc1394b8cf71d2e96445aebc0e84defbaae2f47a" in
  exists st',
    @Indexer.index_docs E Demo.url [("readme.md", "hello")]
      (with_faults [true; false; true] (Demo.initial Demo.clean))
    = (Ok true, st')
    /\ @healthy_in E st' name cid = true.
Proof.
  intros E name cid.
  assert (Hworklist :
            @Indexer.build_worklist Demo.url [("readme.md", "hello")]
            = [("readme.md", "hello", cid)])
    by (vm_compute; reflexivity).
  destruct (@index_docs_always_completes E Demo.url [("readme.md", "hello")]
              (with_faults [true; false; true] (Demo.initial Demo.clean)))
    as (st' & c' & Hrun & _ & _ & _ & Hall).
  - reflexivity.
  - intros text. reflexivity.
  - intros c Hc. vm_compute in Hc. discriminate.
  - exists st'. split; [exact Hrun|].
    apply (Hall "readme.md" "hello" cid). rewrite Hworklist. left.
Defined.

(** The repository of [Demo.clean] indexed a second time: the store holds
    the entry of its one chunk and holds it afterwards. *)
Lemma index_docs_again_keeps_the_store_witness :
  let E := Demo.env Demo.clean in
  let name := "github.com_acme_widgets" in
  let cid := "bc1394b8cf71d2e96445aebc0e84defbaae2f47a" in
  let st := @Build_State E {| Demo.w_fixed := false; Demo.w_cloned := true |}
              (<[name := <[cid := @fresh_entry E Demo.url "readme.md" "hello"]> ∅]> ∅)
              ∅ [] [] [] in
  exists st',
    @Indexer.index_docs E Demo.url [("readme.md", "hello")] st = (Ok true, st')
    /\ chroma st' = chroma st.
Proof.
  intros E name cid st.
  assert (Hworklist :
            @Indexer.build_worklist Demo.url [("readme.md", "hello")]
            = [("readme.md", "hello", cid)])
    by (vm_compute; reflexivity).
  apply (@index_docs_again_keeps_the_store E Demo.url [("readme.md", "hello")] st
           (<[cid := @fresh_entry E Demo.url "readme.md" "hello"]> ∅)).
  - constructor.
  - vm_compute. reflexivity.
  - intros text. reflexivity.
  - apply lookup_insert_eq.
  - vm_compute. reflexivity.
  - intros fname chunk cid' Hin. rewrite Hworklist in Hin.
    apply list_elem_of_singleton in Hin. injection Hin as -> -> ->.
    apply lookup_insert_eq.
Defined.

(** A repository given by its SSH address to a store that refuses the
    character [@] in a name. *)
Lemma index_docs_refused_name_witness :
  let E := Outage.env Outage.no_key in
  exists st',
    @Indexer.index_docs E "git@github.com:acme/widgets.git" [("readme.md", "hello")]
      (Outage.start Outage.no_key true)
    = (Raise "the store refuses the collection name", st')
    /\ chroma st' = ∅.
Proof.
  intros E.
  destruct (@index_docs_refused_name E "git@github.com:acme/widgets.git"
              [("readme.md", "hello")] (Outage.start Outage.no_key true))
    as (st' & Hrun & _ & Hc).
  - apply lookup_empty.
  - vm_compute. reflexivity.
  - exists st'. split; [exact Hrun | exact Hc].
Defined.

(** The repository of [Demo.clean] indexed into the collection that has
    just been created for it. *)
Lemma index_docs_renews_an_empty_collection_witness :
  let E := Demo.env Demo.clean in
  let name := "github.com_acme_widgets" in
  let st := (@Indexer.client_create_collection E name (Demo.initial Demo.clean)).2 in
  exists st',
    @Indexer.index_docs E Demo.url [("readme.md", "hello")] st = (Ok true, st')
    /\ (@Indexer.generation_of E name st < @Indexer.generation_of E name st')%nat.
Proof.
  intros E name st.
  destruct (@index_docs_renews_an_empty_collection E Demo.url [("readme.md", "hello")] st)
    as (st' & Hrun & Hg & _).
  - reflexivity.
  - intros text. reflexivity.
  - vm_compute. discriminate.
  - vm_compute. discriminate.
  - vm_compute. reflexivity.
  - exists st'. split; [exact Hrun | exact Hg].
Defined.

(** A question to the store that holds the one chunk of [Demo.clean]. *)
Lemma retrieve_docs_from_existing_collection_witness :
  let E := Demo.env Demo.clean in
  let name := "github.com_acme_widgets" in
  let cid := "bc1394b8cf71d2e96445aebc0e84defbaae2f47a" in
  let st := @Build_State E {| Demo.w_fixed := false; Demo.w_cloned := true |}
              (<[name := <[cid := @fresh_entry E Demo.url "readme.md" "hello"]> ∅]> ∅)
              ∅ [] [] [] in
  exists st',
    @Indexer.retrieve_docs E Demo.url "How do I install it?" 5 st
    = (Ok [[("text", PStr "hello");
            ("metadata", PDict [("repo", PStr Demo.url); ("path", PStr "readme.md")])]],
       st')
    /\ chroma st' = chroma st.
Proof.
  intros E name cid st.
  destruct (@retrieve_docs_from_existing_collection E Demo.url "How do I install it?" 5 st
              (<[cid := @fresh_entry E Demo.url "readme.md" "hello"]> ∅)
              [("hello", [("repo", PStr Demo.url); ("path", PStr "readme.md")])])
    as (st' & Hrun & Hc & _).
  - apply lookup_insert_eq.
  - vm_compute. reflexivity.
  - exists st'. split; [exact Hrun | exact Hc].
Defined.

(** The first question about the repository of [Demo.clean]: the store is
    empty, and no chunk comes back. *)
Lemma retrieve_docs_creating_the_collection_returns_nothing_witness :
  (@Indexer.retrieve_docs (Demo.env Demo.clean) Demo.url "How do I install it?" 5
     (Demo.initial Demo.clean)).1 = Ok [].
Proof.
  destruct (@retrieve_docs_creating_the_collection_returns_nothing (Demo.env Demo.clean)
              Demo.url "How do I install it?" 5 (Demo.initial Demo.clean))
    as (r & st' & Hrun & [-> | [e ->]]).
  - apply lookup_empty.
  - intros text. reflexivity.
  - vm_compute. discriminate.
  - intros query_emb n_results. cbn. now destruct (Z.to_nat n_results).
  - now rewrite Hrun.
  - apply (f_equal fst) in Hrun. vm_compute in Hrun. discriminate.
Defined.

(** The clone is there but is no git repository: the diff exits with 128. *)
Lemma stream_review_diff_failure_witness :
  let E := Outage.env Outage.offline in
  @Review.stream_review E Outage.url false true (Outage.start Outage.offline true)
  = (([], Raise "Failed to get git diff: fatal: not a git repository"),
     Outage.start Outage.offline true).
Proof.
  exact (@stream_review_diff_failure (Outage.env Outage.offline) Outage.url false true
           (Outage.start Outage.offline true) (Outage.start Outage.offline true)
           "/srv/repos/widgets" 128 "" "fatal: not a git repository" true
           eq_refl eq_refl ltac:(discriminate)).
Defined.

(** The review of [Demo.tree] without fixes: two records of each check. *)
Lemma stream_review_without_autofix_witness :
  exists diff_text lint bugs,
    events_of (@Review.stream_review (Demo.env Demo.tree) Demo.url false false
                 (Demo.initial Demo.tree))
    = Review.original_diff_event diff_text
        :: Review.changed_files_event ["a.py"; "b.py"] :: lint ++ bugs
    /\ Forall2 (check_record "lint" "before_fix") ["a.py"; "b.py"] lint
    /\ Forall2 (check_record "bugcheck" "before_fix") ["a.py"; "b.py"] bugs.
Proof.
  edestruct (@stream_review_without_autofix (Demo.env Demo.tree) Demo.url false
               (Demo.initial Demo.tree)) as (lint & bugs & st' & Hrun & Hl & Hb).
  - reflexivity.
  - reflexivity.
  - discriminate.
  - reflexivity.
  - eexists _, lint, bugs. rewrite Hrun. split; [reflexivity|]. split; [exact Hl | exact Hb].
Defined.

(** The review of [Demo.tree] with fixes ends without raising. *)
Lemma stream_review_completes_after_diff_witness :
  result_of (@Review.stream_review (Demo.env Demo.tree) Demo.url false true
               (Demo.initial Demo.tree)) = Ok tt.
Proof.
  eapply (@stream_review_completes_after_diff (Demo.env Demo.tree) Demo.url false true
            (Demo.initial Demo.tree)); reflexivity.
Defined.

(** The clone is there and the pull fails. *)
Lemma get_repo_path_existing_clone_witness :
  let E := Outage.env Outage.offline in
  let st := Outage.start Outage.offline true in
  (exists w, @Indexer.get_repo_path E Outage.url st
             = (Ok "/srv/repos/widgets", with_world w st))
  /\ (exists w, @Review.get_repo_path E Outage.url st
                = (Ok "/srv/repos/widgets", with_world w st)).
Proof.
  exact (@get_repo_path_existing_clone (Outage.env Outage.offline) Outage.url
           (Outage.start Outage.offline true) eq_refl).
Defined.

(** The chat service cannot be reached. *)
Lemma call_llm_reports_failure_as_text_witness :
  exists st',
    @Agent.call_llm (Outage.env Outage.offline) "How do I install it?"
      (Outage.start Outage.offline true)
    = (Ok "ERROR: Connection error.", st').
Proof.
  destruct (@call_llm_reports_failure_as_text (Outage.env Outage.offline)
              "How do I install it?" (Outage.start Outage.offline true) "key"
              eq_refl eq_refl) as (answer & st' & Hrun & _ & _ & _ & Hanswer).
  exists st'. rewrite Hrun, Hanswer. reflexivity.
Defined.

(** No credential in the environment. *)
Lemma missing_credential_stops_the_call_witness :
  let E := Outage.env Outage.no_key in
  let st := Outage.start Outage.no_key true in
  @Agent.call_llm E "How do I install it?" st = (Raise "Missing GROQ_API_KEY in .env", st)
  /\ @Agent.summarize_review_events_with_llm E [] st
     = (Raise "Missing GROQ_API_KEY in .env", st).
Proof.
  exact (@missing_credential_stops_the_call (Outage.env Outage.no_key)
           "How do I install it?" [] (Outage.start Outage.no_key true)
           (or_introl eq_refl)).
Defined.

(** The summary of no events when the chat service cannot be reached. *)
Lemma summarizer_raises_service_failure_witness :
  let E := Outage.env Outage.offline in
  let st := Outage.start Outage.offline true in
  @Agent.summarize_review_events_with_llm E [] st
  = (Raise "Connection error.",
     with_world true (log_llm (@Agent.summary_messages E []) st)).
Proof.
  exact (@summarizer_raises_service_failure (Outage.env Outage.offline) []
           (Outage.start Outage.offline true) "key" "Connection error." true
           eq_refl eq_refl eq_refl).
Defined.

(** A question about a repository that cannot be cloned. *)
Lemma qna_clone_failure_witness :
  let E := Outage.env Outage.offline in
  let st := Outage.start Outage.offline false in
  exists detail,
    @Main.qna E {| Main.repo_url := Outage.url; Main.query := "How do I install it?";
                   Main.top_k := 5 |} st
    = (Ok (Main.HTTPException 500 detail), with_world false st).
Proof.
  exact (@qna_clone_failure (Outage.env Outage.offline)
           {| Main.repo_url := Outage.url; Main.query := "How do I install it?";
              Main.top_k := 5 |}
           (Outage.start Outage.offline false) 128 false
           eq_refl eq_refl ltac:(discriminate)).
Defined.

(** Five chunks asked for. *)
Lemma qna_returns_at_most_top_k_witness :
  match (@Main.qna (Demo.env Demo.clean)
           {| Main.repo_url := Demo.url; Main.query := "How do I install it?";
              Main.top_k := 5 |} (Demo.initial Demo.clean)).1 with
  | Ok (Main.QnaResponse _ top_chunks) => PyList.len top_chunks <= 5
  | _ => True
  end.
Proof.
  apply (@qna_returns_at_most_top_k (Demo.env Demo.clean)
           {| Main.repo_url := Demo.url; Main.query := "How do I install it?";
              Main.top_k := 5 |} (Demo.initial Demo.clean)).
  cbn. lia.
Defined.

(** A task type that is neither of the two. *)
Lemma run_agent_rejects_unknown_task_witness :
  @AgentRunner.run_agent (Demo.env Demo.clean) "lint" Demo.url "" false
    (Demo.initial Demo.clean)
  = (Raise "Invalid task_type: must be 'qna' or 'review'", Demo.initial Demo.clean).
Proof.
  apply (@run_agent_rejects_unknown_task (Demo.env Demo.clean) "lint" Demo.url "" false
           (Demo.initial Demo.clean)); discriminate.
Defined.

(** A review asked of the agent without a credential: the stream runs, then
    the agent raises. *)
Lemma run_agent_review_runs_before_credential_check_witness :
  let E := Outage.env Outage.no_key in
  let st := Outage.start Outage.no_key true in
  @collect E unit (@Review.stream_review E Outage.url false true) st
  = (Ok [Review.info_event "No changes found to review."], st)
  /\ @AgentRunner.run_agent E "review" Outage.url "" true st
     = (Raise "Missing GROQ_API_KEY in .env", st).
Proof.
  split; [reflexivity|].
  exact (@run_agent_review_runs_before_credential_check (Outage.env Outage.no_key)
           Outage.url "" true (Outage.start Outage.no_key true)
           (Outage.start Outage.no_key true)
           [Review.info_event "No changes found to review."]
           (or_introl eq_refl) eq_refl).
Defined.

(** The clone of [Demo.clean] holds a README. *)
Lemma index_repo_answers_whether_docs_were_read_witness :
  exists st',
    @Indexer.index_repo (Demo.env Demo.clean) Demo.url (Demo.initial Demo.clean)
    = (Ok true, st').
Proof.
  edestruct (@index_repo_answers_whether_docs_were_read (Demo.env Demo.clean) Demo.url
               (Demo.initial Demo.clean)) as (b & st' & Hrun & Hiff & _).
  - reflexivity.
  - reflexivity.
  - intros text. reflexivity.
  - intros c Hc. vm_compute in Hc. discriminate.
  - exists st'. rewrite Hrun. f_equal. f_equal. apply Hiff.
    exists "README.md", "hello". split; [left | vm_compute; do 2 right; left].
Defined.
